(** * amistreamraider: the stream pipeline scripts and the stub supervisor

    A shallow embedding of
    - [scripts/ts_joiner.py]   (continuity splicer),
    - [scripts/tcp_sink.py]    (TCP broadcast),
    - [scripts/fifo_switch.py] (placeholder/live switch),
    - [scripts/hls_repacker.py] (HLS repackager),
    - [server/transcode/stub.py] (stub pipeline supervisor),
    followed by the properties of the specification that concern them.

    Python integers are [Z]; a [bytes]/[bytearray] value is a [list Z] whose
    elements are meant to lie in [0, 256); dictionaries are [gmap]s and sets
    are [gset]s.  Exceptions are explicit results. *)

From Stdlib Require Import ZArith Lia Bool List QArith Qminmax Qround Ascii String DecimalString.
From stdpp Require Import gmap strings list.
From coqutil Require Import Z.bitblast.

(** ** Python results: values, early returns and exceptions *)

Module Py.

Inductive exn : Type :=
| IndexError
| RuntimeError (msg : string)
| BrokenPipeError
| ConnectionResetError
| OtherError (name : string).

(** The outcome of a call: a value or a raised exception. *)
Inductive res (A : Type) : Type :=
| Ok (a : A)
| Err (e : exn).
Arguments Ok {A} a.
Arguments Err {A} e.

(** Inside a function body: fall through to the next statement with a
    value, [return r], or raise. *)
Inductive ctl (R A : Type) : Type :=
| Next (a : A)
| Return (r : R)
| Raise (e : exn).
Arguments Next {R A} a.
Arguments Return {R A} r.
Arguments Raise {R A} e.

Definition bind {R A B} (m : ctl R A) (k : A -> ctl R B) : ctl R B :=
  match m with
  | Next a => k a
  | Return r => Return r
  | Raise e => Raise e
  end.

(** Leaving the function: the value of the last statement is its result. *)
Definition run {R} (m : ctl R R) : res R :=
  match m with
  | Next r => Ok r
  | Return r => Ok r
  | Raise e => Err e
  end.

(** [l[i]] on a sequence: negative indices count from the end, anything
    out of range raises [IndexError]. *)
Definition getitem {R A} (l : list A) (i : Z) : ctl R A :=
  let j := if (i <? 0)%Z then (i + Z.of_nat (length l))%Z else i in
  if (j <? 0)%Z then Raise IndexError
  else match l !! Z.to_nat j with
       | Some x => Next x
       | None => Raise IndexError
       end.

(** [l[a:b]] for [0 <= a]: never raises, clipped to the sequence. *)
Definition slice {A} (l : list A) (a b : Z) : list A :=
  take (Z.to_nat (b - a)) (drop (Z.to_nat a) l).

(** [l[a:b] = v] for [0 <= a <= b] on a bytearray. *)
Definition set_slice {A} (l : list A) (a b : Z) (v : list A) : list A :=
  take (Z.to_nat a) l ++ v ++ drop (Z.to_nat b) l.

End Py.

Import Py.

Declare Scope py_scope.
Delimit Scope py_scope with py.
Notation "'let*' x ':=' m 'in' k" := (Py.bind m (fun x => k))
  (at level 10, x pattern, m at level 100, k at level 200, only parsing) : py_scope.
Notation "'when' c 'do' m 'in' k" := (Py.bind (if c then m else Py.Next tt) (fun _ => k))
  (at level 10, c at level 100, m at level 100, k at level 200, only parsing) : py_scope.

(** ** scripts/ts_joiner.py *)

Module TsJoiner.
Local Open Scope Z_scope.
Local Open Scope py_scope.

Definition TS_PACKET_SIZE : Z := 188.
Definition PTS_MASK : Z := Z.shiftl 1 33 - 1.

Definition decode_pts (data : list Z) : res Z :=
  run (
    let* d0 := getitem data 0 in
    let* d1 := getitem data 1 in
    let* d2 := getitem data 2 in
    let* d3 := getitem data 3 in
    let* d4 := getitem data 4 in
    Next
      (Z.lor (Z.lor (Z.lor (Z.lor
         (Z.shiftl (Z.land (Z.shiftr d0 1) 0x07) 30)
         (Z.shiftl d1 22))
         (Z.shiftl (Z.land (Z.shiftr d2 1) 0x7F) 15))
         (Z.shiftl d3 7))
         (Z.land (Z.shiftr d4 1) 0x7F))).

Definition encode_pts (value : Z) : list Z :=
  let pts := Z.land value (Z.shiftl 1 33 - 1) in
  let b0 := Z.lor (Z.shiftl (Z.lor (Z.shiftl 0x2 4) (Z.land (Z.shiftr pts 30) 0x07)) 1) 0x01 in
  let b1 := Z.land (Z.shiftr pts 22) 0xFF in
  let b2 := Z.land (Z.lor (Z.shiftl (Z.land (Z.shiftr pts 15) 0x7F) 1) 0x01) 0xFF in
  let b3 := Z.land (Z.shiftr pts 7) 0xFF in
  let b4 := Z.land (Z.lor (Z.shiftl (Z.land pts 0x7F) 1) 0x01) 0xFF in
  [b0; b1; b2; b3; b4].

Definition stream_is_media (stream_id : Z) : bool :=
  ((0xC0 <=? stream_id) && (stream_id <=? 0xDF))
  || ((0xE0 <=? stream_id) && (stream_id <=? 0xEF)).

(** What [extract_pts] returns when it finds a timestamp:
    [(pts, pts_pos, dts, dts_pos)]. *)
Definition parsed : Type := Z * Z * option Z * option Z.

Definition len (packet : list Z) : Z := Z.of_nat (length packet).

(** [decode_pts] raises where its slice is too short; the exception
    crosses [extract_pts] unchanged. *)
Definition lift {R A} (r : res A) : ctl R A :=
  match r with
  | Ok a => Next a
  | Err e => Raise e
  end.

Definition extract_pts (packet : list Z) : res (option parsed) :=
  run (
    when negb (len packet =? TS_PACKET_SIZE) do Return None in
    let* p0 := getitem packet 0 in
    when negb (p0 =? 0x47) do Return None in
    let* p1 := getitem packet 1 in
    let payload_unit_start := negb (Z.land p1 0x40 =? 0) in
    let* p3 := getitem packet 3 in
    let adaptation_field_control := Z.land (Z.shiftr p3 4) 0x03 in
    let idx := 4 in
    let* idx :=
      (if (adaptation_field_control =? 2) || (adaptation_field_control =? 3) then
         when len packet <=? idx do Return None in
         let* adap_len := getitem packet idx in
         Next (idx + (1 + adap_len))
       else Next idx) in
    when (adaptation_field_control =? 2) || (len packet <=? idx) do Return None in
    when negb payload_unit_start do Return None in
    when (len packet <? idx + 6)
         || negb (bool_decide (slice packet idx (idx + 3) = [0; 0; 1]))
      do Return None in
    let* stream_id := getitem packet (idx + 3) in
    when negb (stream_is_media stream_id) do Return None in
    let* flags := getitem packet (idx + 7) in
    let* header_data_length := getitem packet (idx + 8) in
    when Z.land flags 0x80 =? 0 do Return None in
    let pts_pos := idx + 9 in
    when (len packet <? pts_pos + 5) || (header_data_length <? 5) do Return None in
    let* pts := lift (decode_pts (slice packet pts_pos (pts_pos + 5))) in
    if negb (Z.land flags 0x40 =? 0) then
      let dts_pos := pts_pos + 5 in
      when (len packet <? dts_pos + 5) || (header_data_length <? 10) do Return None in
      let* dts := lift (decode_pts (slice packet dts_pos (dts_pos + 5))) in
      Next (Some (pts, pts_pos, Some dts, Some dts_pos))
    else
      Next (Some (pts, pts_pos, None, None))).

(** The four locals of [main] that survive a loop iteration. *)
Record state : Type := State {
  use_live : bool;
  placeholder_last_pts : option Z;
  first_live_pts : option Z;
  pts_offset : option Z;
}.

Definition initial : state :=
  {| use_live := false; placeholder_last_pts := None;
     first_live_pts := None; pts_offset := None |}.

(** Lines 115-131: the body of [if use_live:] for one packet read from the
    live descriptor.  Returns the updated locals and the bytes written. *)
Definition live_packet (st : state) (packet : list Z) : res (state * list Z) :=
  run (
    let mutable_packet := packet in
    let* parsed := lift (extract_pts mutable_packet) in
    match parsed with
    | Some (pts, pts_pos, dts, dts_pos) =>
        let st :=
          match first_live_pts st with
          | None =>
              let first_live := pts in
              let placeholder_last :=
                match placeholder_last_pts st with
                | None => pts
                | Some p => p
                end in
              {| use_live := use_live st;
                 placeholder_last_pts := Some placeholder_last;
                 first_live_pts := Some first_live;
                 pts_offset := Some (Z.land (placeholder_last - first_live) PTS_MASK) |}
          | Some _ => st
          end in
        match pts_offset st with
        | Some off =>
            let new_pts := Z.land (pts + off) PTS_MASK in
            let mutable_packet := set_slice mutable_packet pts_pos (pts_pos + 5) (encode_pts new_pts) in
            match dts, dts_pos with
            | Some dts, Some dts_pos =>
                let new_dts := Z.land (dts + off) PTS_MASK in
                Next (st, set_slice mutable_packet dts_pos (dts_pos + 5) (encode_pts new_dts))
            | _, _ => Next (st, mutable_packet)
            end
        | None => Next (st, mutable_packet)
        end
    | None => Next (st, mutable_packet)
    end).

(** Lines 132-139: the [else] branch, one packet read from the placeholder. *)
Definition placeholder_packet (st : state) (packet : list Z) : res (state * list Z) :=
  run (
    let* parsed := lift (extract_pts packet) in
    match parsed with
    | Some (pts, _, _, _) =>
        let newer :=
          match placeholder_last_pts st with
          | None => true
          | Some p => p <? pts
          end in
        if newer then
          Next ({| use_live := use_live st; placeholder_last_pts := Some pts;
                   first_live_pts := first_live_pts st; pts_offset := pts_offset st |}, packet)
        else Next (st, packet)
    | None => Next (st, packet)
    end).

(** What the outside world answers during one turn of [while True]:
    whether the selector reports the live descriptor readable (asked only
    while [use_live] is false), and what [source.read(188)] returns from
    the source the loop then chooses. *)
Record turn : Type := Turn {
  live_ready : bool;
  read : list Z;
}.

(** Lines 99-107: while the placeholder is still the source, the selector
    is asked whether the live descriptor is readable. *)
Definition select_live (st : state) (t : turn) : state :=
  if negb (use_live st) && live_ready t then
    {| use_live := true; placeholder_last_pts := placeholder_last_pts st;
       first_live_pts := first_live_pts st; pts_offset := pts_offset st |}
  else st.

(** One turn of the loop: [None] is [break]; otherwise the new locals and
    what was written to standard output during the turn. *)
Definition iteration (st : state) (t : turn) : res (option (state * list (list Z))) :=
  let st := select_live st t in
  match read t with
  | [] => if negb (use_live st) then Ok (Some (st, [])) else Ok None
  | packet =>
      match (if use_live st then live_packet st packet else placeholder_packet st packet) with
      | Ok (st', out) => Ok (Some (st', [out]))
      | Err e => Err e
      end
  end.

(** The loop over a finite prefix of the world's answers: the final
    locals (if the prefix did not end the loop), and everything written. *)
Inductive ending : Type :=
| Running (st : state)
| Finished (st : state)
| Crashed (e : exn).

Fixpoint main_loop (st : state) (ts : list turn) : ending * list (list Z) :=
  match ts with
  | [] => (Running st, [])
  | t :: ts =>
      match iteration st t with
      | Err e => (Crashed e, [])
      | Ok None => (Finished (select_live st t), [])
      | Ok (Some (st', out)) =>
          let '(e, outs) := main_loop st' ts in (e, out ++ outs)
      end
  end.

(** The 33-bit value laid out by the timestamp encoding: bit fields of
    3, 8, 7, 8 and 7 bits, from the most significant one. *)
Definition pack (a b c d e : Z) : Z :=
  Z.lor (Z.lor (Z.lor (Z.lor
    (Z.shiftl (Z.land a (Z.ones 3)) 30)
    (Z.shiftl (Z.land b (Z.ones 8)) 22))
    (Z.shiftl (Z.land c (Z.ones 7)) 15))
    (Z.shiftl (Z.land d (Z.ones 8)) 7))
    (Z.land e (Z.ones 7)).

(** A Python [bytes] value: every element is in [range(256)]. *)
Definition is_bytes (l : list Z) : Prop := Forall (fun b => 0 <= b < 256) l.

(** A valid timestamp field in the words of the specification: five bytes
    whose marker bits (bit 0 of bytes 0, 2 and 4) are set and whose leading
    nibble is 0b0010 (PTS only), 0b0011 (PTS followed by a DTS) or 0b0001
    (DTS). *)
Definition marker_bits_set (b : list Z) : bool :=
  match b with
  | [b0; _; b2; _; b4] => Z.testbit b0 0 && Z.testbit b2 0 && Z.testbit b4 0
  | _ => false
  end.

Definition prefix_nibble (b : list Z) : Z :=
  match b with
  | b0 :: _ => Z.shiftr b0 4
  | [] => 0
  end.

Definition valid_field (b : list Z) : Prop :=
  length b = 5%nat /\ is_bytes b /\ marker_bits_set b = true
  /\ (prefix_nibble b = 2 \/ prefix_nibble b = 3 \/ prefix_nibble b = 1).

(** The packet [out] agrees with [packet] everywhere except in the five
    bytes from [pos] and, when there is one, the five bytes from [dts_pos]. *)
Definition same_outside (packet out : list Z) (pos : Z) (dts_pos : option Z) : Prop :=
  length out = length packet /\
  forall i : nat,
    ~ (pos <= Z.of_nat i < pos + 5) ->
    (forall d, dts_pos = Some d -> ~ (d <= Z.of_nat i < d + 5)) ->
    out !! i = packet !! i.

(** The bytes that lines 126-130 leave in [mutable_packet] for a packet
    parsed as [(pts, pos, dts, dts_pos)] under the offset [off]. *)
Definition retimed (packet : list Z) (pts pos : Z) (dts dts_pos : option Z) (off : Z)
    : list Z :=
  let p := set_slice packet pos (pos + 5) (encode_pts (Z.land (pts + off) PTS_MASK)) in
  match dts, dts_pos with
  | Some d, Some dp => set_slice p dp (dp + 5) (encode_pts (Z.land (d + off) PTS_MASK))
  | _, _ => p
  end.

(** Once an offset is stored, so is the first live timestamp, and the loop
    reads from the live descriptor. *)
Definition offset_inv (st : state) : Prop :=
  forall off, pts_offset st = Some off ->
    use_live st = true /\ exists f, first_live_pts st = Some f.

(** States that a run of [main] can be in between two turns of its loop. *)
Definition reachable (st : state) : Prop :=
  exists ts outs, main_loop initial ts = (Running st, outs).

(** Packets for the scenarios: a 188-byte transport packet that starts a
    video PES packet (stream id 0xE0) right after the 4-byte header, with
    the given flag byte, header length and timestamp fields. *)
Definition pes_packet (flags hdl : Z) (fields : list Z) : list Z :=
  let head := [0x47; 0x40; 0x00; 0x10; 0; 0; 1; 0xE0; 0; 0; 0x80; flags; hdl] ++ fields in
  head ++ repeat 0xFF (188 - length head).

Definition pts_packet (pts : Z) : list Z := pes_packet 0x80 5 (encode_pts pts).

Definition pts_dts_packet (pts dts : Z) : list Z :=
  pes_packet 0xC0 10 (encode_pts pts ++ encode_pts dts).

(** A 188-byte packet whose adaptation field (175 bytes) leaves eight
    payload bytes: the start of a video PES header, cut after its first
    flag byte. *)
Definition truncated_pes_packet : list Z :=
  [0x47; 0x40; 0x00; 0x30; 175] ++ repeat 0xFF 175 ++ [0; 0; 1; 0xE0; 0; 0; 0x80; 0x80].

(** The placeholder shows timestamps 45000, 90000 and 60000; then the live
    descriptor becomes readable and delivers timestamps 0 and 9000. *)
Definition scenario : list turn :=
  [ Turn false (pts_packet 45000); Turn false (pts_packet 90000);
    Turn false (pts_packet 60000);
    Turn true (pts_packet 0); Turn false (pts_packet 9000) ].

(** The locals of [main] once the scenario has run. *)
Definition spliced : state :=
  {| use_live := true; placeholder_last_pts := Some 90000;
     first_live_pts := Some 0; pts_offset := Some 90000 |}.

(** Live locals before any timestamp was seen on either side. *)
Definition live_unseen : state :=
  {| use_live := true; placeholder_last_pts := None;
     first_live_pts := None; pts_offset := None |}.

(** Timestamp fields of value 0 with the prefixes 0b0010, 0b0011, 0b0001. *)
Definition pts_only_field : list Z := [0x21; 0x00; 0x01; 0x00; 0x01].
Definition pts_with_dts_field : list Z := [0x31; 0x00; 0x01; 0x00; 0x01].
Definition dts_field : list Z := [0x11; 0x00; 0x01; 0x00; 0x01].

(** The packets that a run reads: every non-empty answer to
    [source.read(188)]. *)
Definition packets_read (ts : list turn) : list (list Z) :=
  List.filter (fun p => negb (bool_decide (p = []))) (read <$> ts).

(** The presentation timestamp that [extract_pts] finds in a packet. *)
Definition packet_pts (packet : list Z) : option Z :=
  match extract_pts packet with
  | Ok (Some (pts, _, _, _)) => Some pts
  | _ => None
  end.

(** A run in which the selector never reports the live descriptor. *)
Definition placeholder_only (ts : list turn) : Prop :=
  Forall (fun t => live_ready t = false) ts.

(** How a written packet may differ from the packet read: not at all, or
    in the timestamp fields that [extract_pts] located. *)
Definition retimed_only (packet out : list Z) : Prop :=
  out = packet
  \/ exists pts pos dts dts_pos,
       extract_pts packet = Ok (Some (pts, pos, dts, dts_pos))
       /\ same_outside packet out pos dts_pos.

(** A transport packet without adaptation field and without the
    payload-unit-start flag: the middle of a PES packet. *)
Definition continuation_packet : list Z :=
  [0x47; 0x00; 0x21; 0x10] ++ repeat 0xAA 184.

End TsJoiner.

(** ** scripts/tcp_sink.py *)

Module TcpSink.
Local Open Scope Z_scope.

(** An [asyncio.StreamWriter], known by its identity. *)
Definition writer : Type := nat.

(** What [writer.write(chunk); await writer.drain()] does for one client.
    [write] only appends to the transport's buffer; [drain] returns once
    the buffer is below its high-water mark, raises when the connection
    is lost, and otherwise stays pending: a peer that keeps its socket
    open but reads no more never lets it complete.  The source puts no
    timeout around the await. *)
Inductive drain_outcome : Type :=
| Drained
| Raised (e : exn)
| Stalled.

(** The closure variables of [serve_stream] that the delivery path uses. *)
Record server : Type := Server {
  clients : gset writer;
  total_bytes : Z;
  client_ready : bool;
  shutdown_event : bool;
}.

(** [close_client]: the writer leaves the set; errors of [close] and
    [wait_closed] are suppressed. *)
Definition close_client (s : server) (w : writer) : server :=
  {| clients := clients s ∖ {[w]}; total_bytes := total_bytes s;
     client_ready := client_ready s; shutdown_event := shutdown_event s |}.

(** An awaited coroutine either completes, raises, or stays pending
    for ever on some writer's drain. *)
Inductive awaited (A : Type) : Type :=
| Completed (a : A)
| Failed (e : exn)
| Pending (on : writer).
Arguments Completed {A} a.
Arguments Failed {A} e.
Arguments Pending {A} on.

(** The first loop of [broadcast], over the snapshot [list(clients)].
    [written] collects, in order, the writers whose [write] was called. *)
Fixpoint offer (world : writer -> drain_outcome) (ws : list writer)
    (dead : gset writer) (written : list writer) : awaited (gset writer) * list writer :=
  match ws with
  | [] => (Completed dead, written)
  | w :: ws =>
      match world w with
      | Drained => offer world ws dead (written ++ [w])
      | Raised ConnectionResetError => offer world ws ({[w]} ∪ dead) (written ++ [w])
      | Raised BrokenPipeError => offer world ws ({[w]} ∪ dead) (written ++ [w])
      | Raised e => (Failed e, written ++ [w])
      | Stalled => (Pending w, written ++ [w])
      end
  end.

(** [broadcast(chunk)]: the server afterwards, and who was handed the chunk. *)
Definition broadcast (s : server) (world : writer -> drain_outcome)
    : awaited server * list writer :=
  match offer world (elements (clients s)) ∅ [] with
  | (Completed dead, written) =>
      (Completed (foldl close_client s (elements dead)), written)
  | (Failed e, written) => (Failed e, written)
  | (Pending w, written) => (Pending w, written)
  end.

(** One [stdin_reader.read(CHUNK_SIZE)] and the drains that follow it. *)
Record input : Type := Input {
  data : list Z;
  world : writer -> drain_outcome;
}.

(** The [while] loop of [stdin_consumer] over the chunks that standard
    input still holds.  The result tells how the loop ended, which chunk
    went to which writers, and which chunks were never read. *)
Fixpoint stdin_consumer (s : server) (inputs : list input)
    : awaited server * list (list Z * list writer) * list input :=
  if shutdown_event s then (Completed s, [], inputs) else
  match inputs with
  | [] => (Completed s, [], [])
  | i :: rest =>
      match data i with
      | [] => (Completed s, [], rest)
      | chunk =>
          let s := {| clients := clients s;
                      total_bytes := total_bytes s + Z.of_nat (length chunk);
                      client_ready := client_ready s;
                      shutdown_event := shutdown_event s |} in
          match broadcast s (world i) with
          | (Completed s', written) =>
              let '(r, log, unread) := stdin_consumer s' rest in
              (r, (chunk, written) :: log, unread)
          | (Failed e, written) => (Failed e, [(chunk, written)], rest)
          | (Pending w, written) => (Pending w, [(chunk, written)], rest)
          end
      end
  end.

(** A drain that ends: it returns, or the connection is reported lost
    with one of the two exceptions that [broadcast] catches. *)
Definition ends (o : drain_outcome) : Prop :=
  o = Drained \/ o = Raised ConnectionResetError \/ o = Raised BrokenPipeError.

(** Three connected clients.  In the first world client 2 keeps its
    connection open and reads no more; in the second its connection is
    reset. *)
Definition three_clients : server :=
  {| clients := {[ 1%nat; 2%nat; 3%nat ]}; total_bytes := 0;
     client_ready := true; shutdown_event := false |}.


Definition one_resets (w : writer) : drain_outcome :=
  if decide (w = 2%nat) then Raised ConnectionResetError else Drained.

Definition all_drain (w : writer) : drain_outcome := Drained.

(** The closure variables as [serve_stream] creates them. *)
Definition fresh : server :=
  {| clients := ∅; total_bytes := 0; client_ready := false; shutdown_event := false |}.

(** [handle_client] up to its [await reader.read()]: the writer joins the
    set and [client_ready] is set. *)
Definition on_connect (s : server) (w : writer) : server :=
  {| clients := {[w]} ∪ clients s; total_bytes := total_bytes s;
     client_ready := true; shutdown_event := shutdown_event s |}.

(** The [finally] block of [handle_client], run when the peer has closed
    its side: the writer is closed, and with [--stop-on-disconnect] the
    last client to leave sets [shutdown_event] (the consumer, if blocked in
    a read, is cancelled as well). *)
Definition on_disconnect (stop_on_disconnect : bool) (s : server) (w : writer) : server :=
  let s := close_client s w in
  if stop_on_disconnect && bool_decide (clients s = ∅) then
    {| clients := clients s; total_bytes := total_bytes s;
       client_ready := client_ready s; shutdown_event := true |}
  else s.

(** What the peers do between two reads of standard input. *)
Inductive connection : Type :=
| Connect (w : writer)
| Disconnect (w : writer).

Definition handle_client (stop_on_disconnect : bool) (s : server) (c : connection) : server :=
  match c with
  | Connect w => on_connect s w
  | Disconnect w => on_disconnect stop_on_disconnect s w
  end.

(** [stdin_consumer] from its first line: with [--wait-for-client] it
    awaits [client_ready] before the loop; [None] is a consumer still
    waiting there. *)
Definition stdin_task (wait_for_client : bool) (s : server) (inputs : list input)
    : option (awaited server * list (list Z * list writer) * list input) :=
  if wait_for_client && negb (client_ready s) then None
  else Some (stdin_consumer s inputs).

End TcpSink.

(** ** server/transcode/stub.py *)

Module Stub.
Local Open Scope Z_scope.

(** Modelled from the spec: the dataclasses [TranscodeProfile],
    [PipelineStatus] and [PipelineMetrics] of [server/transcode/manager.py],
    with the fields that [stub.py] and [web/app.py] read and write.  A
    clock reading ([time.time()]) is a rational number of seconds. *)
Record TranscodeProfile : Type := Profile {
  name : string;
  output_args : list string;
  description : option string;
  profile_listen_port : option Z;
}.

Record PipelineStatus : Type := Status {
  op_id : string;
  channel : string;
  profile : string;
  started_at : Q;
  state : string;
  listen_host : string;
  listen_port : Z;
  outfile : string;
  log_file : string;
  pgid : option Z;
  ended_at : option Q;
  restart_count : Z;
  last_error : option string;
}.

Record PipelineMetrics : Type := Metrics {
  metrics_op_id : string;
  bytes_total : Z;
  out_time_ms : Z;
  bitrate_kbps : Z;
  updated_at : option Q;
}.

(** The attributes of a [StubTranscodeManager].  [_profiles] keeps the
    insertion order of the Python dict; a metrics task is known by the
    number under which it was created. *)
Record manager : Type := Manager {
  _profiles : list (string * TranscodeProfile);
  _pipelines : gmap string PipelineStatus;
  _metrics : gmap string PipelineMetrics;
  _metric_tasks : gmap string nat;
  tasks_created : nat;
  tasks_cancelled : gset nat;
}.

Definition stub_profile : TranscodeProfile :=
  {| name := "stub"; output_args := [];
     description := Some "Stub profile (no real transcoding)";
     profile_listen_port := Some 5001 |}.

(** [__init__] *)
Definition init : manager :=
  {| _profiles := [(name stub_profile, stub_profile)];
     _pipelines := ∅; _metrics := ∅; _metric_tasks := ∅;
     tasks_created := 0; tasks_cancelled := ∅ |}.

Definition available_profiles (m : manager) : list TranscodeProfile :=
  snd <$> _profiles m.

(** [dict.get] on the ordered profile table. *)
Fixpoint profiles_get (ps : list (string * TranscodeProfile)) (k : string)
    : option TranscodeProfile :=
  match ps with
  | [] => None
  | (k', p) :: ps => if decide (k' = k) then Some p else profiles_get ps k
  end.

Definition get_status (m : manager) (op : string) : res (option PipelineStatus) :=
  Ok (_pipelines m !! op).

(** [int(x)] on a non-negative float: truncation. *)
Definition int_of (x : Q) : Z := Z.quot (Qnum x) (Zpos (Qden x)).

(** [_update_metrics] at clock reading [now].  The arithmetic on clock
    readings is exact here, where the code rounds each result to a double:
    the two agree on which of two readings is the later one and on
    whether the elapsed time is zero, and a result may differ in its last
    unit. *)
Definition _update_metrics (m : manager) (now : Q) (op : string) : manager :=
  match _pipelines m !! op, _metrics m !! op with
  | Some status, Some metrics =>
      let elapsed := Qmax 0 (now - started_at status)%Q in
      let metrics' :=
        if Qeq_bool elapsed 0 then
          {| metrics_op_id := metrics_op_id metrics; bytes_total := 0;
             out_time_ms := int_of (elapsed * 1000)%Q; bitrate_kbps := 0;
             updated_at := Some now |}
        else
          let simulated_bps := (1500000 / 8)%Q in
          {| metrics_op_id := metrics_op_id metrics;
             bytes_total := int_of (simulated_bps * elapsed)%Q;
             out_time_ms := int_of (elapsed * 1000)%Q; bitrate_kbps := 1500;
             updated_at := Some now |} in
      {| _profiles := _profiles m; _pipelines := _pipelines m;
         _metrics := <[op := metrics']> (_metrics m);
         _metric_tasks := _metric_tasks m;
         tasks_created := tasks_created m; tasks_cancelled := tasks_cancelled m |}
  | _, _ => m
  end.

Definition get_metrics (m : manager) (now : Q) (op : string)
    : res (option PipelineMetrics * manager) :=
  match _pipelines m !! op, _metrics m !! op with
  | Some _, Some _ =>
      let m' := _update_metrics m now op in
      Ok (_metrics m' !! op, m')
  | _, _ => Ok (None, m)
  end.

(** [start_pipeline].  An unknown [profile_name] falls back to the first
    profile of the table; on an empty table [next(iter(...))] raises
    [StopIteration], which leaves a coroutine as a [RuntimeError].  The
    records stored under [op] are overwritten. *)
Definition start_pipeline (m : manager) (now : Q) (op chan profile_name : string)
    : res (PipelineStatus * manager) :=
  let found :=
    match profiles_get (_profiles m) profile_name with
    | Some p => Some p
    | None => match _profiles m with
              | (_, p) :: _ => Some p
              | [] => None
              end
    end in
  match found with
  | None => Err (RuntimeError "coroutine raised StopIteration")
  | Some p =>
      let port :=
        match profile_listen_port p with
        | Some n => if n =? 0 then 5001 else n
        | None => 5001
        end in
      let status :=
        {| op_id := op; channel := chan; profile := name p; started_at := now;
           state := "running"; listen_host := "127.0.0.1"; listen_port := port;
           outfile := "/tmp/" +:+ op +:+ ".mpg"; log_file := "/tmp/" +:+ op +:+ ".log";
           pgid := None; ended_at := None; restart_count := 0; last_error := None |} in
      let metrics :=
        {| metrics_op_id := op; bytes_total := 0; out_time_ms := 0;
           bitrate_kbps := 0; updated_at := None |} in
      Ok (status,
          {| _profiles := _profiles m;
             _pipelines := <[op := status]> (_pipelines m);
             _metrics := <[op := metrics]> (_metrics m);
             _metric_tasks := <[op := tasks_created m]> (_metric_tasks m);
             tasks_created := S (tasks_created m);
             tasks_cancelled := tasks_cancelled m |})
  end.

(** [stop_pipeline] *)
Definition stop_pipeline (m : manager) (now : Q) (op : string) : res (bool * manager) :=
  match _pipelines m !! op with
  | None => Ok (false, m)
  | Some status =>
      let status' :=
        {| op_id := op_id status; channel := channel status; profile := profile status;
           started_at := started_at status; state := "stopped";
           listen_host := listen_host status; listen_port := listen_port status;
           outfile := outfile status; log_file := log_file status; pgid := pgid status;
           ended_at := Some now; restart_count := restart_count status;
           last_error := last_error status |} in
      let m1 :=
        {| _profiles := _profiles m; _pipelines := <[op := status']> (_pipelines m);
           _metrics := _metrics m; _metric_tasks := _metric_tasks m;
           tasks_created := tasks_created m; tasks_cancelled := tasks_cancelled m |} in
      let m2 := _update_metrics m1 now op in
      let m3 :=
        {| _profiles := _profiles m2; _pipelines := _pipelines m2;
           _metrics := _metrics m2; _metric_tasks := delete op (_metric_tasks m2);
           tasks_created := tasks_created m2;
           tasks_cancelled :=
             match _metric_tasks m2 !! op with
             | Some t => {[t]} ∪ tasks_cancelled m2
             | None => tasks_cancelled m2
             end |} in
      Ok (true, m3)
  end.

(** [remove_pipeline] *)
Definition remove_pipeline (m : manager) (op : string) : manager :=
  {| _profiles := _profiles m; _pipelines := delete op (_pipelines m);
     _metrics := delete op (_metrics m); _metric_tasks := delete op (_metric_tasks m);
     tasks_created := tasks_created m;
     tasks_cancelled :=
       match _metric_tasks m !! op with
       | Some t => {[t]} ∪ tasks_cancelled m
       | None => tasks_cancelled m
       end |}.

(** One turn of the task [_simulate_metrics]: whether the operation still
    runs or not, the metrics are brought up to date; the task goes on to
    sleep only while the operation is known and running. *)
Definition _simulate_metrics (m : manager) (now : Q) (op : string) : manager * bool :=
  match _pipelines m !! op with
  | Some status =>
      if bool_decide (state status = "running"%string)
      then (_update_metrics m now op, true)
      else (_update_metrics m now op, false)
  | None => (_update_metrics m now op, false)
  end.

(** What can be done to a supervisor between two moments: the calls of the
    web layer, and a turn of a metrics task. *)
Inductive call : Type :=
| StartPipeline (now : Q) (op chan profile_name : string)
| StopPipeline (now : Q) (op : string)
| RemovePipeline (op : string)
| GetMetrics (now : Q) (op : string)
| SimulateMetrics (now : Q) (op : string).

(** The supervisor after a call (a call that raises leaves it as it was). *)
Definition perform (m : manager) (c : call) : manager :=
  match c with
  | StartPipeline now op chan profile_name =>
      match start_pipeline m now op chan profile_name with
      | Ok (_, m') => m'
      | Err _ => m
      end
  | StopPipeline now op =>
      match stop_pipeline m now op with
      | Ok (_, m') => m'
      | Err _ => m
      end
  | RemovePipeline op => remove_pipeline m op
  | GetMetrics now op =>
      match get_metrics m now op with
      | Ok (_, m') => m'
      | Err _ => m
      end
  | SimulateMetrics now op => fst (_simulate_metrics m now op)
  end.

(** What the records of a stub supervisor look like. *)
Definition status_kept (m : manager) (op : string) (st : PipelineStatus) : Prop :=
  op_id st = op /\ profile st = "stub"%string
  /\ listen_host st = "127.0.0.1"%string /\ listen_port st = 5001 /\ pgid st = None
  /\ ((state st = "running"%string /\ ended_at st = None
       /\ is_Some (_metric_tasks m !! op))
      \/ (state st = "stopped"%string /\ is_Some (ended_at st)
          /\ _metric_tasks m !! op = None)).

Definition metrics_kept (op : string) (x : PipelineMetrics) : Prop :=
  metrics_op_id x = op /\ 0 <= bytes_total x /\ 0 <= out_time_ms x
  /\ ((bitrate_kbps x = 0 /\ bytes_total x = 0) \/ bitrate_kbps x = 1500).

Definition well_kept (m : manager) : Prop :=
  _profiles m = _profiles init
  /\ (forall op, is_Some (_pipelines m !! op) <-> is_Some (_metrics m !! op))
  /\ (forall op st, _pipelines m !! op = Some st -> status_kept m op st)
  /\ (forall op x, _metrics m !! op = Some x -> metrics_kept op x)
  /\ (forall op t, _metric_tasks m !! op = Some t ->
        (t < tasks_created m)%nat /\ (t ∉ tasks_cancelled m)
        /\ forall op', _metric_tasks m !! op' = Some t -> op' = op)
  /\ (forall t, t ∈ tasks_cancelled m -> (t < tasks_created m)%nat).

End Stub.

(** ** scripts/hls_repacker.py *)

Module HlsRepacker.
Local Open Scope Q_scope.

Definition SEGMENT_SUFFIX : string := ".ts".

Record SegmentEntry : Type := Entry {
  uri : string;
  duration : Q;
  discontinuity : bool;
}.

(** A [pathlib.Path]: a root, or [p / name]. *)
Inductive path : Type :=
| Root (s : string)
| Div (p : path) (name : string).

(** The command line of [main]; [keep_segments] is the [maxlen] of the
    deque, which Python refuses when negative. *)
Record arguments : Type := Args {
  source_parent : path;
  output_dir : path;
  poll_interval : Q;
  segment_timeout : Q;
  segment_duration : Q;
  keep_segments : nat;
  gap_timeout : Q;
}.

(** [str.strip()] and [startswith("#")].  A [string] stands for a [str]
    whose code points are below 256, one character each; the white space
    that [strip] removes is then U+0009 to U+000D, U+001C to U+0020,
    U+0085 and U+00A0. *)
Definition is_space (a : ascii) : bool :=
  let n := nat_of_ascii a in
  (n =? 32)%nat || ((9 <=? n)%nat && (n <=? 13)%nat) || ((28 <=? n)%nat && (n <=? 31)%nat)
  || (n =? 133)%nat || (n =? 160)%nat.

Fixpoint lstrip (s : string) : string :=
  match s with
  | String a s' => if is_space a then lstrip s' else s
  | EmptyString => EmptyString
  end.

Fixpoint rstrip (s : string) : string :=
  match s with
  | String a s' =>
      match rstrip s' with
      | EmptyString => if is_space a then EmptyString else String a EmptyString
      | r => String a r
      end
  | EmptyString => EmptyString
  end.

Definition strip (s : string) : string := rstrip (lstrip s).

Definition is_comment (s : string) : bool :=
  match s with
  | String "#" _ => true
  | _ => false
  end.

(** [parse_manifest]: [None] is a manifest that does not exist
    ([FileNotFoundError]); otherwise the lines ([splitlines]) of its text,
    a file that decodes as UTF-8. *)
Definition parse_manifest (text : option (list string)) : list string :=
  match text with
  | None => []
  | Some lines =>
      List.filter (fun l => negb (bool_decide (l = EmptyString)) && negb (is_comment l))
                  (strip <$> lines)
  end.

(** [deque.append] with [maxlen]: the oldest entries fall off the left. *)
Definition deque_append {A} (maxlen : nat) (d : list A) (x : A) : list A :=
  let d' := d ++ [x] in
  drop (length d' - maxlen) d'.

(** [f"{n:05d}"] *)
Definition fmt_05d (n : nat) : string :=
  let s := DecimalString.NilZero.string_of_uint (Nat.to_uint n) in
  String.concat EmptyString (repeat "0"%string (5 - String.length s)) +:+ s.

Definition segment_name (sequence : nat) : string :=
  "segment_" +:+ fmt_05d sequence +:+ SEGMENT_SUFFIX.

Inductive effect : Type :=
| Copy (src dst : path)
| WriteText (file : path) (text : string)
| Sleep (seconds : Q).

Section Repack.
(** [format(x, ".3f")] on a float. *)
Variable fmt_3f : Q -> string.
Variable args : arguments.

(** [build_manifest], as its lines; the text is their join with a final
    newline. *)
Definition manifest_lines (segments : list SegmentEntry) : list string :=
  ["#EXTM3U"; "#EXT-X-VERSION:3"; "#EXT-X-TARGETDURATION:6"; "#EXT-X-MEDIA-SEQUENCE:0"]%string
  ++ (segments ≫= fun seg =>
        (if discontinuity seg then ["#EXT-X-DISCONTINUITY"%string] else [])
        ++ [("#EXTINF:" +:+ fmt_3f (duration seg) +:+ ",")%string; uri seg]).

Definition build_manifest (segments : list SegmentEntry) : string :=
  String.concat (String "010" EmptyString) (manifest_lines segments)
  +:+ String "010" EmptyString.

(** The locals of [repack] that survive a turn of its loop. *)
Record state : Type := State {
  recent_segments : list SegmentEntry;
  processed : gset string;
  sequence : nat;
  last_output_path : option path;
  last_source_time : Q;
}.

(** [repack] before its loop, started at clock reading [now]. *)
Definition initial (now : Q) : state :=
  {| recent_segments := []; processed := ∅; sequence := 0;
     last_output_path := None; last_source_time := now |}.

(** What the world answers for one URI: the result of
    [wait_for_segment], and the clock once the copy is done. *)
Record uri_world : Type := UriWorld {
  stable : bool;
  copied_at : Q;
}.

Definition outgoing_manifest : path := Div (output_dir args) "index.m3u8".

(** The body of [for uri in segments]. *)
Definition deliver (w : string -> uri_world) (acc : state * list effect) (u : string)
    : state * list effect :=
  let '(st, effs) := acc in
  if decide (u ∈ processed st) then (st, effs)
  else if negb (stable (w u)) then
    ({| recent_segments := recent_segments st; processed := {[u]} ∪ processed st;
        sequence := sequence st; last_output_path := last_output_path st;
        last_source_time := last_source_time st |}, effs)
  else
    let dst_name := segment_name (sequence st) in
    let dst_path := Div (output_dir args) dst_name in
    let recent := deque_append (keep_segments args) (recent_segments st)
                    {| uri := dst_name; duration := segment_duration args;
                       discontinuity := false |} in
    ({| recent_segments := recent; processed := {[u]} ∪ processed st;
        sequence := S (sequence st); last_output_path := Some dst_path;
        last_source_time := copied_at (w u) |},
     effs ++ [Copy (Div (source_parent args) u) dst_path;
              WriteText outgoing_manifest (build_manifest recent)]).

(** The test that guards the gap filler, at clock reading [now]. *)
Definition gap_due (st : state) (now : Q) : bool :=
  negb (Qle_bool (gap_timeout args) 0)
  && bool_decide (is_Some (last_output_path st))
  && negb (bool_decide (recent_segments st = []))
  && Qle_bool (gap_timeout args) (now - last_source_time st).

(** The gap filler: [if (...)] and its body.  [now] is the clock in the
    test, [after] the clock once the duplicate is written. *)
Definition gap_fill (st : state) (now after : Q) : state * list effect :=
  if gap_due st now then
    match last_output_path st with
    | Some last =>
        let dst_name := segment_name (sequence st) in
        let dst_path := Div (output_dir args) dst_name in
        let recent := deque_append (keep_segments args) (recent_segments st)
                        {| uri := dst_name; duration := segment_duration args;
                           discontinuity := true |} in
        ({| recent_segments := recent; processed := processed st;
            sequence := S (sequence st); last_output_path := last_output_path st;
            last_source_time := after |},
         [Copy last dst_path; WriteText outgoing_manifest (build_manifest recent)])
    | None => (st, [])
    end
  else (st, []).

(** What the world answers during one turn of [while True]. *)
Record poll_world : Type := PollWorld {
  manifest : option (list string);
  segment : string -> uri_world;
  gap_clock : Q;
  dup_clock : Q;
}.

(** One turn of the loop of [repack]. *)
Definition poll (st : state) (w : poll_world) : state * list effect :=
  match parse_manifest (manifest w) with
  | [] => (st, [Sleep (poll_interval args)])
  | segments =>
      let '(st1, effs1) := foldl (deliver (segment w)) (st, []) segments in
      let '(st2, effs2) := gap_fill st1 (gap_clock w) (dup_clock w) in
      (st2, effs1 ++ effs2 ++ [Sleep (poll_interval args)])
  end.

(** The loop over a finite prefix of the world's answers. *)
Fixpoint repack (st : state) (ws : list poll_world) : state * list effect :=
  match ws with
  | [] => (st, [])
  | w :: ws =>
      let '(st1, effs1) := poll st w in
      let '(st2, effs2) := repack st1 ws in
      (st2, effs1 ++ effs2)
  end.

(** The window holds as many entries as were produced, up to
    [keep_segments]; the last output path, once there is one, is a segment
    produced earlier under its sequential name. *)
Definition window_inv (st : state) : Prop :=
  length (recent_segments st) = Nat.min (sequence st) (keep_segments args)
  /\ (forall p, last_output_path st = Some p ->
        exists k, (k < sequence st)%nat /\ p = Div (output_dir args) (segment_name k)).

(** States that [repack] can be in between two turns of its loop. *)
Definition reachable (st : state) : Prop :=
  exists now ws effs, repack (initial now) ws = (st, effs).

End Repack.

(** [format(x, ".3f")] on the exact value of a finite float: the sign of
    a negative value, then its magnitude in thousandths, rounded to the
    nearest, a tie to the even one. *)
Definition round_half_even (x : Q) : Z :=
  let f := Qfloor x in
  match Qcompare (x - inject_Z f) (1 # 2) with
  | Lt => f
  | Gt => (f + 1)%Z
  | Eq => if Z.even f then f else (f + 1)%Z
  end.

Definition fmt_thousandths (x : Q) : string :=
  let n := Z.to_nat (round_half_even ((if Qle_bool 0 x then x else - x) * 1000)) in
  let frac := DecimalString.NilZero.string_of_uint (Nat.to_uint (n mod 1000)) in
  (if Qle_bool 0 x then "" else "-")
  +:+ DecimalString.NilZero.string_of_uint (Nat.to_uint (n / 1000)) +:+ "."
  +:+ String.concat EmptyString (repeat "0"%string (3 - String.length frac)) +:+ frac.

(** The scenario of the specification: a window of three segments, a gap
    timeout of 20 seconds; five upstream segments are delivered at clock
    reading 100, and nothing new has arrived at clock reading 125. *)
Definition example_args : arguments :=
  {| source_parent := Root "incoming"; output_dir := Root "outgoing";
     poll_interval := 1 # 2; segment_timeout := 15; segment_duration := 4;
     keep_segments := 3; gap_timeout := 20 |}.

Definition upstream_lines : list string :=
  ["#EXTM3U"; "#EXTINF:4.0,"; "a.ts"; "#EXTINF:4.0,"; "b.ts"; "#EXTINF:4.0,"; "c.ts";
   "#EXTINF:4.0,"; "d.ts"; "#EXTINF:4.0,"; "e.ts"]%string.

Definition first_poll : poll_world :=
  {| manifest := Some upstream_lines; segment := fun _ => UriWorld true 100;
     gap_clock := 101; dup_clock := 101 |}.

Definition gap_poll : poll_world :=
  {| manifest := Some upstream_lines; segment := fun _ => UriWorld true 125;
     gap_clock := 125; dup_clock := 126 |}.

(** The same gap, but the upstream manifest is gone when it is polled. *)
Definition gap_poll_no_manifest : poll_world :=
  {| manifest := None; segment := fun _ => UriWorld true 125;
     gap_clock := 125; dup_clock := 126 |}.

(** The same gap, but the upstream manifest lists no segment when it is
    polled: it is being rewritten, and only its header is there. *)
Definition gap_poll_empty_manifest : poll_world :=
  {| manifest := Some ["#EXTM3U"; "#EXT-X-VERSION:3"; ""]%string;
     segment := fun _ => UriWorld true 125;
     gap_clock := 125; dup_clock := 126 |}.

Definition delivered_five : state :=
  fst (repack fmt_thousandths example_args (initial 0) [first_poll]).

(** What one turn of the loop of [wait_for_segment] sees: the clock in the
    [while] test and, if the file exists, its size. *)
Record probe : Type := Probe {
  probed_at : Q;
  st_size : option Z;
}.

(** The loop of [wait_for_segment] over the probes the world grants it;
    [None] is a loop that has not decided within them. *)
Fixpoint wait_loop (deadline : Q) (last_size : Z) (stable : nat) (probes : list probe)
    : option bool :=
  match probes with
  | [] => None
  | p :: probes =>
      if Qle_bool deadline (probed_at p) then Some false
      else
        match st_size p with
        | Some size =>
            if (0 <? size)%Z then
              if (size =? last_size)%Z then
                let stable := S stable in
                if (2 <=? stable)%nat then Some true
                else wait_loop deadline last_size stable probes
              else wait_loop deadline size 0 probes
            else wait_loop deadline last_size stable probes
        | None => wait_loop deadline last_size stable probes
        end
  end.

(** [wait_for_segment], called at clock reading [now]. *)
Definition wait_for_segment (now timeout : Q) (probes : list probe) : option bool :=
  wait_loop (now + timeout) (-1) 0 probes.

(** The probes that count for a size: taken before the deadline, with the
    file at that size. *)
Definition seen_at_size (deadline : Q) (size : Z) (probes : list probe) : list probe :=
  List.filter
    (fun p => negb (Qle_bool deadline (probed_at p)) && bool_decide (st_size p = Some size))
    probes.

(** The files that a run copied, and where to. *)
Definition copy_destinations (effs : list effect) : list path :=
  omap (fun e => match e with Copy _ dst => Some dst | _ => None end) effs.

Definition copy_sources (effs : list effect) : list path :=
  omap (fun e => match e with Copy src _ => Some src | _ => None end) effs.

(** A segment that grows while it is written, then rests. *)
Definition settling : list probe :=
  [Probe 0 None; Probe (1 # 2) (Some 1000%Z); Probe 1 (Some 4000%Z);
   Probe (3 # 2) (Some 4000%Z); Probe 2 None; Probe (5 # 2) (Some 4000%Z)].

#[global] Instance path_eq_dec : EqDecision path.
Proof. solve_decision. Defined.

(** The upstream URIs whose segment a run copied. *)
Definition delivered (args : arguments) (effs : list effect) : list string :=
  omap (fun e => match e with
                 | Copy (Div p u) _ => if decide (p = source_parent args) then Some u else None
                 | _ => None
                 end) effs.

(** The name under which the [k]-th output segment is written. *)
Definition output_path (args : arguments) (k : nat) : path :=
  Div (output_dir args) (segment_name k).

(** A run with the gap filler switched off. *)
Definition no_gap_args : arguments :=
  {| source_parent := Root "incoming"; output_dir := Root "outgoing";
     poll_interval := 1 # 2; segment_timeout := 15; segment_duration := 4;
     keep_segments := 3; gap_timeout := 0 |}.

(** Effects among which every copy duplicates the file [last]. *)
Definition only_duplicates (last : path) (effs : list effect) : Prop :=
  Forall (fun e => match e with Copy src _ => src = last | _ => True end) effs.

(** The last output path is where the last upstream segment was copied
    to: since that copy, every copy has duplicated it. *)
Definition last_delivered (args : arguments) (st : state) (effs : list effect) : Prop :=
  match last_output_path st with
  | Some last =>
      exists effs1 u effs2,
        effs = effs1 ++ Copy (Div (source_parent args) u) last :: effs2
        /\ only_duplicates last effs2
  | None => True
  end.

(** The window and the copies made so far, by their numbers: the window
    holds the newest names, as many as were produced up to
    [keep_segments]; the copies went to the names 0, 1, ... in order. *)
Definition numbered (args : arguments) (st : state) (effs : list effect) : Prop :=
  length (recent_segments st) = Nat.min (sequence st) (keep_segments args)
  /\ uri <$> recent_segments st
     = segment_name <$> seq (sequence st - length (recent_segments st))
                            (length (recent_segments st))
  /\ copy_destinations effs = output_path args <$> seq 0 (sequence st).

End HlsRepacker.

(** ** scripts/fifo_switch.py *)

Module FifoSwitch.
Local Open Scope Z_scope.

(** [os.O_NONBLOCK] (its Linux value). *)
Definition O_NONBLOCK : Z := 2048.

Definition nonblocking (flags : Z) : bool := negb (Z.land flags O_NONBLOCK =? 0).

Inductive proc : Type := Placeholder | Live.
Inductive signal : Type := SIGTERM | SIGKILL.

(** What the script does to the outside world, in order, together with
    what the world answered.  A live read carries the status flags the
    descriptor had when the read was issued; [None] is a read that found
    nothing ready ([BlockingIOError], or [None] from the raw pipe).
    [OpenFifo] and [WriteFifo] carry whether the call succeeded. *)
Inductive event : Type :=
| Launch (p : proc)
| SetFlags (flags : Z)
| OpenFifo (ok : bool)
| Poll (p : proc) (exit : option Z)
| ReadLive (flags : Z) (got : option (list Z))
| ReadPlaceholder (got : list Z)
| Sleep (seconds : Q)
| Log (msg : string)
| Killpg (p : proc) (s : signal) (found : bool)
| Wait (p : proc) (timed_out : bool)
| CloseStdout (p : proc)
| WriteFifo (chunk : list Z) (ok : bool)
| CloseFifo.

(** The world's answers to one call of [_terminate]: the exit code seen
    by [poll()], whether the process group still exists for each signal,
    and whether [wait(timeout=2)] times out. *)
Record term_world : Type := TermWorld {
  exit_code : option Z;
  term_found : bool;
  wait_timeout : bool;
  kill_found : bool;
}.

(** [_terminate(proc, name)] *)
Definition _terminate (p : proc) (w : term_world) : list event :=
  let wait :=
    if wait_timeout w then [Wait p true; Killpg p SIGKILL (kill_found w)]
    else [Wait p false] in
  match exit_code w with
  | None =>
      if term_found w then [Poll p None; Killpg p SIGTERM true] ++ wait
      else [Poll p None; Killpg p SIGTERM false]
  | Some c => [Poll p (Some c)] ++ wait
  end.

(** The world's answers during one turn of [while not live_started].
    [sleep_raised] is what [time.sleep] raises when the turn calls it with
    a duration that is not negative: nothing, unless the duration is more
    than its clock can hold ([OverflowError] or [OSError], from some 290
    years on). *)
Record pre_turn : Type := PreTurn {
  live_exit : option Z;
  live_read : option (list Z);
  sleep_raised : option exn;
  ph_read : list Z;
  ph_exit : option Z;
  clock_check : Q;
  clock_reset : Q;
  write_ok : bool;
  handover : term_world;
}.

(** The world's answers during one turn of the second loop. *)
Record post_turn : Type := PostTurn {
  post_read : option (list Z);
  post_exit : option Z;
  post_write_ok : bool;
}.

Inductive outcome : Type :=
| Continue          (* the loop ended, go on with the next statement *)
| Unfinished        (* the world's answers ran out: still looping *)
| Broken            (* BrokenPipeError from os.write *)
| Error (e : exn).

Definition truthy (c : option (list Z)) : bool :=
  match c with
  | Some (_ :: _) => true
  | _ => false
  end.

Section Main.
(** [args.switch_grace], a finite float, and the status flags of the live
    pipe as [F_GETFL] returned them. *)
Variable switch_grace : Q.
Variable original_flags : Z.

(** [time.sleep(seconds)]: a negative duration raises [ValueError];
    another one sleeps, unless the world has it raise. *)
Definition time_sleep (seconds : Q) (raised : option exn) : option exn :=
  match raised with
  | Some e => Some e
  | None => if Qle_bool 0 seconds then None else Some (OtherError "ValueError")
  end.

(** The body of [if live_chunk:], up to the [break].  [time.sleep] is
    called for every grace other than zero; when it raises, nothing else
    of the body is done. *)
Definition switch_over (chunk : list Z) (t : pre_turn) : list event * outcome :=
  let over :=
    [Log "[fifo-switch] live data detected, switching over"; SetFlags original_flags]
    ++ _terminate Placeholder (handover t)
    ++ [CloseStdout Placeholder; WriteFifo chunk (write_ok t)] in
  let r := if write_ok t then Continue else Broken in
  if Qeq_bool switch_grace 0 then (over, r)
  else
    match time_sleep switch_grace (sleep_raised t) with
    | Some e => ([], Error e)
    | None => (Sleep switch_grace :: over, r)
    end.

(** [while not live_started:], with [last] the value of
    [last_placeholder_activity]. *)
Fixpoint pre_loop (last : Q) (turns : list pre_turn) : list event * outcome :=
  match turns with
  | [] => ([], Unfinished)
  | t :: turns =>
      match live_exit t with
      | Some c =>
          ([Poll Live (Some c)],
           Error (RuntimeError "live process exited before producing data"))
      | None =>
          let reading := [Poll Live None;
                          ReadLive (Z.lor original_flags O_NONBLOCK) (live_read t)] in
          match live_read t with
          | Some (b :: chunk) =>
              let '(evs, r) := switch_over (b :: chunk) t in (reading ++ evs, r)
          | _ =>
              match ph_read t with
              | b :: chunk =>
                  if write_ok t then
                    let '(evs, r) := pre_loop (clock_check t) turns in
                    (reading ++ [ReadPlaceholder (b :: chunk); WriteFifo (b :: chunk) true]
                       ++ evs, r)
                  else
                    (reading ++ [ReadPlaceholder (b :: chunk); WriteFifo (b :: chunk) false],
                     Broken)
              | [] =>
                  match ph_exit t with
                  | Some c =>
                      (reading ++ [ReadPlaceholder []; Poll Placeholder (Some c)],
                       Error (RuntimeError "placeholder process exited unexpectedly"))
                  | None =>
                      if Qlt_le_dec 5 (clock_check t - last)%Q then
                        let '(evs, r) := pre_loop (clock_reset t) turns in
                        (reading ++ [ReadPlaceholder []; Poll Placeholder None;
                                     Log "[fifo-switch] waiting for placeholder data..."]
                           ++ evs, r)
                      else
                        let '(evs, r) := pre_loop last turns in
                        (reading ++ [ReadPlaceholder []; Poll Placeholder None] ++ evs, r)
                  end
              end
          end
      end
  end.

(** The second [while True:], entered with the live descriptor's flags
    restored. *)
Fixpoint post_loop (turns : list post_turn) : list event * outcome :=
  match turns with
  | [] => ([], Unfinished)
  | t :: turns =>
      match post_read t with
      | Some (b :: chunk) =>
          if post_write_ok t then
            let '(evs, r) := post_loop turns in
            (ReadLive original_flags (post_read t) :: WriteFifo (b :: chunk) true :: evs, r)
          else
            ([ReadLive original_flags (post_read t); WriteFifo (b :: chunk) false], Broken)
      | _ =>
          match post_exit t with
          | Some c => ([ReadLive original_flags (post_read t); Poll Live (Some c)], Continue)
          | None =>
              let '(evs, r) := post_loop turns in
              (ReadLive original_flags (post_read t) :: Poll Live None :: evs, r)
          end
      end
  end.

(** Everything the world answers to one run of [main].  [fifo_open] is
    the answer to [os.open(fifo_path, os.O_WRONLY)]: it returns a
    descriptor, raises an [OSError] (no such path, no permission), or has
    not returned yet ([None]: no reader has opened the FIFO). *)
Record script : Type := Script {
  fifo_open : option bool;
  start_clock : Q;
  pre : list pre_turn;
  post : list post_turn;
  final_placeholder : term_world;
  final_live : term_world;
}.

(** How [main] ends: it returns, an exception leaves it, or it is
    still running when the answers run out. *)
Inductive ending : Type :=
| Returned
| Uncaught (e : exn)
| Running.

(** [main] up to its [try:]. *)
Definition startup : list event :=
  [Log "[fifo-switch] starting placeholder"; Launch Placeholder;
   Log "[fifo-switch] starting live chain"; Launch Live;
   SetFlags (Z.lor original_flags O_NONBLOCK)].

(** [main] up to its first loop, the FIFO opened. *)
Definition prologue : list event := startup ++ [OpenFifo true].

(** The [finally:] clause; [fifo_fd] is not [None] once [os.open] has
    returned. *)
Definition cleanup (s : script) : list event :=
  _terminate Placeholder (final_placeholder s) ++ _terminate Live (final_live s)
  ++ (if bool_decide (fifo_open s = Some true) then [CloseFifo] else []).

Definition main (s : script) : list event * ending :=
  match fifo_open s with
  | None => (startup, Running)
  | Some false => (startup ++ [OpenFifo false] ++ cleanup s, Uncaught (OtherError "OSError"))
  | Some true =>
      let '(evs1, r1) := pre_loop (start_clock s) (pre s) in
      let '(evs2, r2) :=
        match r1 with
        | Continue => post_loop (post s)
        | r => ([], r)
        end in
      let body := prologue ++ evs1 ++ evs2 in
      match r2 with
      | Continue => (body ++ cleanup s, Returned)
      | Broken => (body ++ [Log "[fifo-switch] FIFO reader closed, stopping"] ++ cleanup s,
                   Returned)
      | Error e => (body ++ cleanup s, Uncaught e)
      | Unfinished => (body, Running)
      end
  end.

End Main.

(** Events in which a live read handed over a non-empty chunk. *)
Definition is_live_data (e : event) : bool :=
  match e with
  | ReadLive _ got => truthy got
  | _ => false
  end.

Definition is_live_read (e : event) : bool :=
  match e with
  | ReadLive _ _ => true
  | _ => false
  end.

(** A live read that polls: issued on a descriptor with [O_NONBLOCK] set. *)
Definition polls (e : event) : bool :=
  match e with
  | ReadLive flags _ => nonblocking flags
  | _ => true
  end.


(** Every non-empty placeholder chunk read is written to the FIFO next. *)
Fixpoint relays (evs : list event) : bool :=
  match evs with
  | ReadPlaceholder (b :: chunk) :: rest =>
      match rest with
      | WriteFifo chunk' _ :: _ => bool_decide (chunk' = b :: chunk) && relays rest
      | _ => false
      end
  | _ :: rest => relays rest
  | [] => true
  end.

(** Before the handover: no live read hands over data, and every live
    read polls. *)
Definition quiet (e : event) : Prop := is_live_data e = false /\ polls e = true.

(** What the first loop does in a turn in which the live side has not
    exited and its read, issued with [O_NONBLOCK] set, finds nothing, and
    after which the loop goes on: the placeholder is read; a chunk is
    written to the FIFO at once; without a chunk the placeholder is found
    still running, and the wait is logged at most. *)
Definition relay_turn (original_flags : Z) (t : pre_turn) (evs : list event) : Prop :=
  live_exit t = None /\ truthy (live_read t) = false /\
  let polled := [Poll Live None;
                 ReadLive (Z.lor original_flags O_NONBLOCK) (live_read t);
                 ReadPlaceholder (ph_read t)] in
  match ph_read t with
  | _ :: _ => write_ok t = true /\ evs = polled ++ [WriteFifo (ph_read t) true]
  | [] =>
      ph_exit t = None
      /\ (evs = polled ++ [Poll Placeholder None]
          \/ evs = polled ++ [Poll Placeholder None;
                              Log "[fifo-switch] waiting for placeholder data..."])
  end.

(** A turn that ends the first loop before any live data: the live side
    has exited; or the placeholder chunk cannot be written; or the
    placeholder has exited. *)
Definition stopping_turn (original_flags : Z) (t : pre_turn) (evs : list event)
    (r : outcome) : Prop :=
  match live_exit t with
  | Some c =>
      evs = [Poll Live (Some c)]
      /\ r = Error (RuntimeError "live process exited before producing data")
  | None =>
      truthy (live_read t) = false /\
      let polled := [Poll Live None;
                     ReadLive (Z.lor original_flags O_NONBLOCK) (live_read t);
                     ReadPlaceholder (ph_read t)] in
      match ph_read t, ph_exit t with
      | _ :: _, _ =>
          write_ok t = false /\ evs = polled ++ [WriteFifo (ph_read t) false] /\ r = Broken
      | [], Some c =>
          evs = polled ++ [Poll Placeholder (Some c)]
          /\ r = Error (RuntimeError "placeholder process exited unexpectedly")
      | [], None => False
      end
  end.

(** The events of one call of [_terminate], by the world's answers: a
    process that has not exited gets SIGTERM; unless its group is gone by
    then, it is waited for, and SIGKILL follows a wait that timed out. *)
Definition terminated (p : proc) (w : term_world) (evs : list event) : Prop :=
  let forced :=
    if wait_timeout w then [Wait p true; Killpg p SIGKILL (kill_found w)]
    else [Wait p false] in
  match exit_code w, term_found w with
  | None, true => evs = Poll p None :: Killpg p SIGTERM true :: forced
  | None, false => evs = [Poll p None; Killpg p SIGTERM false]
  | Some c, _ => evs = Poll p (Some c) :: forced
  end.

(** After the handover: a live read is issued with the flags the
    descriptor had before [O_NONBLOCK] was added. *)
Definition restored (original_flags : Z) (e : event) : Prop :=
  match e with
  | ReadLive flags _ => flags = original_flags
  | _ => True
  end.

(** The two ways [wait(timeout=2)] ends: the process is gone in time, or
    the timeout expires and the process group gets SIGKILL. *)
Definition waited (p : proc) (evs : list event) : Prop :=
  evs = [Wait p false] \/ exists found, evs = [Wait p true; Killpg p SIGKILL found].

(** A graceful, then forced termination: SIGTERM goes to a process that
    still runs, and SIGKILL only follows a wait that timed out. *)
Definition graceful_then_forced (p : proc) (evs : list event) : Prop :=
  evs = [Poll p None; Killpg p SIGTERM false]
  \/ (exists w, evs = Poll p None :: Killpg p SIGTERM true :: w /\ waited p w)
  \/ (exists c w, evs = Poll p (Some c) :: w /\ waited p w).

(** A run for the examples: the placeholder feeds two chunks while the live
    side has nothing, then the live side delivers; the placeholder needs
    SIGKILL; two more live chunks follow and the live chain exits. *)
Definition calm : term_world :=
  {| exit_code := None; term_found := true; wait_timeout := false; kill_found := true |}.

Definition stubborn : term_world :=
  {| exit_code := None; term_found := true; wait_timeout := true; kill_found := true |}.

Definition placeholder_turn (chunk : list Z) : pre_turn :=
  {| live_exit := None; live_read := None; sleep_raised := None; ph_read := chunk; ph_exit := None;
     clock_check := 1; clock_reset := 1; write_ok := true; handover := calm |}.

Definition live_turn (chunk : list Z) : pre_turn :=
  {| live_exit := None; live_read := Some chunk; sleep_raised := None; ph_read := [0x50]; ph_exit := None;
     clock_check := 2; clock_reset := 2; write_ok := true; handover := stubborn |}.

Definition example_script : script :=
  {| fifo_open := Some true; start_clock := 0;
     pre := [placeholder_turn [0x47; 1]; placeholder_turn [0x47; 2]; live_turn [0x47; 3]];
     post := [PostTurn (Some [0x47; 4]) None true; PostTurn (Some []) (Some 0) true];
     final_placeholder := {| exit_code := Some (-9); term_found := false;
                             wait_timeout := false; kill_found := false |};
     final_live := {| exit_code := Some 0; term_found := false;
                      wait_timeout := false; kill_found := false |} |}.

(** The non-empty chunks that a run read, from either process, and the
    chunks it tried to write to the FIFO, in order. *)
Definition chunks_read (evs : list event) : list (list Z) :=
  omap (fun e => match e with
                 | ReadPlaceholder (b :: chunk) => Some (b :: chunk)
                 | ReadLive _ (Some (b :: chunk)) => Some (b :: chunk)
                 | _ => None
                 end) evs.

Definition chunks_written (evs : list event) : list (list Z) :=
  omap (fun e => match e with WriteFifo chunk _ => Some chunk | _ => None end) evs.

(** Events in which a write to the FIFO raised [BrokenPipeError]. *)
Definition is_failed_write (e : event) : bool :=
  match e with
  | WriteFifo _ false => true
  | _ => false
  end.

(** A run in which the FIFO's reader goes away while the placeholder is
    relayed. *)
Definition reader_gone_script : script :=
  {| fifo_open := Some true; start_clock := 0;
     pre := [placeholder_turn [0x47; 1];
             {| live_exit := None; live_read := None; sleep_raised := None; ph_read := [0x47; 2]; ph_exit := None;
                clock_check := 1; clock_reset := 1; write_ok := false; handover := calm |};
             live_turn [0x47; 3]];
     post := [];
     final_placeholder := calm; final_live := calm |}.


(** A run in which the FIFO cannot be opened. *)
Definition no_fifo_script : script :=
  {| fifo_open := Some false; start_clock := 0;
     pre := [placeholder_turn [0x47; 1]]; post := [];
     final_placeholder := calm; final_live := calm |}.


(** An event that is neither a failed write nor the closing of the FIFO. *)
Definition sound (e : event) : Prop := is_failed_write e = false /\ e <> CloseFifo.

End FifoSwitch.


(** * Properties

    From here on: lemmas about the definitions above, and the properties
    of the specification, each under the number of its claim. *)

#[local] Set Warnings "-clear-no-such-hyp".

(** ** Facts about the Python primitives *)

Section PyFacts.
Context {R A : Type}.
Implicit Types (l v : list A) (i : Z).

Lemma getitem_nonneg l i :
  (0 <= i)%Z ->
  getitem (R:=R) l i = match l !! Z.to_nat i with Some x => Next x | None => Raise IndexError end.
Proof.
  intros Hi. unfold getitem.
  destruct (Z.ltb_spec i 0); [lia|].
  destruct (Z.ltb_spec i 0); [lia|]. reflexivity.
Qed.

Lemma getitem_Next l i x :
  (0 <= i)%Z -> getitem (R:=R) l i = Next x -> l !! Z.to_nat i = Some x.
Proof.
  intros Hi. rewrite getitem_nonneg by done.
  destruct (l !! Z.to_nat i); congruence.
Qed.

Lemma getitem_in_range l i :
  (0 <= i < Z.of_nat (length l))%Z -> exists x, getitem (R:=R) l i = Next x.
Proof.
  intros Hi. rewrite getitem_nonneg by lia.
  destruct (lookup_lt_is_Some_2 l (Z.to_nat i)) as [x Hx]; [lia|].
  rewrite Hx. eauto.
Qed.

Lemma length_set_slice l v (a b : Z) :
  (0 <= a)%Z -> b = (a + Z.of_nat (length v))%Z -> (b <= Z.of_nat (length l))%Z ->
  length (set_slice l a b v) = length l.
Proof.
  intros Ha -> Hb. unfold set_slice.
  rewrite !length_app, length_take, length_drop. lia.
Qed.

Lemma slice_set_slice l v (a b : Z) :
  (0 <= a)%Z -> b = (a + Z.of_nat (length v))%Z -> (a <= Z.of_nat (length l))%Z ->
  slice (set_slice l a b v) a b = v.
Proof.
  intros Ha -> Hb. unfold slice, set_slice.
  replace (Z.to_nat (a + Z.of_nat (length v) - a)) with (length v) by lia.
  rewrite drop_app_length'; [|rewrite length_take; lia].
  by rewrite take_app_length.
Qed.

Lemma lookup_set_slice l v (a b : Z) (k : nat) :
  (0 <= a)%Z -> b = (a + Z.of_nat (length v))%Z -> (b <= Z.of_nat (length l))%Z ->
  ~ (a <= Z.of_nat k < b)%Z ->
  set_slice l a b v !! k = l !! k.
Proof.
  intros Ha -> Hb Hk. unfold set_slice.
  destruct (decide (k < Z.to_nat a)%nat).
  - rewrite lookup_app_l by (rewrite length_take; lia).
    by rewrite lookup_take_lt.
  - rewrite lookup_app_r by (rewrite length_take; lia).
    rewrite length_take, lookup_app_r by lia.
    rewrite lookup_drop. f_equal. lia.
Qed.

Lemma slice_ext l l' (a b : Z) :
  (0 <= a)%Z ->
  (forall k : nat, (a <= Z.of_nat k < b)%Z -> l' !! k = l !! k) ->
  slice l' a b = slice l a b.
Proof.
  intros Ha H. unfold slice.
  apply list_eq. intros k.
  destruct (decide (k < Z.to_nat (b - a))%nat).
  - rewrite !lookup_take_lt, !lookup_drop by done. apply H. lia.
  - rewrite !lookup_take_ge by lia. done.
Qed.

End PyFacts.

(** * The continuity splicer *)

Section Timestamps.
Import TsJoiner.
Local Open Scope Z_scope.

Lemma byte_land b : 0 <= b < 256 -> Z.land b (Z.ones 8) = b.
Proof. intros H. rewrite Z.land_ones by lia. apply Z.mod_small. change (2 ^ 8) with 256. lia. Qed.

(** A property of bytes that holds on each of the 256 holds on all. *)
Lemma all_below (n : Z) (P : Z -> Prop) `{!forall b, Decision (P b)} :
  bool_decide (Forall P (seqZ 0 n)) = true -> forall b, 0 <= b < n -> P b.
Proof.
  intros Hall b Hb. apply bool_decide_eq_true_1 in Hall.
  rewrite Forall_forall in Hall. apply Hall. apply elem_of_seqZ. lia.
Qed.

Lemma land_ones_bound x n : 0 <= n -> 0 <= Z.land x (Z.ones n) < 2 ^ n.
Proof. intros Hn. rewrite Z.land_ones by done. apply Z.mod_pos_bound. lia. Qed.

Lemma land_ones_8_byte x : 0 <= Z.land x (Z.ones 8) < 256.
Proof. apply (land_ones_bound x 8). lia. Qed.

Lemma pack_field_30 a b c d e :
  Z.land (Z.shiftr (Z.land (pack a b c d e) (Z.ones 33)) 30) (Z.ones 3) = Z.land a (Z.ones 3).
Proof. unfold pack. Z.bitblast. Qed.

Lemma pack_field_22 a b c d e :
  Z.land (Z.shiftr (Z.land (pack a b c d e) (Z.ones 33)) 22) (Z.ones 8) = Z.land b (Z.ones 8).
Proof. unfold pack. Z.bitblast. Qed.

Lemma pack_field_15 a b c d e :
  Z.land (Z.shiftr (Z.land (pack a b c d e) (Z.ones 33)) 15) (Z.ones 7) = Z.land c (Z.ones 7).
Proof. unfold pack. Z.bitblast. Qed.

Lemma pack_field_7 a b c d e :
  Z.land (Z.shiftr (Z.land (pack a b c d e) (Z.ones 33)) 7) (Z.ones 8) = Z.land d (Z.ones 8).
Proof. unfold pack. Z.bitblast. Qed.

Lemma pack_field_0 a b c d e :
  Z.land (Z.land (pack a b c d e) (Z.ones 33)) (Z.ones 7) = Z.land e (Z.ones 7).
Proof. unfold pack. Z.bitblast. Qed.

Lemma pack_33 a b c d e : Z.land (pack a b c d e) (Z.ones 33) = pack a b c d e.
Proof. unfold pack. Z.bitblast. Qed.

Lemma pack_fields p :
  pack (Z.shiftr p 30) (Z.shiftr p 22) (Z.shiftr p 15) (Z.shiftr p 7) p = Z.land p (Z.ones 33).
Proof. unfold pack. Z.bitblast. Qed.

Lemma pack_range a b c d e : 0 <= pack a b c d e < 2 ^ 33.
Proof. rewrite <- pack_33. apply land_ones_bound. lia. Qed.

Lemma pack_land a b c d e :
  pack (Z.land a (Z.ones 3)) (Z.land b (Z.ones 8)) (Z.land c (Z.ones 7))
       (Z.land d (Z.ones 8)) (Z.land e (Z.ones 7)) = pack a b c d e.
Proof. unfold pack. by rewrite <- !Z.land_assoc, !Z.land_diag. Qed.

Lemma land_PTS_MASK x : Z.land x PTS_MASK = x mod 2 ^ 33.
Proof. change PTS_MASK with (Z.ones 33). by rewrite Z.land_ones. Qed.

(** [decode_pts] on five bytes reads the five bit fields. *)
Lemma decode_pts_pack b0 b1 b2 b3 b4 :
  0 <= b1 < 256 -> 0 <= b3 < 256 ->
  decode_pts [b0; b1; b2; b3; b4]
  = Ok (pack (Z.shiftr b0 1) b1 (Z.shiftr b2 1) b3 (Z.shiftr b4 1)).
Proof.
  intros H1 H3. unfold pack. rewrite (byte_land b1), (byte_land b3) by done.
  reflexivity.
Qed.

(** [encode_pts] writes the five bit fields of its argument, the prefix
    0b0010 and the three marker bits. *)
Lemma encode_pts_pack a b c d e :
  encode_pts (pack a b c d e)
  = [Z.lor (Z.shiftl (Z.lor 32 (Z.land a 7)) 1) 1;
     Z.land b 255;
     Z.land (Z.lor (Z.shiftl (Z.land c 127) 1) 1) 255;
     Z.land d 255;
     Z.land (Z.lor (Z.shiftl (Z.land e 127) 1) 1) 255].
Proof.
  unfold encode_pts. cbv zeta.
  change (Z.shiftl 1 33 - 1) with (Z.ones 33).
  change (Z.land ?x 7) with (Z.land x (Z.ones 3)).
  change (Z.land ?x 127) with (Z.land x (Z.ones 7)).
  change (Z.land ?x 255) with (Z.land x (Z.ones 8)).
  by rewrite pack_field_30, pack_field_22, pack_field_15, pack_field_7, pack_field_0.
Qed.

Lemma is_bytes_5 b0 b1 b2 b3 b4 :
  is_bytes [b0; b1; b2; b3; b4] <->
  0 <= b0 < 256 /\ 0 <= b1 < 256 /\ 0 <= b2 < 256 /\ 0 <= b3 < 256 /\ 0 <= b4 < 256.
Proof.
  unfold is_bytes. rewrite !Forall_cons, Forall_nil. tauto.
Qed.

Lemma encode_pts_bytes v : is_bytes (encode_pts v) /\ length (encode_pts v) = 5%nat.
Proof.
  split; [|done].
  unfold encode_pts. cbv zeta.
  change (Z.shiftl 1 33 - 1) with (Z.ones 33).
  change (Z.land ?x 7) with (Z.land x (Z.ones 3)).
  change (Z.land ?x 127) with (Z.land x (Z.ones 7)).
  change (Z.land ?x 255) with (Z.land x (Z.ones 8)).
  apply is_bytes_5.
  pose proof (fun x => land_ones_bound x 8 ltac:(lia)) as H8.
  pose proof (land_ones_bound (Z.shiftr (Z.land v (Z.ones 33)) 30) 3 ltac:(lia)) as H3.
  change (2 ^ 8) with 256 in H8. change (2 ^ 3) with 8 in H3.
  split; [|repeat split; apply H8].
  revert H3. generalize (Z.land (Z.shiftr (Z.land v (Z.ones 33)) 30) (Z.ones 3)).
  apply (all_below 8 (fun y => 0 <= Z.lor (Z.shiftl (Z.lor (Z.shiftl 2 4) y) 1) 1 < 256)).
  by vm_compute.
Qed.

Lemma encode_pts_mask v : encode_pts (Z.land v (Z.ones 33)) = encode_pts v.
Proof.
  unfold encode_pts. change (Z.shiftl 1 33 - 1) with (Z.ones 33).
  by rewrite <- Z.land_assoc, Z.land_diag.
Qed.

(** Decoding what was encoded gives the value back, modulo 2^33. *)
Lemma decode_encode_pts v : decode_pts (encode_pts v) = Ok (Z.land v PTS_MASK).
Proof.
  change PTS_MASK with (Z.ones 33).
  rewrite <- encode_pts_mask, <- (pack_fields v), encode_pts_pack.
  change (Z.land ?x 7) with (Z.land x (Z.ones 3)).
  change (Z.land ?x 127) with (Z.land x (Z.ones 7)).
  change (Z.land ?x 255) with (Z.land x (Z.ones 8)).
  rewrite decode_pts_pack by apply land_ones_8_byte.
  f_equal.
  etransitivity; [symmetry; apply pack_land|].
  etransitivity; [|apply pack_land].
  f_equal.
  - pose proof (land_ones_bound (Z.shiftr v 30) 3 ltac:(lia)) as H. revert H.
    generalize (Z.land (Z.shiftr v 30) (Z.ones 3)).
    apply (all_below 8 (fun y => Z.land (Z.shiftr (Z.lor (Z.shiftl (Z.lor 32 y) 1) 1) 1) (Z.ones 3) = y)).
    by vm_compute.
  - by rewrite <- Z.land_assoc, Z.land_diag.
  - pose proof (land_ones_bound (Z.shiftr v 15) 7 ltac:(lia)) as H. revert H.
    generalize (Z.land (Z.shiftr v 15) (Z.ones 7)).
    apply (all_below 128 (fun y =>
      Z.land (Z.shiftr (Z.land (Z.lor (Z.shiftl y 1) 1) (Z.ones 8)) 1) (Z.ones 7) = y)).
    by vm_compute.
  - by rewrite <- Z.land_assoc, Z.land_diag.
  - pose proof (land_ones_bound v 7 ltac:(lia)) as H. revert H.
    generalize (Z.land v (Z.ones 7)).
    apply (all_below 128 (fun y =>
      Z.land (Z.shiftr (Z.land (Z.lor (Z.shiftl y 1) 1) (Z.ones 8)) 1) (Z.ones 7) = y)).
    by vm_compute.
Qed.

(** Encoding what was decoded gives the field back with the marker bits
    set and the leading nibble overwritten. *)
Lemma encode_decode_pts b0 b1 b2 b3 b4 v :
  is_bytes [b0; b1; b2; b3; b4] ->
  decode_pts [b0; b1; b2; b3; b4] = Ok v ->
  encode_pts v = [Z.lor 65 (Z.land b0 14); b1; Z.lor b2 1; b3; Z.lor b4 1].
Proof.
  intros (H0 & H1 & H2 & H3 & H4)%is_bytes_5. rewrite decode_pts_pack by done.
  intros [= <-]. rewrite encode_pts_pack.
  f_equal; [|f_equal; [|f_equal; [|f_equal; [|f_equal]]]].
  - revert b0 H0. apply (all_below 256 (fun b =>
      Z.lor (Z.shiftl (Z.lor 32 (Z.land (Z.shiftr b 1) 7)) 1) 1 = Z.lor 65 (Z.land b 14))).
    by vm_compute.
  - by apply byte_land.
  - revert b2 H2. apply (all_below 256 (fun b =>
      Z.land (Z.lor (Z.shiftl (Z.land (Z.shiftr b 1) 127) 1) 1) 255 = Z.lor b 1)).
    by vm_compute.
  - by apply byte_land.
  - revert b4 H4. apply (all_below 256 (fun b =>
      Z.land (Z.lor (Z.shiftl (Z.land (Z.shiftr b 1) 127) 1) 1) 255 = Z.lor b 1)).
    by vm_compute.
Qed.

Lemma decode_pts_range b v : is_bytes b -> decode_pts b = Ok v -> 0 <= v < 2 ^ 33.
Proof.
  intros Hb Hd.
  destruct b as [|b0 [|b1 [|b2 [|b3 [|b4 b]]]]]; try discriminate.
  assert (decode_pts (b0 :: b1 :: b2 :: b3 :: b4 :: b) = decode_pts [b0; b1; b2; b3; b4]) as E
    by reflexivity.
  rewrite E in Hd. unfold is_bytes in Hb. rewrite !Forall_cons in Hb.
  rewrite decode_pts_pack in Hd by tauto.
  injection Hd as <-. apply pack_range.
Qed.

End Timestamps.

Section Extract.
Import TsJoiner.
Local Open Scope Z_scope.

Lemma bind_assoc {R A B C} (m : ctl R A) (f : A -> ctl R B) (g : B -> ctl R C) :
  bind (bind m f) g = bind m (fun x => bind (f x) g).
Proof. by destruct m. Qed.

Lemma getitem_not_Return {R A} (l : list A) i (r : R) : getitem l i <> Return r.
Proof. unfold getitem. repeat case_match; discriminate. Qed.

Lemma lift_not_Return {R A} (x : res A) (r : R) : lift x <> Return r.
Proof. by destruct x. Qed.

(** One statement of a function body whose result is known: a guard, a
    branch, an indexing of the bytes [Hb], or a call that may raise. *)
Ltac inv_step Hb H :=
  lazymatch type of H with
  | run (bind (bind _ _) _) = _ => rewrite bind_assoc in H
  | run (bind (Next _) _) = _ => cbn [bind] in H
  | run (bind (if ?c then _ else _) _) = _ =>
      destruct c eqn:?; cbn [bind run] in H; try discriminate H
  | run (if ?c then _ else _) = _ => destruct c eqn:?
  | run (bind (getitem ?l ?i) _) = _ =>
      let E := fresh "E" in
      destruct (getitem l i) eqn:E; cbn [bind run] in H;
      [ apply getitem_Next in E; [|lia];
        let Hr := fresh "Hr" in
        pose proof (Forall_lookup_1 _ _ _ _ Hb E) as Hr; cbv beta in Hr
      | by apply getitem_not_Return in E
      | discriminate H ]
  | run (bind (lift ?x) _) = _ =>
      let E := fresh "E" in
      destruct x eqn:E; cbn [lift bind run] in H; [|discriminate H]
  end.

Ltac bools :=
  repeat match goal with
  | H : negb _ = false |- _ => apply negb_false_iff in H
  | H : negb _ = true |- _ => apply negb_true_iff in H
  | H : _ || _ = false |- _ => apply orb_false_iff in H; destruct H
  | H : (_ =? _) = true |- _ => apply Z.eqb_eq in H
  | H : (_ =? _) = false |- _ => apply Z.eqb_neq in H
  | H : (_ <? _) = false |- _ => apply Z.ltb_ge in H
  | H : (_ <? _) = true |- _ => apply Z.ltb_lt in H
  | H : (_ <=? _) = false |- _ => apply Z.leb_gt in H
  | H : (_ <=? _) = true |- _ => apply Z.leb_le in H
  end.

(** What a successful [extract_pts] tells about the packet. *)
Lemma extract_pts_Some packet pts pos dts dts_pos :
  is_bytes packet ->
  extract_pts packet = Ok (Some (pts, pos, dts, dts_pos)) ->
  length packet = 188%nat /\
  13 <= pos /\
  decode_pts (slice packet pos (pos + 5)) = Ok pts /\
  match dts, dts_pos with
  | None, None => pos + 5 <= 188
  | Some d, Some dp =>
      dp = pos + 5 /\ pos + 10 <= 188 /\ decode_pts (slice packet dp (dp + 5)) = Ok d
  | _, _ => False
  end.
Proof.
  intros Hb H. unfold extract_pts, len, TS_PACKET_SIZE in H.
  repeat inv_step Hb H; bools; cbn [run] in H;
    injection H as <- <- <- <-; cbn beta in *;
    repeat split; first [done | lia].
Qed.

End Extract.

Section Splice.
Import TsJoiner.
Local Open Scope Z_scope.

Lemma encode_pts_length v : Z.of_nat (length (encode_pts v)) = 5.
Proof. reflexivity. Qed.

Lemma decode_encode_masked v :
  decode_pts (encode_pts (Z.land v PTS_MASK)) = Ok (v mod 2 ^ 33).
Proof.
  change PTS_MASK with (Z.ones 33). rewrite encode_pts_mask.
  by rewrite decode_encode_pts, land_PTS_MASK.
Qed.

(** The rewritten packet carries the shifted timestamps in the fields it
    was parsed from, and is the input everywhere else. *)
Lemma retimed_spec packet pts pos dts dts_pos off :
  is_bytes packet ->
  extract_pts packet = Ok (Some (pts, pos, dts, dts_pos)) ->
  let out := retimed packet pts pos dts dts_pos off in
  decode_pts (slice out pos (pos + 5)) = Ok ((pts + off) mod 2 ^ 33)
  /\ (forall d dp, dts = Some d -> dts_pos = Some dp ->
        decode_pts (slice out dp (dp + 5)) = Ok ((d + off) mod 2 ^ 33))
  /\ same_outside packet out pos dts_pos.
Proof.
  intros Hb (Hlen & Hpos & _ & Hdts)%extract_pts_Some; [|done].
  unfold retimed, same_outside.
  destruct dts as [d|], dts_pos as [dp|]; try done; cbv zeta.
  - destruct Hdts as (-> & Hend & _).
    set (p1 := set_slice packet pos (pos + 5) (encode_pts (Z.land (pts + off) PTS_MASK))).
    assert (length p1 = length packet) as Hl1
      by (apply length_set_slice; rewrite ?encode_pts_length; lia).
    split; [|split; [|split]].
    + rewrite (slice_ext p1); [|lia|].
      * subst p1. rewrite slice_set_slice by (rewrite ?encode_pts_length; lia).
        by rewrite decode_encode_masked.
      * intros k Hk. apply lookup_set_slice; rewrite ?encode_pts_length, ?Hl1; lia.
    + intros d' dp' [= <-] [= <-].
      rewrite slice_set_slice by (rewrite ?encode_pts_length, ?Hl1; lia).
      by rewrite decode_encode_masked.
    + rewrite length_set_slice by (rewrite ?encode_pts_length, ?Hl1; lia). done.
    + intros k Hk1 Hk2. specialize (Hk2 _ eq_refl).
      rewrite lookup_set_slice by (rewrite ?encode_pts_length, ?Hl1; lia).
      apply lookup_set_slice; rewrite ?encode_pts_length; lia.
  - split; [|split; [|split]].
    + rewrite slice_set_slice by (rewrite ?encode_pts_length; lia).
      by rewrite decode_encode_masked.
    + intros d' dp' [=].
    + apply length_set_slice; rewrite ?encode_pts_length; lia.
    + intros k Hk1 _. apply lookup_set_slice; rewrite ?encode_pts_length; lia.
Qed.

(** The first live timestamp: the offset is computed and applied. *)
Lemma live_packet_first st packet pts pos dts dts_pos :
  first_live_pts st = None ->
  extract_pts packet = Ok (Some (pts, pos, dts, dts_pos)) ->
  let last := default pts (placeholder_last_pts st) in
  let off := Z.land (last - pts) PTS_MASK in
  live_packet st packet
  = Ok ({| use_live := use_live st; placeholder_last_pts := Some last;
           first_live_pts := Some pts; pts_offset := Some off |},
        retimed packet pts pos dts dts_pos off).
Proof.
  intros Hf He. unfold live_packet, retimed. rewrite He, Hf. cbn [lift bind].
  destruct (placeholder_last_pts st), dts, dts_pos; reflexivity.
Qed.

(** Every later live timestamp: the stored offset is applied, the locals
    stay as they are. *)
Lemma live_packet_later st packet pts pos dts dts_pos f off :
  first_live_pts st = Some f ->
  pts_offset st = Some off ->
  extract_pts packet = Ok (Some (pts, pos, dts, dts_pos)) ->
  live_packet st packet = Ok (st, retimed packet pts pos dts dts_pos off).
Proof.
  intros Hf Ho He. unfold live_packet, retimed. rewrite He, Hf. cbn [lift bind].
  rewrite Ho. destruct dts, dts_pos; reflexivity.
Qed.

(** A packet in which [extract_pts] finds no timestamp leaves either branch
    of the loop as it came. *)
Lemma live_packet_unparsed st packet :
  extract_pts packet = Ok None -> live_packet st packet = Ok (st, packet).
Proof. intros He. unfold live_packet. by rewrite He. Qed.

Lemma placeholder_packet_unparsed st packet :
  extract_pts packet = Ok None -> placeholder_packet st packet = Ok (st, packet).
Proof. intros He. unfold placeholder_packet. by rewrite He. Qed.

Lemma extract_pts_wrong_length packet :
  length packet <> 188%nat -> extract_pts packet = Ok None.
Proof.
  intros H. unfold extract_pts, len, TS_PACKET_SIZE.
  destruct (Z.eqb_spec (Z.of_nat (length packet)) 188); [lia|]. reflexivity.
Qed.

Lemma extract_pts_wrong_sync b packet :
  b <> 0x47 -> extract_pts (b :: packet) = Ok None.
Proof.
  intros H. unfold extract_pts.
  destruct (negb (len (b :: packet) =? TS_PACKET_SIZE)); [done|].
  cbn [bind getitem]. simpl.
  destruct (Z.eqb_spec b 71); [done|]. reflexivity.
Qed.

(** ** Invariant of the loop *)

Lemma offset_inv_initial : offset_inv initial.
Proof. intros off [=]. Qed.

Lemma live_packet_inv st packet st' out :
  use_live st = true -> offset_inv st ->
  live_packet st packet = Ok (st', out) ->
  use_live st' = true /\ offset_inv st'
  /\ (forall off, pts_offset st = Some off -> pts_offset st' = Some off).
Proof.
  intros Hu Hi H. unfold live_packet in H.
  destruct (extract_pts packet) as [[[[[pts pos] dts] dts_pos]|]|e];
    cbn [lift bind run] in H; [| |done].
  - destruct (first_live_pts st) as [f|] eqn:Hf.
    + assert (st' = st) as ->.
      { destruct (pts_offset st), dts, dts_pos; cbn [run] in H; congruence. }
      done.
    + cbn [pts_offset] in H.
      match type of H with
      | context [State ?u ?p ?f ?o] => assert (st' = State u p f o) as ->
      end.
      { destruct dts, dts_pos; cbn [run] in H; congruence. }
      cbn. split; [done|]. split.
      * intros off _. split; [done|]. eauto.
      * intros off Ho. destruct (Hi _ Ho) as (_ & f & ?). congruence.
  - injection H as <- <-. done.
Qed.

Lemma placeholder_packet_inv st packet st' out :
  use_live st = false ->
  placeholder_packet st packet = Ok (st', out) ->
  use_live st' = false /\ pts_offset st' = pts_offset st
  /\ first_live_pts st' = first_live_pts st.
Proof.
  intros Hu H. unfold placeholder_packet in H.
  destruct (extract_pts packet) as [[[[[pts pos] dts] dts_pos]|]|e];
    cbn [lift bind run] in H; [| |done].
  - repeat case_match; cbn [run] in H; injection H as <- <-; done.
  - injection H as <- <-. done.
Qed.

Lemma select_live_inv st t :
  offset_inv st ->
  offset_inv (select_live st t) /\ pts_offset (select_live st t) = pts_offset st.
Proof.
  intros Hi. unfold select_live.
  destruct (negb (use_live st) && live_ready t) eqn:Hc; [|done].
  split; [|done]. intros off Ho. cbn in *.
  destruct (Hi _ Ho) as (Hu & ?). rewrite Hu in Hc. done.
Qed.

Lemma iteration_inv st t st' outs :
  offset_inv st ->
  iteration st t = Ok (Some (st', outs)) ->
  offset_inv st'
  /\ (forall off, pts_offset st = Some off -> pts_offset st' = Some off).
Proof.
  intros Hi H. unfold iteration in H.
  destruct (select_live_inv st t Hi) as [Hi0 Ho0].
  set (st0 := select_live st t) in *.
  rewrite <- Ho0.
  destruct (read t) as [|b packet].
  - destruct (negb (use_live st0)); [|done]. by injection H as <- <-.
  - destruct (use_live st0) eqn:Hu.
    + destruct (live_packet st0 (b :: packet)) as [[st1 out]|e] eqn:Hl; [|done].
      injection H as <- <-.
      destruct (live_packet_inv _ _ _ _ Hu Hi0 Hl) as (_ & ? & ?). done.
    + destruct (placeholder_packet st0 (b :: packet)) as [[st1 out]|e] eqn:Hp; [|done].
      injection H as <- <-.
      destruct (placeholder_packet_inv _ _ _ _ Hu Hp) as (Hu1 & Ho1 & Hf1).
      split.
      * intros off Ho. rewrite Ho1 in Ho. destruct (Hi0 _ Ho) as [? _]. congruence.
      * intros off Ho. by rewrite Ho1.
Qed.

Lemma main_loop_inv ts : forall st e outs,
  offset_inv st ->
  main_loop st ts = (e, outs) ->
  match e with
  | Running st' | Finished st' =>
      offset_inv st' /\ forall off, pts_offset st = Some off -> pts_offset st' = Some off
  | Crashed _ => True
  end.
Proof.
  induction ts as [|t ts IH]; intros st e outs Hi H; cbn [main_loop] in H.
  - by injection H as <- <-.
  - destruct (iteration st t) as [[[st1 out]|]|err] eqn:Hit.
    + destruct (main_loop st1 ts) as [e1 outs1] eqn:Hm. injection H as <- <-.
      destruct (iteration_inv _ _ _ _ Hi Hit) as [Hi1 Ho1].
      specialize (IH _ _ _ Hi1 Hm).
      destruct e1; [| |done]; destruct IH as [? Hk]; split; auto.
    + injection H as <- <-. destruct (select_live_inv st t Hi) as [? Ho].
      split; [done|]. intros off. by rewrite Ho.
    + by injection H as <- <-.
Qed.

Lemma reachable_inv st : reachable st -> offset_inv st.
Proof.
  intros (ts & outs & H). by destruct (main_loop_inv ts _ _ _ offset_inv_initial H).
Qed.

End Splice.

Section SplicerClaims.
Import TsJoiner.
Local Open Scope Z_scope.

Lemma is_bytes_check l :
  forallb (fun b => (0 <=? b) && (b <? 256)) l = true -> is_bytes l.
Proof.
  intros H. apply Forall_forall. intros b Hin.
  rewrite forallb_forall in H. apply list_elem_of_In, H in Hin. lia.
Qed.

Ltac by_evaluation := apply is_bytes_check; vm_compute; reflexivity.

Lemma is_bytes_slice packet a b : is_bytes packet -> is_bytes (slice packet a b).
Proof. intros H. unfold slice. by apply Forall_take, Forall_drop. Qed.

(** C1.  When the first live timestamp [f] is decoded after the placeholder
    path showed the maximum [p], the splicer stores
    [pts_offset = (p - f) mod 2^33], and [f + pts_offset] is congruent to
    [p] modulo 2^33.  In the scenario of the specification (placeholder
    maximum 90000, first live timestamp 0) the offset is 90000 and the
    later live packet with timestamp 9000 leaves with timestamp 99000. *)
Theorem splice_offset :
  (forall st packet f pos dts dts_pos p,
     first_live_pts st = None ->
     placeholder_last_pts st = Some p ->
     extract_pts packet = Ok (Some (f, pos, dts, dts_pos)) ->
     exists st' out,
       live_packet st packet = Ok (st', out)
       /\ first_live_pts st' = Some f
       /\ placeholder_last_pts st' = Some p
       /\ pts_offset st' = Some ((p - f) mod 2 ^ 33)
       /\ (f + (p - f) mod 2 ^ 33) mod 2 ^ 33 = p mod 2 ^ 33)
  /\ (main_loop initial scenario
      = (Running spliced,
         [pts_packet 45000; pts_packet 90000; pts_packet 60000;
          pts_packet 90000; pts_packet 99000])
      /\ pts_offset spliced = Some 90000
      /\ extract_pts (pts_packet 9000) = Ok (Some (9000, 13, None, None))
      /\ extract_pts (pts_packet 99000) = Ok (Some (99000, 13, None, None))).
Proof.
  split.
  - intros st packet f pos dts dts_pos p Hf Hp He.
    eexists _, _. split; [by apply live_packet_first|].
    rewrite Hp. cbn. rewrite land_PTS_MASK.
    repeat split.
    rewrite Zplus_mod_idemp_r. f_equal. lia.
  - repeat split; vm_compute; reflexivity.
Qed.

Lemma splice_offset_witness :
  first_live_pts (State true (Some 90000) None None) = None
  /\ placeholder_last_pts (State true (Some 90000) None None) = Some 90000
  /\ extract_pts (pts_packet 0) = Ok (Some (0, 13, None, None))
  /\ exists st' out,
       live_packet (State true (Some 90000) None None) (pts_packet 0) = Ok (st', out)
       /\ first_live_pts st' = Some 0
       /\ placeholder_last_pts st' = Some 90000
       /\ pts_offset st' = Some ((90000 - 0) mod 2 ^ 33)
       /\ (0 + (90000 - 0) mod 2 ^ 33) mod 2 ^ 33 = 90000 mod 2 ^ 33.
Proof.
  split; [reflexivity|]. split; [reflexivity|]. split; [vm_compute; reflexivity|].
  apply (proj1 splice_offset (State true (Some 90000) None None) (pts_packet 0)
           0 13 None None 90000);
    [reflexivity | reflexivity | vm_compute; reflexivity].
Defined.

(** C3, as stated, fails: valid fields with the prefix 0b0011 or 0b0001
    do not come back from decoding and re-encoding. *)
Lemma roundtrip_counterexample :
  (valid_field pts_with_dts_field
   /\ decode_pts pts_with_dts_field = Ok 0
   /\ encode_pts 0 <> pts_with_dts_field)
  /\ (valid_field dts_field
      /\ decode_pts dts_field = Ok 0
      /\ encode_pts 0 <> dts_field).
Proof.
  split; (split; [|split]).
  - unfold valid_field. repeat split; try reflexivity.
    + by_evaluation.
    + right. left. reflexivity.
  - reflexivity.
  - vm_compute. discriminate.
  - unfold valid_field. repeat split; try reflexivity.
    + by_evaluation.
    + right. right. reflexivity.
  - reflexivity.
  - vm_compute. discriminate.
Qed.

(** C3, amended.  Decoding a valid field and encoding the value again
    gives back the low nibble of byte 0 (the three top timestamp bits and
    their marker) and bytes 1 to 4 unchanged, so the result decodes to the
    same value; the leading prefix nibble is not carried over. *)
Theorem roundtrip_keeps_timestamp_bits b :
  valid_field b ->
  exists v e0,
    decode_pts b = Ok v
    /\ encode_pts v = e0 :: tail b
    /\ Z.land e0 0x0F = Z.land (hd 0 b) 0x0F
    /\ decode_pts (encode_pts v) = Ok v.
Proof.
  intros (Hlen & Hb & Hm & _).
  destruct b as [|b0 [|b1 [|b2 [|b3 [|b4 [|]]]]]]; try discriminate.
  pose proof Hb as (H0 & H1 & H2 & H3 & H4)%is_bytes_5.
  destruct (decode_pts [b0; b1; b2; b3; b4]) as [v|] eqn:Hd;
    [|by rewrite decode_pts_pack in Hd].
  cbn [marker_bits_set] in Hm.
  apply andb_true_iff in Hm as [[M0 M2]%andb_true_iff M4].
  exists v, (Z.lor 65 (Z.land b0 14)).
  assert (forall x, 0 <= x < 256 -> Z.testbit x 0 = true -> Z.lor x 1 = x) as Hmark.
  { apply (all_below 256 (fun x => Z.testbit x 0 = true -> Z.lor x 1 = x)). by vm_compute. }
  split; [done|]. split; [|split].
  - rewrite (encode_decode_pts _ _ _ _ _ _ Hb Hd). cbn [tail].
    by rewrite !Hmark.
  - cbn [hd].
    assert (forall x, 0 <= x < 256 -> Z.testbit x 0 = true ->
              Z.land (Z.lor 65 (Z.land x 14)) 15 = Z.land x 15) as Hlow.
    { apply (all_below 256 (fun x => Z.testbit x 0 = true ->
               Z.land (Z.lor 65 (Z.land x 14)) 15 = Z.land x 15)). by vm_compute. }
    by apply Hlow.
  - rewrite decode_encode_pts, land_PTS_MASK. f_equal.
    apply Z.mod_small. by apply (decode_pts_range [b0; b1; b2; b3; b4]).
Qed.

Lemma roundtrip_keeps_timestamp_bits_witness :
  valid_field pts_only_field
  /\ exists v e0,
       decode_pts pts_only_field = Ok v
       /\ encode_pts v = e0 :: tail pts_only_field
       /\ Z.land e0 0x0F = Z.land (hd 0 pts_only_field) 0x0F
       /\ decode_pts (encode_pts v) = Ok v.
Proof.
  assert (valid_field pts_only_field) as Hv.
  { unfold valid_field. repeat split; try reflexivity.
    - by_evaluation.
    - left. reflexivity. }
  split; [exact Hv|]. exact (roundtrip_keeps_timestamp_bits pts_only_field Hv).
Defined.

(** C5.  In every state that [main] can reach with an offset stored, the
    offset stays what it is through every further turn of the loop, and a
    live packet in which [extract_pts] finds timestamps leaves with
    [pts + pts_offset] and, when it has one, [dts + pts_offset], both
    modulo 2^33, encoded in the five bytes they were read from; every other
    byte of the packet, and the locals of the loop, are unchanged. *)
Theorem offset_fixed_and_applied st off :
  reachable st ->
  pts_offset st = Some off ->
  (forall ts e outs st',
     main_loop st ts = (e, outs) ->
     e = Running st' \/ e = Finished st' ->
     pts_offset st' = Some off)
  /\ (forall ready packet pts pos dts dts_pos,
        is_bytes packet ->
        extract_pts packet = Ok (Some (pts, pos, dts, dts_pos)) ->
        exists out,
          iteration st (Turn ready packet) = Ok (Some (st, [out]))
          /\ decode_pts (slice out pos (pos + 5)) = Ok ((pts + off) mod 2 ^ 33)
          /\ (forall d dp, dts = Some d -> dts_pos = Some dp ->
                decode_pts (slice out dp (dp + 5)) = Ok ((d + off) mod 2 ^ 33))
          /\ same_outside packet out pos dts_pos).
Proof.
  intros Hr Ho. pose proof (reachable_inv _ Hr) as Hi.
  destruct (Hi _ Ho) as (Hu & f & Hf).
  split.
  - intros ts e outs st' Hm He.
    pose proof (main_loop_inv ts _ _ _ Hi Hm) as H.
    destruct He as [-> | ->]; destruct H as [_ H]; by apply H.
  - intros ready packet pts pos dts dts_pos Hb He.
    exists (retimed packet pts pos dts dts_pos off).
    split; [|by apply retimed_spec].
    pose proof (live_packet_later _ _ _ _ _ _ _ _ Hf Ho He) as Hl.
    destruct packet as [|b packet].
    { apply extract_pts_Some in He as [? _]; done. }
    unfold iteration, select_live. cbn [read live_ready]. rewrite Hu. cbn [negb andb].
    by rewrite Hu, Hl.
Qed.

Lemma offset_fixed_and_applied_witness :
  reachable spliced
  /\ pts_offset spliced = Some 90000
  /\ (forall ts e outs st',
        main_loop spliced ts = (e, outs) ->
        e = Running st' \/ e = Finished st' ->
        pts_offset st' = Some 90000)
  /\ (forall ready packet pts pos dts dts_pos,
        is_bytes packet ->
        extract_pts packet = Ok (Some (pts, pos, dts, dts_pos)) ->
        exists out,
          iteration spliced (Turn ready packet) = Ok (Some (spliced, [out]))
          /\ decode_pts (slice out pos (pos + 5)) = Ok ((pts + 90000) mod 2 ^ 33)
          /\ (forall d dp, dts = Some d -> dts_pos = Some dp ->
                decode_pts (slice out dp (dp + 5)) = Ok ((d + 90000) mod 2 ^ 33))
          /\ same_outside packet out pos dts_pos).
Proof.
  assert (reachable spliced) as Hr.
  { exists scenario. eexists. vm_compute. reflexivity. }
  split; [exact Hr|]. split; [reflexivity|].
  exact (offset_fixed_and_applied spliced 90000 Hr eq_refl).
Defined.

(** C7 fails on a packet whose PES header is cut short by the end of the
    packet: [extract_pts] checks that six bytes of payload are there and
    then reads the bytes at offsets 7 and 8; the [IndexError] leaves
    [main], on the placeholder side as on the live side, and nothing is
    written for the packet. *)
Theorem truncated_pes_header_aborts :
  length truncated_pes_packet = 188%nat
  /\ is_bytes truncated_pes_packet
  /\ extract_pts truncated_pes_packet = Err IndexError
  /\ main_loop initial [Turn false truncated_pes_packet; Turn false (pts_packet 0)]
     = (Crashed IndexError, [])
  /\ main_loop initial [Turn true truncated_pes_packet; Turn false (pts_packet 0)]
     = (Crashed IndexError, []).
Proof.
  split; [reflexivity|]. split; [by_evaluation|].
  repeat split; vm_compute; reflexivity.
Qed.

(** C10.  If the first live timestamp is decoded while no placeholder
    timestamp was seen, [placeholder_last_pts] becomes that timestamp, the
    offset is 0, the call returns, and this packet and every later live
    packet leave with the timestamp values they came with. *)
Theorem no_placeholder_timestamp st packet pts pos dts dts_pos :
  is_bytes packet ->
  first_live_pts st = None ->
  placeholder_last_pts st = None ->
  extract_pts packet = Ok (Some (pts, pos, dts, dts_pos)) ->
  exists st' out,
    live_packet st packet = Ok (st', out)
    /\ placeholder_last_pts st' = Some pts
    /\ first_live_pts st' = Some pts
    /\ pts_offset st' = Some 0
    /\ decode_pts (slice out pos (pos + 5)) = Ok pts
    /\ (forall d dp, dts = Some d -> dts_pos = Some dp ->
          decode_pts (slice out dp (dp + 5)) = Ok d)
    /\ (forall packet' pts' pos' dts' dts_pos',
          is_bytes packet' ->
          extract_pts packet' = Ok (Some (pts', pos', dts', dts_pos')) ->
          exists out',
            live_packet st' packet' = Ok (st', out')
            /\ decode_pts (slice out' pos' (pos' + 5)) = Ok pts'
            /\ (forall d dp, dts' = Some d -> dts_pos' = Some dp ->
                  decode_pts (slice out' dp (dp + 5)) = Ok d)).
Proof.
  intros Hb Hf Hp He.
  assert (forall packet pts pos dts dts_pos,
            is_bytes packet ->
            extract_pts packet = Ok (Some (pts, pos, dts, dts_pos)) ->
            let out := retimed packet pts pos dts dts_pos 0 in
            decode_pts (slice out pos (pos + 5)) = Ok pts
            /\ (forall d dp, dts = Some d -> dts_pos = Some dp ->
                  decode_pts (slice out dp (dp + 5)) = Ok d)) as Hkeep.
  { clear. intros packet pts pos dts dts_pos Hb He out.
    destruct (retimed_spec _ _ _ _ _ 0 Hb He) as (Hpts & Hdts & _).
    pose proof (extract_pts_Some _ _ _ _ _ Hb He) as (_ & _ & Hd & Hd').
    split.
    - subst out. rewrite Hpts, Z.add_0_r. f_equal. apply Z.mod_small.
      eapply decode_pts_range; [|exact Hd]. by apply is_bytes_slice.
    - intros d dp -> ->. subst out. rewrite (Hdts _ _ eq_refl eq_refl), Z.add_0_r.
      f_equal. apply Z.mod_small. destruct Hd' as (_ & _ & Hd').
      eapply decode_pts_range; [|exact Hd']. by apply is_bytes_slice. }
  eexists _, _. split; [by apply live_packet_first|].
  rewrite Hp. cbn [default placeholder_last_pts first_live_pts pts_offset].
  rewrite Z.sub_diag. change (Z.land 0 PTS_MASK) with 0.
  split; [done|]. split; [done|]. split; [done|].
  destruct (Hkeep _ _ _ _ _ Hb He) as [? ?].
  split; [done|]. split; [done|].
  intros packet' pts' pos' dts' dts_pos' Hb' He'.
  eexists. split; [by eapply live_packet_later|].
  by apply Hkeep.
Qed.

Lemma no_placeholder_timestamp_witness :
  is_bytes (pts_dts_packet 9000 6000)
  /\ first_live_pts live_unseen = None
  /\ placeholder_last_pts live_unseen = None
  /\ extract_pts (pts_dts_packet 9000 6000) = Ok (Some (9000, 13, Some 6000, Some 18))
  /\ exists st' out,
       live_packet live_unseen (pts_dts_packet 9000 6000) = Ok (st', out)
       /\ placeholder_last_pts st' = Some 9000
       /\ first_live_pts st' = Some 9000
       /\ pts_offset st' = Some 0
       /\ decode_pts (slice out 13 (13 + 5)) = Ok 9000
       /\ (forall d dp, Some 6000 = Some d -> Some 18 = Some dp ->
             decode_pts (slice out dp (dp + 5)) = Ok d)
       /\ (forall packet' pts' pos' dts' dts_pos',
             is_bytes packet' ->
             extract_pts packet' = Ok (Some (pts', pos', dts', dts_pos')) ->
             exists out',
               live_packet st' packet' = Ok (st', out')
               /\ decode_pts (slice out' pos' (pos' + 5)) = Ok pts'
               /\ (forall d dp, dts' = Some d -> dts_pos' = Some dp ->
                     decode_pts (slice out' dp (dp + 5)) = Ok d)).
Proof.
  assert (is_bytes (pts_dts_packet 9000 6000)) as Hb by by_evaluation.
  assert (extract_pts (pts_dts_packet 9000 6000) = Ok (Some (9000, 13, Some 6000, Some 18)))
    as He by (vm_compute; reflexivity).
  split; [exact Hb|]. split; [reflexivity|]. split; [reflexivity|]. split; [exact He|].
  exact (no_placeholder_timestamp live_unseen (pts_dts_packet 9000 6000)
           9000 13 (Some 6000) (Some 18) Hb eq_refl eq_refl He).
Defined.

End SplicerClaims.

(** * The TCP broadcast *)

Section Broadcast.
Import TcpSink.

Lemma clients_close_all (s : server) (ws : list writer) :
  clients (foldl close_client s ws) = clients s ∖ list_to_set ws.
Proof.
  revert s. induction ws as [|w ws IH]; intros s; cbn [foldl list_to_set].
  - set_solver.
  - rewrite IH. cbn [close_client clients]. set_solver.
Qed.

Lemma close_all_keeps (s : server) (ws : list writer) :
  total_bytes (foldl close_client s ws) = total_bytes s
  /\ shutdown_event (foldl close_client s ws) = shutdown_event s.
Proof.
  revert s. induction ws as [|w ws IH]; intros s; [done|].
  cbn [foldl]. destruct (IH (close_client s w)) as [-> ->]. done.
Qed.

(** When every drain ends, the first loop of [broadcast] hands the chunk to
    every writer of the snapshot and collects those whose drain failed. *)
Lemma offer_all_end world (ws : list writer) : forall (dead : gset writer) written,
  (forall w, w ∈ ws -> ends (world w)) ->
  exists dead',
    offer world ws dead written = (Completed dead', written ++ ws)
    /\ forall w, w ∈ dead' <-> w ∈ dead \/ (w ∈ ws /\ world w <> Drained).
Proof.
  induction ws as [|w ws IH]; intros dead written Hall; cbn [offer].
  - exists dead. rewrite app_nil_r. split; [done|]. set_solver.
  - assert (forall w', w' ∈ ws -> ends (world w')) as Hall' by (intros; apply Hall; set_solver).
    destruct (Hall w ltac:(set_solver)) as [E | [E | E]]; rewrite E.
    + destruct (IH dead (written ++ [w]) Hall') as (dead' & -> & Hd).
      exists dead'. rewrite <- app_assoc. split; [done|].
      intros w'. rewrite Hd. set_unfold. naive_solver.
    + destruct (IH ({[w]} ∪ dead) (written ++ [w]) Hall') as (dead' & -> & Hd).
      exists dead'. rewrite <- app_assoc. split; [done|].
      intros w'. rewrite Hd. set_unfold. split; [|naive_solver].
      intros [[-> | ?] | ?]; [right; split; [auto|congruence] | auto | naive_solver].
    + destruct (IH ({[w]} ∪ dead) (written ++ [w]) Hall') as (dead' & -> & Hd).
      exists dead'. rewrite <- app_assoc. split; [done|].
      intros w'. rewrite Hd. set_unfold. split; [|naive_solver].
      intros [[-> | ?] | ?]; [right; split; [auto|congruence] | auto | naive_solver].
Qed.

(** A drain that stalls keeps the first loop of [broadcast] from ending. *)
Lemma offer_stalled world (ws : list writer) : forall (dead : gset writer) written w,
  w ∈ ws -> world w = Stalled ->
  forall dead', fst (offer world ws dead written) <> Completed dead'.
Proof.
  induction ws as [|w0 ws IH]; intros dead written w Hin Hw dead'; [set_solver|].
  cbn [offer].
  destruct (decide (w0 = w)) as [-> | Hne].
  - rewrite Hw. done.
  - assert (w ∈ ws) as Hin' by set_solver.
    destruct (world w0) as [|e|]; [by eapply IH| |done].
    destruct e; try done; by eapply IH.
Qed.




(** A stalled drain, in any position of the snapshot, keeps [broadcast]
    from completing. *)
Lemma broadcast_stalled (s : server) world w :
  w ∈ clients s -> world w = Stalled ->
  forall s', fst (broadcast s world) <> Completed s'.
Proof.
  intros Hin Hw s'. unfold broadcast.
  pose proof (offer_stalled world (elements (clients s)) ∅ [] w) as H.
  destruct (offer world (elements (clients s)) ∅ []) as [[dead|e|w'] written]; cbn [fst] in *.
  - exfalso. eapply H; [set_solver|done|reflexivity].
  - done.
  - done.
Qed.

End Broadcast.

(** * The stub supervisor *)

Section Supervisor.
Import Stub.

(** C4, as stated, fails on the stub: with an unknown profile name
    [start_pipeline] returns a running operation under the profile "stub",
    and a second start under the same operation id replaces the records of
    the first. *)
Lemma start_counterexample :
  profiles_get (_profiles init) "nope" = None
  /\ exists st m,
       start_pipeline init 10 "op1" "amigadev" "nope" = Ok (st, m)
       /\ profile st = "stub"%string
       /\ state st = "running"%string
       /\ _pipelines m !! "op1"%string = Some st
       /\ exists st2 m2,
            start_pipeline m 20 "op1" "other" "stub" = Ok (st2, m2)
            /\ _pipelines m2 !! "op1"%string = Some st2
            /\ channel st2 = "other"%string
            /\ st2 <> st.
Proof.
  split; [reflexivity|].
  eexists _, _. split; [reflexivity|].
  split; [reflexivity|]. split; [reflexivity|]. split; [by vm_compute|].
  eexists _, _. split; [reflexivity|].
  split; [by vm_compute|]. split; [reflexivity|]. discriminate.
Qed.

(** C4, amended.  With a profile table that is not empty, [start_pipeline]
    does not fail: the profile is the one named, or the first of the table
    when the name is unknown; the operation is stored under its id in state
    "running" together with a fresh metrics record, replacing whatever was
    stored under that id; the records of other ids are untouched. *)
Theorem start_never_refuses (m : manager) now (op chan profile_name : string) :
  _profiles m <> [] ->
  exists st m' p,
    start_pipeline m now op chan profile_name = Ok (st, m')
    /\ (profiles_get (_profiles m) profile_name = Some p
        \/ (profiles_get (_profiles m) profile_name = None
            /\ snd <$> head (_profiles m) = Some p))
    /\ op_id st = op /\ channel st = chan /\ profile st = name p
    /\ state st = "running"%string
    /\ _pipelines m' !! op = Some st
    /\ _metrics m' !! op = Some (Metrics op 0 0 0 None)
    /\ forall op', op' <> op ->
         _pipelines m' !! op' = _pipelines m !! op'
         /\ _metrics m' !! op' = _metrics m !! op'.
Proof.
  intros Hne. unfold start_pipeline.
  destruct (profiles_get (_profiles m) profile_name) as [p|] eqn:Hget.
  - eexists _, _, p. split; [reflexivity|]. split; [by left|].
    cbn. rewrite !lookup_insert_eq. repeat split; try done;
      by rewrite lookup_insert_ne.
  - destruct (_profiles m) as [|[k p] ps] eqn:Hps; [done|].
    eexists _, _, p. split; [reflexivity|]. split; [by right|].
    cbn. rewrite !lookup_insert_eq. repeat split; try done;
      by rewrite lookup_insert_ne.
Qed.

Lemma start_never_refuses_witness :
  _profiles init <> []
  /\ exists st m' p,
       start_pipeline init 10 "op1" "amigadev" "nope" = Ok (st, m')
       /\ (profiles_get (_profiles init) "nope" = Some p
           \/ (profiles_get (_profiles init) "nope" = None
               /\ snd <$> head (_profiles init) = Some p))
       /\ op_id st = "op1"%string /\ channel st = "amigadev"%string
       /\ profile st = name p
       /\ state st = "running"%string
       /\ _pipelines m' !! "op1"%string = Some st
       /\ _metrics m' !! "op1"%string = Some (Metrics "op1" 0 0 0 None)
       /\ forall op', op' <> "op1"%string ->
            _pipelines m' !! op' = _pipelines init !! op'
            /\ _metrics m' !! op' = _metrics init !! op'.
Proof.
  assert (_profiles init <> []) as H by discriminate.
  split; [exact H|].
  exact (start_never_refuses init 10 "op1" "amigadev" "nope" H).
Defined.

(** C9.  For an operation id that the supervisor does not know,
    [stop_pipeline] returns false, [get_status] and [get_metrics] return
    [None]; each of the three returns without raising and leaves the
    supervisor as it was. *)
Theorem unknown_operation (m : manager) now (op : string) :
  _pipelines m !! op = None ->
  stop_pipeline m now op = Ok (false, m)
  /\ get_status m op = Ok None
  /\ get_metrics m now op = Ok (None, m).
Proof.
  intros H. unfold stop_pipeline, get_status, get_metrics. by rewrite H.
Qed.

Lemma unknown_operation_witness :
  _pipelines init !! "missing"%string = None
  /\ stop_pipeline init 10 "missing" = Ok (false, init)
  /\ get_status init "missing" = Ok None
  /\ get_metrics init 10 "missing" = Ok (None, init).
Proof.
  split; [reflexivity|].
  exact (unknown_operation init 10 "missing" eq_refl).
Defined.

End Supervisor.

(** * The HLS repackager *)

Section Window.
Import HlsRepacker.
Context {A : Type}.
Implicit Types (d : list A) (x : A) (k : nat).

Lemma deque_append_length k d x :
  length (deque_append k d x) = Nat.min (S (length d)) k.
Proof. unfold deque_append. rewrite length_drop, !length_app. cbn [length]. lia. Qed.

Lemma deque_append_suffix k d x : deque_append k d x `suffix_of` d ++ [x].
Proof. unfold deque_append. apply suffix_drop. Qed.

Lemma deque_append_last k d x : (0 < k)%nat -> last (deque_append k d x) = Some x.
Proof.
  intros Hk. unfold deque_append.
  replace (length (d ++ [x]) - k)%nat with (length d - (k - 1))%nat
    by (rewrite length_app; cbn; lia).
  rewrite drop_app_le by lia. by rewrite last_snoc.
Qed.

Lemma deque_append_snoc k d x :
  (0 < k)%nat -> deque_append k d x = drop (S (length d) - k) d ++ [x].
Proof.
  intros Hk. unfold deque_append.
  replace (length (d ++ [x]) - k)%nat with (S (length d) - k)%nat
    by (rewrite length_app; cbn; lia).
  by rewrite drop_app_le by lia.
Qed.

End Window.

Section Repacker.
Import HlsRepacker.
Variable fmt_3f : Q -> string.
Variable args : arguments.

Lemma deliver_inv w acc u :
  window_inv args (fst acc) -> window_inv args (fst (deliver fmt_3f args w acc u)).
Proof.
  destruct acc as [st effs]. cbn [fst]. intros Hinv. unfold deliver.
  destruct (decide (u ∈ processed st)); [done|].
  destruct (negb (stable (w u))); [done|].
  destruct Hinv as [Hlen Hlast]. unfold window_inv.
  cbn [fst recent_segments sequence last_output_path].
  rewrite deque_append_length. split; [lia|].
  intros p [= <-]. exists (sequence st). split; [lia|done].
Qed.

Lemma deliver_all_inv w segments : forall acc,
  window_inv args (fst acc) ->
  window_inv args (fst (foldl (deliver fmt_3f args w) acc segments)).
Proof.
  induction segments as [|u segments IH]; intros acc Hinv; [done|].
  cbn [foldl]. by apply IH, deliver_inv.
Qed.

Lemma gap_fill_inv st now after :
  window_inv args st -> window_inv args (fst (gap_fill fmt_3f args st now after)).
Proof.
  intros Hinv. unfold gap_fill.
  destruct (gap_due args st now); [|done].
  destruct (last_output_path st) as [last|] eqn:E; [|done].
  destruct Hinv as [Hlen Hlast]. unfold window_inv.
  cbn [fst recent_segments sequence last_output_path].
  rewrite deque_append_length. split; [lia|].
  intros p [= <-]. destruct (Hlast _ E) as (k & Hk & ->).
  exists k. split; [lia|done].
Qed.

Lemma poll_inv st w :
  window_inv args st -> window_inv args (fst (poll fmt_3f args st w)).
Proof.
  intros Hinv. unfold poll.
  destruct (parse_manifest (manifest w)) as [|u segments]; [done|].
  pose proof (deliver_all_inv (segment w) (u :: segments) (st, []) Hinv) as H1.
  destruct (foldl _ _ _) as [st1 effs1]. cbn [fst] in H1.
  pose proof (gap_fill_inv st1 (gap_clock w) (dup_clock w) H1) as H2.
  by destruct (gap_fill _ _ _ _ _) as [st2 effs2].
Qed.

Lemma repack_inv ws : forall st,
  window_inv args st -> window_inv args (fst (repack fmt_3f args st ws)).
Proof.
  induction ws as [|w ws IH]; intros st Hinv; [done|].
  cbn [repack]. pose proof (poll_inv st w Hinv) as H1.
  destruct (poll _ _ _ _) as [st1 effs1]. cbn [fst] in H1.
  specialize (IH st1 H1). by destruct (repack _ _ _ _) as [st2 effs2].
Qed.

Lemma reachable_window st : reachable fmt_3f args st -> window_inv args st.
Proof.
  intros (now & ws & effs & H).
  assert (window_inv args (initial now)) as H0.
  { split; [done|]. intros p [=]. }
  pose proof (repack_inv ws (initial now) H0) as Hinv. by rewrite H in Hinv.
Qed.

(** URIs that bring nothing new, because they were seen before or because
    their segment never settles, only add to [processed]. *)
Lemma deliver_nothing_new w segments : forall st effs,
  (forall u, u ∈ segments -> u ∈ processed st \/ stable (w u) = false) ->
  exists seen,
    foldl (deliver fmt_3f args w) (st, effs) segments
    = ({| recent_segments := recent_segments st; processed := seen;
          sequence := sequence st; last_output_path := last_output_path st;
          last_source_time := last_source_time st |}, effs).
Proof.
  induction segments as [|u segments IH]; intros st effs Hall.
  - exists (processed st). by destruct st.
  - cbn [foldl deliver].
    destruct (decide (u ∈ processed st)) as [Hu|Hu].
    + apply IH. intros u' Hu'. apply Hall. set_solver.
    + destruct (Hall u ltac:(set_solver)) as [?| ->]; [done|]. cbn [negb].
      match goal with |- context [foldl _ (?st1, _) _] => destruct (IH st1 effs) as [seen ->] end.
      * intros u' Hu'. cbn [processed].
        destruct (Hall u' ltac:(set_solver)); [left; set_solver | by right].
      * by exists seen.
Qed.

(** The manifest text shows the duplicate last, under a discontinuity tag. *)
Lemma manifest_lines_snoc (segments : list SegmentEntry) seg :
  manifest_lines fmt_3f (segments ++ [seg])
  = manifest_lines fmt_3f segments
    ++ (if discontinuity seg then ["#EXT-X-DISCONTINUITY"%string] else [])
    ++ [("#EXTINF:" +:+ fmt_3f (duration seg) +:+ ",")%string; uri seg].
Proof.
  unfold manifest_lines. rewrite bind_app. cbn [mbind list_bind].
  by rewrite app_nil_r, <- !app_assoc.
Qed.

Lemma gap_due_true st now :
  (0 < gap_timeout args)%Q ->
  is_Some (last_output_path st) ->
  recent_segments st <> [] ->
  (gap_timeout args <= now - last_source_time st)%Q ->
  gap_due args st now = true.
Proof.
  intros Hg Hl Hr Hn. unfold gap_due.
  rewrite bool_decide_eq_true_2 by done.
  rewrite (bool_decide_eq_false_2 _ Hr).
  rewrite (proj2 (Qle_bool_iff _ _) Hn).
  destruct (Qle_bool (gap_timeout args) 0) eqn:E; [|done].
  apply Qle_bool_iff in E. by apply Qlt_not_le in Hg.
Qed.

End Repacker.

Section RepackerClaims.
Import HlsRepacker.

(** C8 fails on the code when the upstream manifest lists no segment.
    Five upstream segments were delivered at clock reading 100 into a
    window of three, the last as [segment_00004.ts]; the gap timeout is
    20 seconds, and at clock reading 125 nothing new has arrived, so the
    gap is due.  A turn of the loop that finds the upstream manifest
    missing, or with its header only, goes back to sleep before the gap
    test: nothing is copied and the manifest is not rewritten, however
    many such turns follow.  The same turn with the manifest still there,
    listing the five segments already seen, fills the gap: it copies
    [segment_00004.ts], the last one delivered, to [segment_00005.ts], and
    rewrites the manifest with the three newest entries, the duplicate
    under a discontinuity tag. *)
Theorem gap_not_filled_without_manifest :
  reachable fmt_thousandths example_args delivered_five
  /\ recent_segments delivered_five
     = [Entry "segment_00002.ts" 4 false; Entry "segment_00003.ts" 4 false;
        Entry "segment_00004.ts" 4 false]
  /\ last_output_path delivered_five = Some (Div (Root "outgoing") "segment_00004.ts")
  /\ gap_due example_args delivered_five 125 = true
  /\ parse_manifest (manifest gap_poll_no_manifest) = []
  /\ parse_manifest (manifest gap_poll_empty_manifest) = []
  /\ poll fmt_thousandths example_args delivered_five gap_poll_no_manifest
     = (delivered_five, [Sleep (1 # 2)])
  /\ poll fmt_thousandths example_args delivered_five gap_poll_empty_manifest
     = (delivered_five, [Sleep (1 # 2)])
  /\ (forall n,
        repack fmt_thousandths example_args delivered_five (repeat gap_poll_no_manifest n)
        = (delivered_five, repeat (Sleep (1 # 2)) n))
  /\ snd (poll fmt_thousandths example_args delivered_five gap_poll)
     = [Copy (Div (Root "outgoing") "segment_00004.ts")
             (Div (Root "outgoing") "segment_00005.ts");
        WriteText (Div (Root "outgoing") "index.m3u8")
          (build_manifest fmt_thousandths
             [Entry "segment_00003.ts" 4 false; Entry "segment_00004.ts" 4 false;
              Entry "segment_00005.ts" 4 true]);
        Sleep (1 # 2)]
  /\ manifest_lines fmt_thousandths
       [Entry "segment_00003.ts" 4 false; Entry "segment_00004.ts" 4 false;
        Entry "segment_00005.ts" 4 true]
     = ["#EXTM3U"; "#EXT-X-VERSION:3"; "#EXT-X-TARGETDURATION:6"; "#EXT-X-MEDIA-SEQUENCE:0";
        "#EXTINF:4.000,"; "segment_00003.ts"; "#EXTINF:4.000,"; "segment_00004.ts";
        "#EXT-X-DISCONTINUITY"; "#EXTINF:4.000,"; "segment_00005.ts"]%string.
Proof.
  assert (poll fmt_thousandths example_args delivered_five gap_poll_no_manifest
          = (delivered_five, [Sleep (1 # 2)])) as Hpoll by reflexivity.
  split.
  { exists 0%Q, [first_poll]. eexists. unfold delivered_five. apply surjective_pairing. }
  split; [vm_compute; reflexivity|]. split; [vm_compute; reflexivity|].
  split; [vm_compute; reflexivity|]. split; [reflexivity|].
  split; [vm_compute; reflexivity|]. split; [exact Hpoll|].
  split; [reflexivity|]. split; [|split; vm_compute; reflexivity].
  induction n as [|n IH]; [reflexivity|].
  cbn [repeat repack]. rewrite Hpoll, IH. reflexivity.
Qed.

End RepackerClaims.

(** * The placeholder/live switch *)

Section Switch.
Import FifoSwitch.
Local Open Scope Z_scope.
Variable switch_grace : Q.
Variable original_flags : Z.

Lemma nonblocking_set : nonblocking (Z.lor original_flags O_NONBLOCK) = true.
Proof.
  unfold nonblocking. apply negb_true_iff, Z.eqb_neq. intros H.
  apply (f_equal (fun x => Z.testbit x 11)) in H.
  rewrite Z.land_spec, Z.lor_spec, Z.bits_0 in H.
  change (Z.testbit O_NONBLOCK 11) with true in H.
  by rewrite orb_true_r in H.
Qed.

Lemma relays_app evs evs' : relays evs = true -> relays (evs ++ evs') = relays evs'.
Proof.
  induction evs as [|e rest IH]; [done|]. intros H.
  destruct e; try (cbn [relays app] in *; by apply IH).
  destruct got as [|b chunk]; [cbn [relays app] in *; by apply IH|].
  cbn [relays] in H. destruct rest as [|e rest]; [done|].
  destruct e; try done.
  apply andb_true_iff in H as [H1 H2].
  change (relays ((ReadPlaceholder (b :: chunk) :: WriteFifo chunk0 ok :: rest) ++ evs'))
    with (bool_decide (chunk0 = b :: chunk) && relays ((WriteFifo chunk0 ok :: rest) ++ evs')).
  rewrite H1, IH by done. done.
Qed.

Lemma terminate_terminated p w : terminated p w (_terminate p w).
Proof.
  unfold _terminate, terminated.
  by destruct (exit_code w), (term_found w), (wait_timeout w).
Qed.

Lemma terminate_graceful p w : graceful_then_forced p (_terminate p w).
Proof.
  unfold _terminate, graceful_then_forced, waited.
  destruct (exit_code w), (term_found w), (wait_timeout w); cbn [app]; eauto 10.
Qed.

Lemma terminate_no_live_read p w : Forall (fun e => is_live_read e = false) (_terminate p w).
Proof.
  unfold _terminate.
  destruct (exit_code w), (term_found w), (wait_timeout w); cbn [app];
    repeat constructor.
Qed.

Lemma terminate_sound p w : Forall sound (_terminate p w).
Proof.
  unfold _terminate.
  destruct (exit_code w), (term_found w), (wait_timeout w); cbn [app];
    repeat constructor; done.
Qed.

Lemma terminate_no_chunks p w :
  chunks_read (_terminate p w) = [] /\ chunks_written (_terminate p w) = [].
Proof.
  unfold _terminate.
  by destruct (exit_code w), (term_found w), (wait_timeout w).
Qed.



Lemma chunks_read_app evs evs' :
  chunks_read (evs ++ evs') = chunks_read evs ++ chunks_read evs'.
Proof. apply omap_app. Qed.

Lemma chunks_written_app evs evs' :
  chunks_written (evs ++ evs') = chunks_written evs ++ chunks_written evs'.
Proof. apply omap_app. Qed.


(** A negative grace always raises. *)
Lemma switch_over_negative chunk t :
  (switch_grace < 0)%Q ->
  exists e, switch_over switch_grace original_flags chunk t = ([], Error e).
Proof.
  intros H. unfold switch_over, time_sleep.
  destruct (Qeq_bool switch_grace 0) eqn:E.
  { apply Qeq_bool_iff in E. rewrite E in H. by apply Qlt_irrefl in H. }
  destruct (sleep_raised t); [by eexists|].
  destruct (Qle_bool 0 switch_grace) eqn:E'; [|by eexists].
  apply Qle_bool_iff in E'. by apply Qlt_not_le in H.
Qed.

(** The handover in general: it is carried out in full, the write to the
    FIFO succeeding or not, or the pause raises and nothing is done. *)
Lemma switch_over_cases chunk t :
  (exists term,
     switch_over switch_grace original_flags chunk t
     = ((if Qeq_bool switch_grace 0 then [] else [Sleep switch_grace])
        ++ [Log "[fifo-switch] live data detected, switching over"; SetFlags original_flags]
        ++ term ++ [CloseStdout Placeholder; WriteFifo chunk (write_ok t)],
        if write_ok t then Continue else Broken)
     /\ term = _terminate Placeholder (handover t))
  \/ (Qeq_bool switch_grace 0 = false
      /\ exists e, switch_over switch_grace original_flags chunk t = ([], Error e)
                   /\ time_sleep switch_grace (sleep_raised t) = Some e).
Proof.
  unfold switch_over. destruct (Qeq_bool switch_grace 0); [left; by eexists|].
  destruct (time_sleep switch_grace (sleep_raised t)) as [e|]; [right|left]; by eauto.
Qed.

(** ** The first loop, turn by turn *)

(** The first loop runs through turns that relay, until the answers run
    out or a turn ends it: by stopping, or with the handover. *)
Lemma pre_loop_run turns : forall last,
  exists quiet_turns before,
    Forall2 (relay_turn original_flags) quiet_turns before
    /\ ((turns = quiet_turns
         /\ pre_loop switch_grace original_flags last turns = (concat before, Unfinished))
        \/ exists t later tail r,
             turns = quiet_turns ++ t :: later
             /\ pre_loop switch_grace original_flags last turns = (concat before ++ tail, r)
             /\ (stopping_turn original_flags t tail r
                 \/ (live_exit t = None
                     /\ exists b chunk,
                          live_read t = Some (b :: chunk)
                          /\ tail = [Poll Live None;
                                     ReadLive (Z.lor original_flags O_NONBLOCK)
                                       (Some (b :: chunk))]
                                    ++ fst (switch_over switch_grace original_flags
                                              (b :: chunk) t)
                          /\ r = snd (switch_over switch_grace original_flags
                                        (b :: chunk) t)))).
Proof.
  induction turns as [|t turns IH]; intros last.
  { exists [], []. split; [constructor|]. left. done. }
  assert (forall tail r,
    pre_loop switch_grace original_flags last (t :: turns) = (tail, r) ->
    stopping_turn original_flags t tail r
    \/ (live_exit t = None
        /\ exists b chunk,
             live_read t = Some (b :: chunk)
             /\ tail = [Poll Live None;
                        ReadLive (Z.lor original_flags O_NONBLOCK) (Some (b :: chunk))]
                       ++ fst (switch_over switch_grace original_flags (b :: chunk) t)
             /\ r = snd (switch_over switch_grace original_flags (b :: chunk) t)) ->
    exists quiet_turns before,
      Forall2 (relay_turn original_flags) quiet_turns before
      /\ ((t :: turns = quiet_turns
           /\ pre_loop switch_grace original_flags last (t :: turns)
              = (concat before, Unfinished))
          \/ exists t' later tail r,
               t :: turns = quiet_turns ++ t' :: later
               /\ pre_loop switch_grace original_flags last (t :: turns)
                  = (concat before ++ tail, r)
               /\ (stopping_turn original_flags t' tail r
                   \/ (live_exit t' = None
                       /\ exists b chunk,
                            live_read t' = Some (b :: chunk)
                            /\ tail = [Poll Live None;
                                       ReadLive (Z.lor original_flags O_NONBLOCK)
                                         (Some (b :: chunk))]
                                      ++ fst (switch_over switch_grace original_flags
                                                (b :: chunk) t')
                            /\ r = snd (switch_over switch_grace original_flags
                                          (b :: chunk) t'))))) as Hstop.
  { intros tail r E Ht. exists [], []. split; [constructor|]. right.
    exists t, turns, tail, r. done. }
  assert (forall head l,
    relay_turn original_flags t head ->
    pre_loop switch_grace original_flags last (t :: turns)
    = (let '(evs, r) := pre_loop switch_grace original_flags l turns in (head ++ evs, r)) ->
    exists quiet_turns before,
      Forall2 (relay_turn original_flags) quiet_turns before
      /\ ((t :: turns = quiet_turns
           /\ pre_loop switch_grace original_flags last (t :: turns)
              = (concat before, Unfinished))
          \/ exists t' later tail r,
               t :: turns = quiet_turns ++ t' :: later
               /\ pre_loop switch_grace original_flags last (t :: turns)
                  = (concat before ++ tail, r)
               /\ (stopping_turn original_flags t' tail r
                   \/ (live_exit t' = None
                       /\ exists b chunk,
                            live_read t' = Some (b :: chunk)
                            /\ tail = [Poll Live None;
                                       ReadLive (Z.lor original_flags O_NONBLOCK)
                                         (Some (b :: chunk))]
                                      ++ fst (switch_over switch_grace original_flags
                                                (b :: chunk) t')
                            /\ r = snd (switch_over switch_grace original_flags
                                          (b :: chunk) t'))))) as Hgo.
  { intros head l Hhead E. rewrite E.
    destruct (IH l) as (qs & before & Hq & [[-> ->] | (t' & later & tail & r & -> & -> & Ht')]).
    - exists (t :: qs), (head :: before). split; [by constructor|]. left. done.
    - exists (t :: qs), (head :: before). split; [by constructor|]. right.
      exists t', later, tail, r. cbn [concat]. by rewrite <- app_assoc. }
  pose (polled := [Poll Live None;
                   ReadLive (Z.lor original_flags O_NONBLOCK) (live_read t);
                   ReadPlaceholder (ph_read t)]).
  destruct (live_exit t) as [c|] eqn:Hle.
  { eapply Hstop; [cbn [pre_loop]; rewrite Hle; reflexivity|].
    left. unfold stopping_turn. by rewrite Hle. }
  destruct (truthy (live_read t)) eqn:Htr.
  { destruct (live_read t) as [[|b chunk]|] eqn:Hlive; try discriminate Htr.
    eapply Hstop.
    - cbn [pre_loop]. rewrite Hle, ?Hlive. apply surjective_pairing.
    - right. split; [done|]. exists b, chunk.
      destruct (switch_over switch_grace original_flags (b :: chunk) t).
      rewrite ?Hlive. done. }
  assert (live_read t = None \/ live_read t = Some []) as Hlr
    by (destruct (live_read t) as [[|]|]; auto; discriminate).
  destruct (ph_read t) as [|pb pchunk] eqn:Hph.
  - destruct (ph_exit t) as [c|] eqn:Hpe.
    + apply (Hstop (polled ++ [Poll Placeholder (Some c)])
                   (Error (RuntimeError "placeholder process exited unexpectedly"))).
      * clear Hstop Hgo IH. cbn [pre_loop]. rewrite Hle. subst polled.
        destruct Hlr as [E|E]; rewrite !E, Hph, Hpe; reflexivity.
      * left. unfold stopping_turn. rewrite Hle, Htr, Hph, Hpe. subst polled.
        by rewrite ?Hph.
    + destruct (Qlt_le_dec 5 (clock_check t - last)) as [Hq|Hq] eqn:Hdec.
      * apply (Hgo (polled ++ [Poll Placeholder None;
                               Log "[fifo-switch] waiting for placeholder data..."])
                   (clock_reset t)).
        -- unfold relay_turn. rewrite Hle, Htr, Hph, Hpe. subst polled.
           rewrite ?Hph. auto.
        -- clear Hstop Hgo IH. cbn [pre_loop]. rewrite Hle. subst polled.
           destruct Hlr as [E|E]; rewrite !E, Hph, Hpe, Hdec; reflexivity.
      * apply (Hgo (polled ++ [Poll Placeholder None]) last).
        -- unfold relay_turn. rewrite Hle, Htr, Hph, Hpe. subst polled.
           rewrite ?Hph. auto.
        -- clear Hstop Hgo IH. cbn [pre_loop]. rewrite Hle. subst polled.
           destruct Hlr as [E|E]; rewrite !E, Hph, Hpe, Hdec; reflexivity.
  - destruct (write_ok t) eqn:Hw.
    + apply (Hgo (polled ++ [WriteFifo (ph_read t) true]) (clock_check t)).
      * unfold relay_turn. rewrite Hle, Htr, Hph, Hw. subst polled. rewrite ?Hph. auto.
      * clear Hstop Hgo IH. cbn [pre_loop]. rewrite Hle. subst polled.
        destruct Hlr as [E|E]; rewrite !E, Hph, Hw; reflexivity.
    + apply (Hstop (polled ++ [WriteFifo (ph_read t) false]) Broken).
      * clear Hstop Hgo IH. cbn [pre_loop]. rewrite Hle. subst polled.
        destruct Hlr as [E|E]; rewrite !E, Hph, Hw; reflexivity.
      * left. unfold stopping_turn. rewrite Hle, Htr, Hph, Hw. subst polled.
        by rewrite ?Hph.
Qed.

(** A turn that relays polls the live side without finding data, writes
    what it reads, and leaves the FIFO open. *)
Lemma relay_turn_facts t evs :
  relay_turn original_flags t evs ->
  Forall quiet evs /\ relays evs = true /\ Forall sound evs
  /\ chunks_written evs = chunks_read evs.
Proof.
  intros (Hle & Htr & H). pose proof nonblocking_set as Hnb.
  assert (forall got, quiet (ReadLive (Z.lor original_flags O_NONBLOCK) got)
                      \/ truthy got = true) as Hq.
  { intros [[|]|]; [left|right|left]; try done; by split. }
  cbv zeta in H.
  destruct (live_read t) as [[|]|] eqn:Hl; try done;
    (destruct (ph_read t) as [|b chunk];
     [destruct H as (_ & [-> | ->])|destruct H as (_ & ->)]);
    (split; [repeat (apply Forall_cons_2; [by split|]); constructor|]);
    (split; [cbn; by rewrite ?bool_decide_eq_true_2|]);
    (split; [repeat constructor; done|done]).
Qed.

Lemma relay_turns_facts ts before :
  Forall2 (relay_turn original_flags) ts before ->
  Forall quiet (concat before) /\ relays (concat before) = true
  /\ Forall sound (concat before)
  /\ chunks_written (concat before) = chunks_read (concat before).
Proof.
  induction 1 as [|t evs ts before Ht _ (IH1 & IH2 & IH3 & IH4)]; [done|].
  destruct (relay_turn_facts _ _ Ht) as (H1 & H2 & H3 & H4). cbn [concat].
  rewrite !Forall_app, relays_app, chunks_read_app, chunks_written_app, H4, IH4 by done.
  done.
Qed.

(** A turn that stops the first loop found no live data. *)
Lemma stopping_turn_facts t evs r :
  stopping_turn original_flags t evs r ->
  Forall (fun e => is_live_data e = false) evs
  /\ chunks_written evs = chunks_read evs
  /\ match r with
     | Broken => exists body c, evs = body ++ [WriteFifo c false] /\ Forall sound body
     | Error e =>
         (e = RuntimeError "live process exited before producing data"
          \/ e = RuntimeError "placeholder process exited unexpectedly")
         /\ Forall sound evs
     | _ => False
     end.
Proof.
  unfold stopping_turn. destruct (live_exit t) as [c|].
  { intros [-> ->]. split; [repeat constructor|]. split; [done|].
    split; [auto|]. repeat constructor; done. }
  intros (Htr & H). cbv zeta in H.
  destruct (live_read t) as [[|]|] eqn:Hl; try done;
    (destruct (ph_read t) as [|b chunk];
     [destruct (ph_exit t) as [c|]; [destruct H as [-> ->]|done]
     |assert (write_ok t = false
              /\ evs = [Poll Live None; ReadLive (Z.lor original_flags O_NONBLOCK) (live_read t);
                        ReadPlaceholder (b :: chunk)] ++ [WriteFifo (b :: chunk) false]
              /\ r = Broken) as (_ & -> & ->) by (rewrite Hl; by destruct (ph_exit t))]);
    rewrite ?Hl;
    (split; [repeat (apply Forall_cons_2; [done|]); constructor|]);
    (split; [done|]);
    first [ split; [auto|]; repeat constructor; done
          | eexists _, _; split; [reflexivity|]; repeat constructor; done ].
Qed.

(** The second loop reads with the restored flags, writes what it reads,
    and raises nothing but the broken pipe of a failed write. *)
Lemma post_loop_facts turns :
  Forall (restored original_flags) (fst (post_loop original_flags turns))
  /\ chunks_written (fst (post_loop original_flags turns))
     = chunks_read (fst (post_loop original_flags turns))
  /\ match snd (post_loop original_flags turns) with
     | Broken =>
         exists body c,
           fst (post_loop original_flags turns) = body ++ [WriteFifo c false]
           /\ Forall sound body
     | Error _ => False
     | _ => Forall sound (fst (post_loop original_flags turns))
     end.
Proof.
  induction turns as [|t turns (IH1 & IH2 & IH3)]; cbn [post_loop].
  { split; [constructor|]. split; [done|]. constructor. }
  destruct (post_loop original_flags turns) as [evs r]. cbn [fst snd] in *.
  assert (forall a b,
    sound a -> sound b -> restored original_flags a -> restored original_flags b ->
    chunks_written [a; b] = chunks_read [a; b] ->
    Forall (restored original_flags) (a :: b :: evs)
    /\ chunks_written (a :: b :: evs) = chunks_read (a :: b :: evs)
    /\ match r with
       | Broken => exists body c, a :: b :: evs = body ++ [WriteFifo c false]
                                  /\ Forall sound body
       | Error _ => False
       | _ => Forall sound (a :: b :: evs)
       end) as Hgo.
  { intros a b Ha Hb Ra Rb Hc.
    split; [by repeat (apply Forall_cons_2; [done|])|]. split.
    - change (chunks_written ([a; b] ++ evs) = chunks_read ([a; b] ++ evs)).
      by rewrite chunks_read_app, chunks_written_app, Hc, IH2.
    - destruct r; try done; try by repeat (apply Forall_cons_2; [done|]).
      destruct IH3 as (body & c & -> & Hbody). exists (a :: b :: body), c.
      split; [done|]. by repeat (apply Forall_cons_2; [done|]). }
  destruct (post_read t) as [[|b chunk]|], (post_exit t), (post_write_ok t);
    cbn [fst snd];
    first [ by apply Hgo
          | split; [by repeat constructor|]; split; [done|];
            first [ by repeat (apply Forall_cons_2; [done|])
                  | eexists [_], _; split; [reflexivity|]; by repeat constructor ] ].
Qed.

Lemma cleanup_facts s :
  Forall (fun e => is_live_read e = false) (cleanup s)
  /\ Forall (fun e => is_failed_write e = false) (cleanup s)
  /\ chunks_read (cleanup s) = [] /\ chunks_written (cleanup s) = [].
Proof.
  unfold cleanup. rewrite !Forall_app, !chunks_read_app, !chunks_written_app.
  destruct (terminate_no_chunks Placeholder (final_placeholder s)) as [-> ->].
  destruct (terminate_no_chunks Live (final_live s)) as [-> ->].
  pose proof (terminate_sound Placeholder (final_placeholder s)) as S1.
  pose proof (terminate_sound Live (final_live s)) as S2.
  repeat split; try apply terminate_no_live_read;
    try (eapply Forall_impl; [eassumption|]; by intros ? [? _]);
    destruct (bool_decide _); repeat constructor.
Qed.

Lemma startup_facts :
  Forall (fun e => is_live_read e = false) (startup original_flags)
  /\ Forall sound (startup original_flags)
  /\ chunks_read (startup original_flags) = []
  /\ chunks_written (startup original_flags) = [].
Proof. repeat split; repeat constructor; done. Qed.


Lemma sound_not_failed evs e : Forall sound evs -> e ∈ evs -> is_failed_write e = false.
Proof. intros H Hin. rewrite Forall_forall in H. by destruct (H _ Hin). Qed.

Lemma sound_not_closed evs : Forall sound evs -> CloseFifo ∉ evs.
Proof. intros H Hin. rewrite Forall_forall in H. by destruct (H _ Hin). Qed.

(** ** [main], by the way its first loop ends *)

Lemma main_not_opened s :
  fifo_open s <> Some true ->
  main switch_grace original_flags s = (startup original_flags, Running)
  \/ main switch_grace original_flags s
     = (startup original_flags ++ [OpenFifo false] ++ cleanup s,
        Uncaught (OtherError "OSError")).
Proof. unfold main. destruct (fifo_open s) as [[|]|]; auto. done. Qed.

Lemma main_opened s evs1 r1 :
  fifo_open s = Some true ->
  pre_loop switch_grace original_flags (start_clock s) (pre s) = (evs1, r1) ->
  match r1 with
  | Unfinished =>
      main switch_grace original_flags s = (prologue original_flags ++ evs1, Running)
  | Error e =>
      main switch_grace original_flags s
      = (prologue original_flags ++ evs1 ++ cleanup s, Uncaught e)
  | Broken =>
      main switch_grace original_flags s
      = (prologue original_flags ++ evs1
           ++ [Log "[fifo-switch] FIFO reader closed, stopping"] ++ cleanup s, Returned)
  | Continue =>
      exists evs2,
        Forall (restored original_flags) evs2
        /\ chunks_written evs2 = chunks_read evs2
        /\ ((Forall sound evs2
             /\ (main switch_grace original_flags s
                 = (prologue original_flags ++ evs1 ++ evs2, Running)
                 \/ main switch_grace original_flags s
                    = (prologue original_flags ++ evs1 ++ evs2 ++ cleanup s, Returned)))
            \/ exists body c,
                 evs2 = body ++ [WriteFifo c false] /\ Forall sound body
                 /\ main switch_grace original_flags s
                    = (prologue original_flags ++ evs1 ++ body
                         ++ [WriteFifo c false; Log "[fifo-switch] FIFO reader closed, stopping"]
                         ++ cleanup s, Returned))
  end.
Proof.
  intros Ho Hpre. unfold main. rewrite Ho, Hpre.
  destruct r1; cbn [app]; rewrite <- ?app_assoc, ?app_nil_r; try done.
  destruct (post_loop_facts (post s)) as (H1 & H2 & H3).
  destruct (post_loop original_flags (post s)) as [evs2 r2]. cbn [fst snd] in *.
  exists evs2. split; [done|]. split; [done|].
  destruct r2; try done.
  - left. split; [done|]. right. by rewrite <- !app_assoc.
  - left. split; [done|]. left. done.
  - right. destruct H3 as (body & c & -> & Hb). exists body, c.
    split; [done|]. split; [done|]. by rewrite <- !app_assoc.
Qed.

End Switch.

Section SwitchClaims.
Import FifoSwitch.
Local Open Scope Z_scope.




End SwitchClaims.


(** * More on the continuity splicer *)

Section SplicerMore.
Import TsJoiner.
Local Open Scope Z_scope.

Ltac evaluated_bytes := apply is_bytes_check; vm_compute; reflexivity.

(** X1.  Decoding an encoded timestamp gives the value back modulo 2^33,
    for every integer, negative and oversized ones included: a value in
    range comes back as it is, and values 2^33 apart are encoded alike. *)
Theorem decode_after_encode (v : Z) :
  decode_pts (encode_pts v) = Ok (v mod 2 ^ 33)
  /\ (0 <= v < 2 ^ 33 -> decode_pts (encode_pts v) = Ok v)
  /\ encode_pts (v + 2 ^ 33) = encode_pts v.
Proof.
  assert (decode_pts (encode_pts v) = Ok (v mod 2 ^ 33)) as H
    by (by rewrite decode_encode_pts, land_PTS_MASK).
  split; [done|]. split.
  - intros Hv. rewrite H. f_equal. by apply Z.mod_small.
  - rewrite <- (encode_pts_mask (v + 2 ^ 33)), <- (encode_pts_mask v).
    f_equal. rewrite !Z.land_ones by lia.
    rewrite <- (Z.mul_1_l (2 ^ 33)) at 1. by rewrite Z.mod_add by lia.
Qed.

(** X2.  What [encode_pts] returns is always five bytes, each in range, so
    that [bytes([...])] cannot raise, with the marker bit of bytes 0, 2 and
    4 set. *)
Theorem encode_pts_well_formed (v : Z) :
  length (encode_pts v) = 5%nat
  /\ is_bytes (encode_pts v)
  /\ marker_bits_set (encode_pts v) = true.
Proof.
  destruct (encode_pts_bytes v) as [Hb Hl]. split; [done|]. split; [done|].
  unfold encode_pts, marker_bits_set. cbv zeta.
  rewrite !Z.land_spec, !Z.lor_spec. cbn. by rewrite !orb_true_r.
Qed.

Lemma getitem_Raise {R A} (l : list A) i e :
  0 <= i -> getitem (R:=R) l i = Raise e -> e = IndexError /\ Z.of_nat (length l) <= i.
Proof.
  intros Hi. rewrite getitem_nonneg by done.
  destruct (l !! Z.to_nat i) eqn:E; [done|].
  intros [= <-]. split; [done|]. apply lookup_ge_None in E. lia.
Qed.

Lemma decode_pts_slice packet pos :
  0 <= pos -> pos + 5 <= Z.of_nat (length packet) ->
  exists v, decode_pts (slice packet pos (pos + 5)) = Ok v.
Proof.
  intros Hp Hl.
  assert (length (slice packet pos (pos + 5)) = 5%nat) as H.
  { unfold slice. rewrite length_take, length_drop. lia. }
  destruct (slice packet pos (pos + 5)) as [|b0 [|b1 [|b2 [|b3 [|b4 [|]]]]]];
    try discriminate.
  eexists. reflexivity.
Qed.

(** One statement of [extract_pts], keeping the case in which it raises. *)
Ltac exec_step Hb H :=
  lazymatch type of H with
  | run (bind (bind _ _) _) = _ => rewrite bind_assoc in H
  | run (bind (Next _) _) = _ => cbn [bind] in H
  | run (bind (if ?c then _ else _) _) = _ =>
      destruct c eqn:?; cbn [bind run] in H; try discriminate H
  | run (if ?c then _ else _) = _ => destruct c eqn:?
  | run (bind (getitem ?l ?i) _) = _ =>
      let E := fresh "E" in
      destruct (getitem l i) eqn:E; cbn [bind run] in H;
      [ apply getitem_Next in E; [|lia];
        let Hr := fresh "Hr" in
        pose proof (Forall_lookup_1 _ _ _ _ Hb E) as Hr; cbv beta in Hr
      | by apply getitem_not_Return in E
      | apply getitem_Raise in E; [|lia] ]
  | run (bind (lift ?x) _) = _ =>
      let E := fresh "E" in
      destruct x eqn:E; cbn [lift bind run] in H
  end.

Ltac truths :=
  repeat match goal with
  | H : negb _ = false |- _ => apply negb_false_iff in H
  | H : negb _ = true |- _ => apply negb_true_iff in H
  | H : _ || _ = false |- _ => apply orb_false_iff in H; destruct H
  | H : (_ =? _) = true |- _ => apply Z.eqb_eq in H
  | H : (_ =? _) = false |- _ => apply Z.eqb_neq in H
  | H : (_ <? _) = false |- _ => apply Z.ltb_ge in H
  | H : (_ <? _) = true |- _ => apply Z.ltb_lt in H
  | H : (_ <=? _) = false |- _ => apply Z.leb_gt in H
  | H : (_ <=? _) = true |- _ => apply Z.leb_le in H
  end.

(** X3.  On bytes, [extract_pts] raises nothing but [IndexError], and only
    for a 188-byte packet with both adaptation field and payload whose
    adaptation field is 175, 176 or 177 bytes long: the payload then holds
    the six bytes the function checks for, but not the bytes at offsets 7
    and 8 that it reads. *)
Theorem extract_pts_raises_only_on_short_payload packet e :
  is_bytes packet ->
  extract_pts packet = Err e ->
  e = IndexError
  /\ length packet = 188%nat
  /\ exists p3 n,
       packet !! 3%nat = Some p3 /\ Z.land (Z.shiftr p3 4) 3 = 3
       /\ packet !! 4%nat = Some n /\ 175 <= n <= 177.
Proof.
  intros Hb H. unfold extract_pts, len, TS_PACKET_SIZE in H.
  repeat exec_step Hb H; truths; cbn [run] in H; try discriminate H.
  all: try (exfalso; lia).
  all: try match goal with
         | E : decode_pts (slice ?pk ?p _) = Err _ |- _ =>
             destruct (decode_pts_slice pk p ltac:(lia) ltac:(lia)) as [? ?]; congruence
         end.
  all: match goal with E : _ = IndexError /\ _ |- _ => destruct E as [-> Hlen] end.
  all: injection H as <-; split; [done|]; split; [lia|].
  all: match goal with
       | E3 : _ !! Z.to_nat 3 = Some ?p3, E4 : _ !! Z.to_nat 4 = Some ?n |- _ =>
           exists p3, n
       end.
  all: match goal with
       | Ho : _ || _ = true |- _ => apply orb_true_iff in Ho as [Ho | Ho]; truths
       end.
  all: repeat split; first [done | lia].
Qed.

Lemma extract_pts_raises_only_on_short_payload_witness :
  is_bytes truncated_pes_packet
  /\ extract_pts truncated_pes_packet = Err IndexError
  /\ IndexError = IndexError
  /\ length truncated_pes_packet = 188%nat
  /\ exists p3 n,
       truncated_pes_packet !! 3%nat = Some p3 /\ Z.land (Z.shiftr p3 4) 3 = 3
       /\ truncated_pes_packet !! 4%nat = Some n /\ 175 <= n <= 177.
Proof.
  assert (is_bytes truncated_pes_packet) as Hb by evaluated_bytes.
  assert (extract_pts truncated_pes_packet = Err IndexError) as He
    by (vm_compute; reflexivity).
  split; [exact Hb|]. split; [exact He|].
  exact (extract_pts_raises_only_on_short_payload truncated_pes_packet IndexError Hb He).
Defined.

(** X4.  Where [extract_pts] finds timestamps in a packet of bytes, the
    packet has 188 bytes, the five-byte fields lie inside it behind the
    PES header start, the decoding timestamp follows the presentation
    timestamp directly, and both values are below 2^33. *)
Theorem extract_pts_fields_inside_packet packet pts pos dts dts_pos :
  is_bytes packet ->
  extract_pts packet = Ok (Some (pts, pos, dts, dts_pos)) ->
  length packet = 188%nat
  /\ 13 <= pos /\ pos + 5 <= 188 /\ 0 <= pts < 2 ^ 33
  /\ match dts, dts_pos with
     | None, None => True
     | Some d, Some dp => dp = pos + 5 /\ dp + 5 <= 188 /\ 0 <= d < 2 ^ 33
     | _, _ => False
     end.
Proof.
  intros Hb H. destruct (extract_pts_Some _ _ _ _ _ Hb H) as (Hl & Hp & Hd & Hdts).
  assert (0 <= pts < 2 ^ 33) as Hpts.
  { eapply decode_pts_range; [|exact Hd]. by apply is_bytes_slice. }
  destruct dts as [d|], dts_pos as [dp|]; try done.
  destruct Hdts as (-> & He & Hd').
  repeat split; try lia; eapply decode_pts_range; try exact Hd'; by apply is_bytes_slice.
Qed.

Lemma extract_pts_fields_inside_packet_witness :
  is_bytes (pts_dts_packet 9000 6000)
  /\ extract_pts (pts_dts_packet 9000 6000) = Ok (Some (9000, 13, Some 6000, Some 18))
  /\ length (pts_dts_packet 9000 6000) = 188%nat
  /\ 13 <= 13 /\ 13 + 5 <= 188 /\ 0 <= 9000 < 2 ^ 33
  /\ (18 = 13 + 5 /\ 18 + 5 <= 188 /\ 0 <= 6000 < 2 ^ 33).
Proof.
  assert (is_bytes (pts_dts_packet 9000 6000)) as Hb by evaluated_bytes.
  assert (extract_pts (pts_dts_packet 9000 6000) = Ok (Some (9000, 13, Some 6000, Some 18)))
    as He by (vm_compute; reflexivity).
  split; [exact Hb|]. split; [exact He|].
  exact (extract_pts_fields_inside_packet _ _ _ _ _ Hb He).
Defined.

Lemma getitem_lookup {R A} (l : list A) i x :
  0 <= i -> l !! Z.to_nat i = Some x -> getitem (R:=R) l i = Next x.
Proof. intros Hi Hx. rewrite getitem_nonneg by done. by rewrite Hx. Qed.

Lemma extract_pts_no_unit_start packet p1 :
  length packet = 188%nat ->
  packet !! 1%nat = Some p1 -> Z.land p1 0x40 = 0 ->
  extract_pts packet = Ok None.
Proof.
  intros Hl H1 Hp.
  destruct packet as [|p0 [|p1' [|p2 [|p3 [|p4 rest]]]]]; try discriminate Hl.
  injection H1 as ->.
  unfold extract_pts, len, TS_PACKET_SIZE. rewrite Hl.
  change (negb (Z.of_nat 188 =? 188)) with false. cbn [bind].
  rewrite (getitem_lookup _ 0 p0) by done. cbn [bind].
  destruct (negb (p0 =? 71)); [done|]. cbn [bind].
  rewrite (getitem_lookup _ 1 p1) by done. cbn [bind].
  rewrite (getitem_lookup _ 3 p3) by done. cbn [bind].
  rewrite Hp. change (negb (negb (0 =? 0))) with true.
  destruct ((Z.land (p3 ≫ 4) 3 =? 2) || (Z.land (p3 ≫ 4) 3 =? 3)).
  - change (Z.of_nat 188 <=? 4) with false. cbn [bind].
    rewrite (getitem_lookup _ 4 p4) by done. cbn [bind].
    destruct ((Z.land (p3 ≫ 4) 3 =? 2) || (Z.of_nat 188 <=? 4 + (1 + p4))); done.
  - cbn [bind]. destruct ((Z.land (p3 ≫ 4) 3 =? 2) || (Z.of_nat 188 <=? 4)); done.
Qed.

(** X5.  A packet that is not 188 bytes long, does not begin with the sync
    byte, or does not start a payload unit is written exactly as read,
    from either source, and changes none of the loop's locals. *)
Theorem unparsed_packets_pass_through st ready packet :
  packet <> [] ->
  length packet <> 188%nat
  \/ hd 0 packet <> 0x47
  \/ (exists p1, packet !! 1%nat = Some p1 /\ Z.land p1 0x40 = 0) ->
  extract_pts packet = Ok None
  /\ iteration st (Turn ready packet)
     = Ok (Some (select_live st (Turn ready packet), [packet])).
Proof.
  intros Hne Hc.
  assert (extract_pts packet = Ok None) as He.
  { destruct (decide (length packet = 188%nat)) as [Hl|Hl];
      [|by apply extract_pts_wrong_length].
    destruct Hc as [Hc | [Hc | (p1 & H1 & Hp)]]; [done| |].
    - destruct packet as [|b packet]; [done|]. by apply extract_pts_wrong_sync.
    - by eapply extract_pts_no_unit_start. }
  split; [done|].
  unfold iteration. cbn [read]. destruct packet as [|b packet]; [done|].
  destruct (use_live _).
  - by rewrite live_packet_unparsed.
  - by rewrite placeholder_packet_unparsed.
Qed.

Lemma unparsed_packets_pass_through_witness :
  continuation_packet <> []
  /\ (length continuation_packet <> 188%nat
      \/ hd 0 continuation_packet <> 0x47
      \/ (exists p1, continuation_packet !! 1%nat = Some p1 /\ Z.land p1 0x40 = 0))
  /\ extract_pts continuation_packet = Ok None
  /\ iteration spliced (Turn false continuation_packet)
     = Ok (Some (select_live spliced (Turn false continuation_packet), [continuation_packet])).
Proof.
  assert (continuation_packet <> []) as Hne by discriminate.
  assert (length continuation_packet <> 188%nat
          \/ hd 0 continuation_packet <> 0x47
          \/ (exists p1, continuation_packet !! 1%nat = Some p1 /\ Z.land p1 0x40 = 0)) as Hc.
  { right. right. exists 0. split; reflexivity. }
  split; [exact Hne|]. split; [exact Hc|].
  exact (unparsed_packets_pass_through spliced false continuation_packet Hne Hc).
Defined.

(** The largest timestamp of a list, as the placeholder branch keeps it. *)
Lemma packets_read_cons t ts :
  packets_read (t :: ts)
  = match read t with [] => packets_read ts | p => p :: packets_read ts end.
Proof. unfold packets_read. cbn. by destruct (read t). Qed.

Lemma omap_cons_eq {A B} (f : A -> option B) x l :
  omap f (x :: l) = match f x with Some y => y :: omap f l | None => omap f l end.
Proof. reflexivity. Qed.

Lemma placeholder_run ts : forall st seen e outs,
  placeholder_only ts ->
  use_live st = false ->
  match placeholder_last_pts st with
  | None => seen = []
  | Some m => m ∈ seen /\ Forall (fun v => v <= m) seen
  end ->
  main_loop st ts = (e, outs) ->
  match e with
  | Running st' =>
      outs = packets_read ts
      /\ use_live st' = false
      /\ first_live_pts st' = first_live_pts st /\ pts_offset st' = pts_offset st
      /\ match placeholder_last_pts st' with
         | None => seen ++ omap packet_pts (packets_read ts) = []
         | Some m =>
             m ∈ seen ++ omap packet_pts (packets_read ts)
             /\ Forall (fun v => v <= m) (seen ++ omap packet_pts (packets_read ts))
         end
  | Finished _ => False
  | Crashed _ => outs `prefix_of` packets_read ts /\ outs <> packets_read ts
  end.
Proof.
  induction ts as [|t ts IH]; intros st seen e outs Hp Hu Hs H; cbn [main_loop] in H.
  - injection H as <- <-. cbn. rewrite app_nil_r. done.
  - apply Forall_cons in Hp as [Ht Hp].
    unfold iteration, select_live in H. rewrite Hu, Ht in H. cbn [negb andb] in H.
    rewrite Hu in H. rewrite packets_read_cons.
    destruct (read t) as [|b packet] eqn:Hr.
    + cbn [negb] in H.
      destruct (main_loop st ts) as [e1 outs1] eqn:Hm. injection H as <- <-.
      by apply (IH st seen).
    + unfold placeholder_packet in H.
      destruct (extract_pts (b :: packet)) as [[[[[pts pos] dts] dts_pos]|]|err] eqn:He;
        cbn [lift bind run] in H.
      * assert (packet_pts (b :: packet) = Some pts) as Hpp by (unfold packet_pts; by rewrite He).
        match type of H with
        | context [run (if ?c then _ else _)] => destruct c eqn:Hc
        end; cbn [run] in H;
        match type of H with
        | context [main_loop ?s ts] =>
            destruct (main_loop s ts) as [e1 outs1] eqn:Hm;
            specialize (IH s (seen ++ [pts]) e1 outs1 Hp)
        end; injection H as <- <-; cbn [use_live placeholder_last_pts] in IH.
        -- assert (pts ∈ seen ++ [pts] /\ Forall (fun v => v <= pts) (seen ++ [pts])) as Hn.
           { split; [set_solver|]. apply Forall_app. split; [|by repeat constructor].
             destruct (placeholder_last_pts st) as [m|].
             - apply Z.ltb_lt in Hc. destruct Hs as [_ Hs].
               eapply Forall_impl; [exact Hs|]. cbv beta. lia.
             - subst seen. constructor. }
           specialize (IH Hu Hn Hm). rewrite omap_cons_eq, Hpp.
           destruct e1; [| done |].
           ++ rewrite <- app_assoc in IH. cbn [app] in IH |- *.
              destruct IH as (-> & ? & ? & ? & ?). done.
           ++ destruct IH as [Hpre Hne]. split; [by apply prefix_cons|]. cbn. congruence.
        -- destruct (placeholder_last_pts st) as [m|] eqn:Hm0; [|done].
           apply Z.ltb_ge in Hc.
           assert (m ∈ seen ++ [pts] /\ Forall (fun v => v <= m) (seen ++ [pts])) as Hn.
           { destruct Hs as [Hin Hs]. split; [set_solver|].
             apply Forall_app. split; [done|]. by repeat constructor. }
           specialize (IH Hu Hn Hm). rewrite omap_cons_eq, Hpp.
           destruct e1; [| done |].
           ++ rewrite <- app_assoc in IH. cbn [app] in IH |- *.
              destruct IH as (-> & ? & ? & ? & ?). done.
           ++ destruct IH as [Hpre Hne]. split; [by apply prefix_cons|]. cbn. congruence.
      * assert (packet_pts (b :: packet) = None) as Hpp by (unfold packet_pts; by rewrite He).
        cbn [run] in H.
        destruct (main_loop st ts) as [e1 outs1] eqn:Hm. injection H as <- <-.
        specialize (IH st seen e1 outs1 Hp Hu Hs Hm). rewrite omap_cons_eq, Hpp.
        destruct e1; [| done |].
        -- destruct IH as (-> & ? & ? & ? & ?). done.
        -- destruct IH as [Hpre Hne]. split; [by apply prefix_cons|]. cbn. congruence.
      * injection H as <- <-. split; [apply prefix_nil|]. discriminate.
Qed.

(** X6.  While the selector never reports the live descriptor, the run
    neither ends nor alters anything: what was written is exactly the
    non-empty reads, in order, no offset is stored, and
    [placeholder_last_pts] is the largest timestamp found in them (none if
    there was none).  An exception cuts the output short. *)
Theorem placeholder_is_copied ts e outs :
  placeholder_only ts ->
  main_loop initial ts = (e, outs) ->
  match e with
  | Running st =>
      outs = packets_read ts
      /\ use_live st = false /\ first_live_pts st = None /\ pts_offset st = None
      /\ match placeholder_last_pts st with
         | None => omap packet_pts (packets_read ts) = []
         | Some m =>
             m ∈ omap packet_pts (packets_read ts)
             /\ Forall (fun v => v <= m) (omap packet_pts (packets_read ts))
         end
  | Finished _ => False
  | Crashed _ => outs `prefix_of` packets_read ts /\ outs <> packets_read ts
  end.
Proof.
  intros Hp H. exact (placeholder_run ts initial [] e outs Hp eq_refl eq_refl H).
Qed.

Lemma placeholder_is_copied_witness :
  placeholder_only (take 3 scenario)
  /\ main_loop initial (take 3 scenario)
     = (Running (State false (Some 90000) None None),
        [pts_packet 45000; pts_packet 90000; pts_packet 60000])
  /\ [pts_packet 45000; pts_packet 90000; pts_packet 60000] = packets_read (take 3 scenario)
  /\ 90000 ∈ omap packet_pts (packets_read (take 3 scenario))
  /\ Forall (fun v => v <= 90000) (omap packet_pts (packets_read (take 3 scenario))).
Proof.
  assert (placeholder_only (take 3 scenario)) as Hp by (repeat constructor).
  assert (main_loop initial (take 3 scenario)
          = (Running (State false (Some 90000) None None),
             [pts_packet 45000; pts_packet 90000; pts_packet 60000])) as Hm
    by (vm_compute; reflexivity).
  split; [exact Hp|]. split; [exact Hm|].
  pose proof (placeholder_is_copied (take 3 scenario) _ _ Hp Hm) as (H1 & _ & _ & _ & H2).
  split; [exact H1|]. exact H2.
Defined.

Lemma live_packet_retimed_only st packet st' out :
  is_bytes packet ->
  live_packet st packet = Ok (st', out) -> retimed_only packet out.
Proof.
  intros Hb H. unfold live_packet in H.
  destruct (extract_pts packet) as [[[[[pts pos] dts] dts_pos]|]|err] eqn:He;
    cbn [lift bind run] in H; [| |done].
  - match type of H with
    | context [match pts_offset ?s with _ => _ end] => destruct (pts_offset s) as [off|]
    end.
    + right. exists pts, pos, dts, dts_pos. split; [done|].
      destruct (retimed_spec _ _ _ _ _ off Hb He) as (_ & _ & Hs).
      unfold retimed in Hs.
      destruct dts, dts_pos; cbn [run] in H; injection H as <- <-; exact Hs.
    + left. cbn [run] in H. by injection H as <- <-.
  - left. by injection H as <- <-.
Qed.

Lemma placeholder_packet_same st packet st' out :
  placeholder_packet st packet = Ok (st', out) -> out = packet.
Proof.
  intros H. unfold placeholder_packet in H.
  destruct (extract_pts packet) as [[[[[pts pos] dts] dts_pos]|]|err];
    cbn [lift bind run] in H; [| |done].
  - repeat case_match; cbn [run] in H; by injection H as <- <-.
  - by injection H as <- <-.
Qed.

(** X7.  Every packet read is written once, in order, with its length and
    with nothing changed but the timestamp fields that [extract_pts]
    located in it; a run that is still going has written as many packets
    as it has read. *)
Theorem written_is_read_retimed ts : forall st e outs,
  Forall is_bytes (read <$> ts) ->
  main_loop st ts = (e, outs) ->
  Forall2 retimed_only (take (length outs) (packets_read ts)) outs
  /\ (forall st', e = Running st' -> length outs = length (packets_read ts)).
Proof.
  induction ts as [|t ts IH]; intros st e outs Hb H; cbn [main_loop] in H.
  - injection H as <- <-. split; [constructor|done].
  - rewrite fmap_cons in Hb. apply Forall_cons in Hb as [Hbt Hb].
    rewrite packets_read_cons.
    unfold iteration in H. set (st0 := select_live st t) in *.
    destruct (read t) as [|b packet] eqn:Hr.
    + destruct (negb (use_live st0)).
      * destruct (main_loop st0 ts) as [e1 outs1] eqn:Hm. injection H as <- <-.
        cbn [app]. by apply (IH st0).
      * injection H as <- <-. split; [constructor|done].
    + destruct (if use_live st0 then live_packet st0 (b :: packet)
                else placeholder_packet st0 (b :: packet)) as [[st1 out]|err] eqn:Hp.
      * destruct (main_loop st1 ts) as [e1 outs1] eqn:Hm. injection H as <- <-.
        destruct (IH _ _ _ Hb Hm) as [IH1 IH2].
        cbn [app length take]. split.
        -- constructor; [|done].
           destruct (use_live st0).
           ++ by eapply live_packet_retimed_only.
           ++ left. by eapply placeholder_packet_same.
        -- intros st' ->. cbn [length]. f_equal. by eapply IH2.
      * injection H as <- <-. split; [constructor|done].
Qed.

Lemma written_is_read_retimed_witness :
  Forall is_bytes (read <$> scenario)
  /\ main_loop initial scenario
     = (Running spliced,
        [pts_packet 45000; pts_packet 90000; pts_packet 60000;
         pts_packet 90000; pts_packet 99000])
  /\ Forall2 retimed_only (take 5 (packets_read scenario))
       [pts_packet 45000; pts_packet 90000; pts_packet 60000;
        pts_packet 90000; pts_packet 99000]
  /\ (forall st', Running spliced = Running st' -> 5%nat = length (packets_read scenario)).
Proof.
  assert (Forall is_bytes (read <$> scenario)) as Hb.
  { change (read <$> scenario)
      with [pts_packet 45000; pts_packet 90000; pts_packet 60000;
            pts_packet 0; pts_packet 9000].
    repeat (apply Forall_cons_2; [evaluated_bytes|]). constructor. }
  assert (main_loop initial scenario
          = (Running spliced,
             [pts_packet 45000; pts_packet 90000; pts_packet 60000;
              pts_packet 90000; pts_packet 99000])) as Hm by (vm_compute; reflexivity).
  split; [exact Hb|]. split; [exact Hm|].
  exact (written_is_read_retimed scenario initial _ _ Hb Hm).
Defined.

(** X8.  Once live and with the first live timestamp stored, the locals of
    the loop never change again: whatever is read afterwards, the offset
    and both reference timestamps stay as they are. *)
Theorem locals_frozen_after_first_live_timestamp ts : forall st f e outs,
  use_live st = true ->
  first_live_pts st = Some f ->
  main_loop st ts = (e, outs) ->
  match e with
  | Running st' | Finished st' => st' = st
  | Crashed _ => True
  end.
Proof.
  induction ts as [|t ts IH]; intros st f e outs Hu Hf H; cbn [main_loop] in H.
  - by injection H as <- <-.
  - assert (select_live st t = st) as Hs by (unfold select_live; by rewrite Hu).
    unfold iteration in H. rewrite !Hs, Hu in H.
    destruct (read t) as [|b packet].
    + cbn [negb] in H. by injection H as <- <-.
    + destruct (live_packet st (b :: packet)) as [[st1 out]|err] eqn:Hl.
      * assert (st1 = st) as ->.
        { unfold live_packet in Hl.
          destruct (extract_pts (b :: packet)) as [[[[[pts pos] dts] dts_pos]|]|err];
            cbn [lift bind run] in Hl; [| |done].
          - rewrite Hf in Hl.
            destruct (pts_offset st), dts, dts_pos; cbn [run] in Hl; congruence.
          - congruence. }
        destruct (main_loop st ts) as [e1 outs1] eqn:Hm. injection H as <- <-.
        by apply (IH st f e1 outs1).
      * by injection H as <- <-.
Qed.

Lemma locals_frozen_after_first_live_timestamp_witness :
  use_live spliced = true
  /\ first_live_pts spliced = Some 0
  /\ main_loop spliced [Turn false (pts_packet 9000); Turn true []]
     = (Finished spliced, [pts_packet 99000])
  /\ spliced = spliced.
Proof.
  assert (main_loop spliced [Turn false (pts_packet 9000); Turn true []]
          = (Finished spliced, [pts_packet 99000])) as Hm by (vm_compute; reflexivity).
  split; [reflexivity|]. split; [reflexivity|]. split; [exact Hm|].
  exact (locals_frozen_after_first_live_timestamp _ spliced 0 _ _ eq_refl eq_refl Hm).
Defined.

End SplicerMore.

(** * More on the TCP broadcast *)

Section BroadcastMore.
Import TcpSink.
Local Open Scope Z_scope.

Lemma offer_Completed world (ws : list writer) : forall (dead : gset writer) written d wr,
  offer world ws dead written = (Completed d, wr) ->
  forall w, w ∈ ws -> ends (world w).
Proof.
  induction ws as [|w0 ws IH]; intros dead written d wr H w Hin; [set_solver|].
  cbn [offer] in H. unfold ends.
  apply elem_of_cons in Hin as [-> | Hin].
  - destruct (world w0) as [|e|]; [auto| |done]. destruct e; try done; auto.
  - destruct (world w0) as [|e|]; [by eapply IH| |done].
    destruct e; try done; by eapply IH.
Qed.

(** What a completed [broadcast] has done. *)
Lemma broadcast_Completed s world s' written :
  broadcast s world = (Completed s', written) ->
  written = elements (clients s)
  /\ (forall w, w ∈ clients s -> ends (world w))
  /\ (forall w, w ∈ clients s' <-> w ∈ clients s /\ world w = Drained)
  /\ total_bytes s' = total_bytes s /\ shutdown_event s' = shutdown_event s.
Proof.
  unfold broadcast. intros H.
  destruct (offer world (elements (clients s)) ∅ []) as [[dead|e|w'] wr] eqn:Ho; try done.
  injection H as <- <-.
  assert (forall w, w ∈ clients s -> ends (world w)) as Hall.
  { intros w Hw. eapply offer_Completed; [exact Ho|]. set_solver. }
  destruct (offer_all_end world (elements (clients s)) ∅ []) as (dead' & Ho' & Hd).
  { intros w Hw. apply Hall. set_solver. }
  rewrite Ho in Ho'. injection Ho' as <- ->.
  split; [done|]. split; [done|]. split; [|apply close_all_keeps].
  intros w. rewrite clients_close_all. set_unfold. rewrite Hd. set_unfold. split.
  - intros [Hin Hnd]. split; [done|].
    destruct (Hall w Hin) as [E | [E | E]]; [done| |];
      exfalso; apply Hnd; right; split; [done|congruence| done | congruence].
  - intros [Hin E]. split; [done|]. intros [[]|[_ Hne]]. done.
Qed.

(** X9.  [broadcast] completes exactly when the drain of every connected
    client ends; a drain that raises anything but a connection reset or a
    broken pipe is not caught, and the exception leaves [broadcast]. *)
Theorem broadcast_completes_iff (s : server) world :
  ((exists s' written, broadcast s world = (Completed s', written))
   <-> forall w, w ∈ clients s -> ends (world w))
  /\ (forall w name,
        clients s = {[w]} -> world w = Raised (OtherError name) ->
        broadcast s world = (Failed (OtherError name), [w])).
Proof.
  split; [split|].
  - intros (s' & written & H). by eapply broadcast_Completed.
  - intros Hall. unfold broadcast.
    destruct (offer_all_end world (elements (clients s)) ∅ []) as (dead & -> & _).
    { intros w Hw. apply Hall. set_solver. }
    eauto.
  - intros w name Hs Hw. unfold broadcast. rewrite Hs, elements_singleton.
    cbn [offer]. by rewrite Hw.
Qed.

Lemma broadcast_no_clients s world :
  clients s = ∅ -> broadcast s world = (Completed s, []).
Proof.
  intros Hs. unfold broadcast. rewrite Hs, elements_empty. cbn [offer].
  rewrite elements_empty. reflexivity.
Qed.

Lemma consumer_no_clients inputs : forall s,
  clients s = ∅ -> shutdown_event s = false ->
  Forall (fun i => data i <> []) inputs ->
  exists s',
    stdin_consumer s inputs = (Completed s', (fun i => (data i, [])) <$> inputs, [])
    /\ clients s' = ∅
    /\ total_bytes s' = total_bytes s + Z.of_nat (length (concat (data <$> inputs))).
Proof.
  induction inputs as [|i inputs IH]; intros s Hc Hsh Hne.
  - exists s. cbn. rewrite Hsh. split; [done|]. split; [done|]. lia.
  - apply Forall_cons in Hne as [Hi Hne].
    cbn [stdin_consumer]. rewrite Hsh.
    destruct (data i) as [|b chunk] eqn:Hd; [done|].
    rewrite broadcast_no_clients by done.
    match goal with
    | |- context [stdin_consumer ?s0 inputs] =>
        destruct (IH s0) as (s' & -> & Hc' & Ht'); [done | done | done |]
    end.
    exists s'. rewrite !fmap_cons, Hd. split; [done|]. split; [done|].
    rewrite Ht'. cbn [total_bytes concat]. rewrite length_app. lia.
Qed.

(** X10.  With no client connected, the consumer reads standard input all
    the same: every chunk is counted in [total_bytes] and handed to
    nobody. *)
Theorem input_without_clients_is_discarded s inputs :
  clients s = ∅ -> shutdown_event s = false ->
  Forall (fun i => data i <> []) inputs ->
  exists s',
    stdin_consumer s inputs = (Completed s', (fun i => (data i, [])) <$> inputs, [])
    /\ clients s' = ∅
    /\ total_bytes s' = total_bytes s + Z.of_nat (length (concat (data <$> inputs))).
Proof. apply consumer_no_clients. Qed.

Lemma input_without_clients_is_discarded_witness :
  clients fresh = ∅ /\ shutdown_event fresh = false
  /\ Forall (fun i => data i <> []) [Input [71; 64] all_drain; Input [0] all_drain]
  /\ exists s',
       stdin_consumer fresh [Input [71; 64] all_drain; Input [0] all_drain]
       = (Completed s', [([71; 64], []); ([0], [])], [])
       /\ clients s' = ∅
       /\ total_bytes s' = 0 + 3.
Proof.
  assert (Forall (fun i => data i <> []) [Input [71; 64] all_drain; Input [0] all_drain])
    as Hne by (repeat constructor; discriminate).
  split; [reflexivity|]. split; [reflexivity|]. split; [exact Hne|].
  exact (input_without_clients_is_discarded fresh _ eq_refl eq_refl Hne).
Defined.

(** X11.  When the consumer's loop ends by itself, [total_bytes] has grown
    by the length of every chunk read, whoever received it; the chunks
    read are the leading non-empty reads, and with the unread ones and at
    most one empty read (end of input) they are the whole input. *)
Theorem total_bytes_counts_what_was_read inputs : forall s s' log unread,
  stdin_consumer s inputs = (Completed s', log, unread) ->
  total_bytes s' = total_bytes s + Z.of_nat (length (concat (log.*1)))
  /\ log.*1 = data <$> take (length log) inputs
  /\ Forall (fun c => c <> []) (log.*1)
  /\ (unread = drop (length log) inputs \/ unread = drop (S (length log)) inputs).
Proof.
  induction inputs as [|i inputs IH]; intros s s' log unread H; cbn [stdin_consumer] in H.
  - assert (s' = s /\ log = [] /\ unread = []) as (-> & -> & ->)
      by (destruct (shutdown_event s); by injection H as <- <- <-).
    cbn. repeat split; try constructor; auto; lia.
  - destruct (shutdown_event s).
    { injection H as <- <- <-. cbn. repeat split; try constructor; auto; lia. }
    destruct (data i) as [|b chunk] eqn:Hd.
    { injection H as <- <- <-. cbn. repeat split; try constructor; auto; lia. }
    match type of H with
    | context [broadcast ?s0 ?w] => destruct (broadcast s0 w) as [[s1|e|w1] written] eqn:Hb
    end; [|done|done].
    destruct (stdin_consumer s1 inputs) as [[r log1] unread1] eqn:Hc.
    injection H as -> <- <-.
    destruct (IH _ _ _ _ Hc) as (Ht & Hl & Hn & Hu).
    apply broadcast_Completed in Hb as (_ & _ & _ & Hb & _).
    cbn [total_bytes] in Hb.
    rewrite fmap_cons. cbn [fst concat length take drop]. rewrite fmap_cons, Hd.
    split; [rewrite Ht, Hb, length_app; lia|].
    split; [by rewrite Hl|]. split; [by constructor|]. done.
Qed.

Lemma total_bytes_counts_what_was_read_witness :
  stdin_consumer three_clients
    [Input [71; 64] one_resets; Input [0] all_drain; Input [] all_drain; Input [1] all_drain]
  = (Completed (Server {[1%nat; 3%nat]} 3 true false),
     [([71; 64], [2%nat; 3%nat; 1%nat]); ([0], [3%nat; 1%nat])],
     [Input [1] all_drain])
  /\ 3 = 0 + Z.of_nat (length (concat [[71; 64]; [0]])).
Proof.
  assert (stdin_consumer three_clients
            [Input [71; 64] one_resets; Input [0] all_drain; Input [] all_drain;
             Input [1] all_drain]
          = (Completed (Server {[1%nat; 3%nat]} 3 true false),
             [([71; 64], [2%nat; 3%nat; 1%nat]); ([0], [3%nat; 1%nat])],
             [Input [1] all_drain])) as H by (vm_compute; reflexivity).
  split; [exact H|].
  exact (proj1 (total_bytes_counts_what_was_read _ _ _ _ _ H)).
Defined.

Lemma offer_written world (ws : list writer) : forall (dead : gset writer) written r wr,
  offer world ws dead written = (r, wr) ->
  forall w, w ∈ wr -> w ∈ written \/ w ∈ ws.
Proof.
  induction ws as [|w0 ws IH]; intros dead written r wr H w Hw; cbn [offer] in H.
  - injection H as <- <-. auto.
  - assert (forall d, offer world ws d (written ++ [w0]) = (r, wr) ->
              w ∈ written \/ w ∈ w0 :: ws) as Hrec.
    { intros d Hd. destruct (IH _ _ _ _ Hd w Hw) as [Hin | Hin]; set_solver. }
    assert (w ∈ written ++ [w0] -> w ∈ written \/ w ∈ w0 :: ws) as Hnow by set_solver.
    destruct (world w0) as [|e|]; [by eapply Hrec| |by simplify_eq; auto].
    destruct e; first [by eapply Hrec | by simplify_eq; auto].
Qed.

Lemma broadcast_written s world r wr :
  broadcast s world = (r, wr) -> forall w, w ∈ wr -> w ∈ clients s.
Proof.
  unfold broadcast. intros H w Hw.
  destruct (offer world (elements (clients s)) ∅ []) as [[dead|e|w'] wr'] eqn:Ho;
    simplify_eq; destruct (offer_written _ _ _ _ _ _ Ho w Hw); set_solver.
Qed.

Lemma consumer_recipients inputs : forall s r log unread,
  stdin_consumer s inputs = (r, log, unread) ->
  forall k chunk ws w, log !! k = Some (chunk, ws) -> w ∈ ws -> w ∈ clients s.
Proof.
  induction inputs as [|i inputs IH]; intros s r log unread H k chunk ws w Hk Hw;
    cbn [stdin_consumer] in H.
  - destruct (shutdown_event s); by simplify_eq.
  - destruct (shutdown_event s); [by simplify_eq|].
    destruct (data i) as [|b c] eqn:Hd; [by simplify_eq|].
    match type of H with
    | context [broadcast ?s0 ?w] => destruct (broadcast s0 w) as [r1 written] eqn:Hb
    end.
    pose proof (broadcast_written _ _ _ _ Hb) as Hwr. cbn [clients] in Hwr.
    destruct r1 as [s1|e|w1].
    + destruct (stdin_consumer s1 inputs) as [[r1 log1] unread1] eqn:Hc.
      apply broadcast_Completed in Hb as (_ & _ & Hs1 & _). cbn [clients] in *.
      simplify_eq. destruct k as [|k]; cbn in Hk.
      * simplify_eq. auto.
      * specialize (IH _ _ _ _ Hc k chunk ws w Hk Hw). by destruct (proj1 (Hs1 w) IH).
    + simplify_eq. destruct k as [|k]; [|done]. cbn in Hk. simplify_eq. auto.
    + simplify_eq. destruct k as [|k]; [|done]. cbn in Hk. simplify_eq. auto.
Qed.

(** X12.  The consumer hands a chunk only to writers that were connected
    when it started, and a writer whose drain raised on one chunk is
    handed none of the later chunks. *)
Theorem dropped_client_gets_nothing_more inputs : forall s r log unread,
  stdin_consumer s inputs = (r, log, unread) ->
  (forall k chunk ws w, log !! k = Some (chunk, ws) -> w ∈ ws -> w ∈ clients s)
  /\ (forall k i chunk ws w k' chunk' ws',
        inputs !! k = Some i -> log !! k = Some (chunk, ws) ->
        w ∈ ws -> world i w <> Drained ->
        (k < k')%nat -> log !! k' = Some (chunk', ws') -> w ∉ ws').
Proof.
  induction inputs as [|i0 inputs IH]; intros s r log unread H.
  { split; [by eapply consumer_recipients|]. intros k i chunk ws w k' chunk' ws' Hi. done. }
  split; [by eapply consumer_recipients|].
  intros k i chunk ws w k' chunk' ws' Hi Hk Hw Hnd Hlt Hk'.
  cbn [stdin_consumer] in H.
  destruct (shutdown_event s); [by simplify_eq|].
  destruct (data i0) as [|b c] eqn:Hd; [by simplify_eq|].
  match type of H with
  | context [broadcast ?s0 ?w] => destruct (broadcast s0 w) as [[s1|e|w1] written] eqn:Hb
  end.
  - destruct (stdin_consumer s1 inputs) as [[r1 log1] unread1] eqn:Hc.
    apply broadcast_Completed in Hb as (_ & _ & Hs1 & _). cbn [clients] in *.
    simplify_eq. destruct k' as [|k']; [lia|]. cbn in Hk'.
    destruct k as [|k]; cbn in Hk, Hi.
    + simplify_eq. intros Hin.
      pose proof (consumer_recipients _ _ _ _ _ Hc _ _ _ _ Hk' Hin) as Hcl.
      by destruct (proj1 (Hs1 w) Hcl).
    + destruct (IH _ _ _ _ Hc) as [_ IH2].
      eapply (IH2 k i chunk ws w k' chunk' ws'); eauto. lia.
  - simplify_eq. destruct k' as [|k']; [lia|]. done.
  - simplify_eq. destruct k' as [|k']; [lia|]. done.
Qed.

Lemma dropped_client_gets_nothing_more_witness :
  stdin_consumer three_clients [Input [71; 64] one_resets; Input [0] all_drain]
  = (Completed (Server {[1%nat; 3%nat]} 3 true false),
     [([71; 64], [2%nat; 3%nat; 1%nat]); ([0], [3%nat; 1%nat])], [])
  /\ 2%nat ∉ [3%nat; 1%nat].
Proof.
  assert (stdin_consumer three_clients [Input [71; 64] one_resets; Input [0] all_drain]
          = (Completed (Server {[1%nat; 3%nat]} 3 true false),
             [([71; 64], [2%nat; 3%nat; 1%nat]); ([0], [3%nat; 1%nat])], [])) as H
    by (vm_compute; reflexivity).
  split; [exact H|].
  refine (proj2 (dropped_client_gets_nothing_more _ _ _ _ _ H)
            0%nat (Input [71; 64] one_resets) [71; 64] [2%nat; 3%nat; 1%nat] 2%nat
            1%nat [0] [3%nat; 1%nat] eq_refl eq_refl _ _ _ eq_refl).
  - set_solver.
  - vm_compute. discriminate.
  - lia.
Defined.

(** X13.  With [--stop-on-disconnect], when the last client leaves,
    [shutdown_event] is set and the consumer reads no further input;
    while another client remains, a disconnect only removes the writer. *)
Theorem last_disconnect_stops_reading s w :
  clients s ⊆ {[w]} ->
  shutdown_event (on_disconnect true s w) = true
  /\ clients (on_disconnect true s w) = ∅
  /\ (forall inputs,
        stdin_consumer (on_disconnect true s w) inputs
        = (Completed (on_disconnect true s w), [], inputs))
  /\ (forall s0 w', w' ∈ clients s0 -> w' <> w ->
        on_disconnect true s0 w = close_client s0 w).
Proof.
  intros Hs. unfold on_disconnect. cbv zeta. cbn [andb].
  assert (clients (close_client s w) = ∅) as He by (cbn; set_solver).
  rewrite bool_decide_eq_true_2 by done. cbn [shutdown_event clients].
  split; [done|]. split; [done|]. split.
  - intros inputs. by destruct inputs.
  - intros s0 w' Hin Hne. rewrite bool_decide_eq_false_2; [done|].
    cbn. set_solver.
Qed.

Lemma last_disconnect_stops_reading_witness :
  clients (on_connect fresh 7%nat) ⊆ {[7%nat]}
  /\ shutdown_event (on_disconnect true (on_connect fresh 7%nat) 7%nat) = true
  /\ stdin_consumer (on_disconnect true (on_connect fresh 7%nat) 7%nat) [Input [71] all_drain]
     = (Completed (on_disconnect true (on_connect fresh 7%nat) 7%nat), [], [Input [71] all_drain]).
Proof.
  assert (clients (on_connect fresh 7%nat) ⊆ {[7%nat]}) as H by (cbn; set_solver).
  split; [exact H|].
  pose proof (last_disconnect_stops_reading (on_connect fresh 7%nat) 7%nat H) as (H1 & _ & H2 & _).
  split; [exact H1|]. exact (H2 _).
Defined.

(** X14.  Without [--stop-on-disconnect] no sequence of connections and
    disconnections sets [shutdown_event]; with or without it,
    [client_ready] and [shutdown_event], once set, stay set, and the byte
    count is left alone. *)
Theorem connections_keep_events stop cs : forall s,
  shutdown_event (foldl (handle_client false) s cs) = shutdown_event s
  /\ (client_ready s = true -> client_ready (foldl (handle_client stop) s cs) = true)
  /\ (shutdown_event s = true -> shutdown_event (foldl (handle_client stop) s cs) = true)
  /\ total_bytes (foldl (handle_client stop) s cs) = total_bytes s.
Proof.
  induction cs as [|c cs IH]; intros s; [done|]. cbn [foldl].
  destruct (IH (handle_client false s c)) as (IH1 & _).
  destruct (IH (handle_client stop s c)) as (_ & IH2 & IH3 & IH4).
  rewrite IH1, IH4.
  assert (forall b, client_ready (handle_client b s c) = true \/
                    client_ready (handle_client b s c) = client_ready s) as Hr.
  { intros b. destruct c as [w|w]; [by left|]. right.
    unfold handle_client, on_disconnect. cbv zeta. by case_match. }
  assert (forall b, shutdown_event s = true -> shutdown_event (handle_client b s c) = true) as Hsh.
  { intros b Hb. destruct c as [w|w]; [done|].
    unfold handle_client, on_disconnect. cbv zeta. by case_match. }
  split; [|split; [|split]].
  - by destruct c.
  - intros H. apply IH2. destruct (Hr stop) as [-> | ->]; done.
  - intros H. apply IH3. by apply Hsh.
  - destruct c as [w|w]; [done|].
    unfold handle_client, on_disconnect. cbv zeta. by case_match.
Qed.

(** X15.  [--wait-for-client] holds the input back only until the first
    connection: before it the consumer waits; once that client has left
    again (without [--stop-on-disconnect]) the consumer reads the input,
    counts it and hands it to nobody. *)
Theorem wait_for_client_only_until_first w inputs :
  stdin_task true fresh inputs = None
  /\ (Forall (fun i => data i <> []) inputs ->
      exists s',
        stdin_task true (on_disconnect false (on_connect fresh w) w) inputs
        = Some (Completed s', (fun i => (data i, [])) <$> inputs, [])
        /\ total_bytes s' = Z.of_nat (length (concat (data <$> inputs))))
  /\ stdin_task false fresh inputs = Some (stdin_consumer fresh inputs).
Proof.
  split; [done|]. split; [|done].
  intros Hne.
  destruct (consumer_no_clients inputs (on_disconnect false (on_connect fresh w) w))
    as (s' & Hc & _ & Ht); [cbn; set_solver | done | done |].
  exists s'. split; [|by rewrite Ht].
  unfold stdin_task. cbn [andb on_disconnect]. by rewrite <- Hc.
Qed.

End BroadcastMore.

(** * More on the stub supervisor *)

Section SupervisorMore.
Import Stub.
Local Open Scope Z_scope.

Lemma Qmax_0_nonneg (x : Q) : (0 <= Qmax 0 x)%Q.
Proof. apply Q.le_max_l. Qed.

Lemma int_of_nonneg (x : Q) : (0 <= x)%Q -> 0 <= int_of x.
Proof.
  intros H. unfold int_of. apply Z.quot_pos; [|lia].
  unfold Qle in H. cbn in H. lia.
Qed.

Lemma update_metrics_fields m now op :
  _profiles (_update_metrics m now op) = _profiles m
  /\ _pipelines (_update_metrics m now op) = _pipelines m
  /\ _metric_tasks (_update_metrics m now op) = _metric_tasks m
  /\ tasks_created (_update_metrics m now op) = tasks_created m
  /\ tasks_cancelled (_update_metrics m now op) = tasks_cancelled m.
Proof. unfold _update_metrics. by repeat case_match. Qed.

Lemma update_metrics_lookup m now op op' :
  _metrics (_update_metrics m now op) !! op'
  = match _pipelines m !! op, _metrics m !! op with
    | Some st, Some x =>
        if decide (op = op') then
          let elapsed := Qmax 0 (now - started_at st)%Q in
          Some (if Qeq_bool elapsed 0 then
                  Metrics (metrics_op_id x) 0 (int_of (elapsed * 1000)%Q) 0 (Some now)
                else
                  Metrics (metrics_op_id x) (int_of ((1500000 / 8) * elapsed)%Q)
                    (int_of (elapsed * 1000)%Q) 1500 (Some now))
        else _metrics m !! op'
    | _, _ => _metrics m !! op'
    end.
Proof.
  unfold _update_metrics.
  destruct (_pipelines m !! op) as [st|]; [|done].
  destruct (_metrics m !! op) as [x|]; [|done].
  cbn [_metrics]. destruct (decide (op = op')) as [<-|Hne].
  - rewrite lookup_insert_eq. by destruct (Qeq_bool _ _).
  - by rewrite lookup_insert_ne.
Qed.

Lemma update_metrics_kept m now op :
  well_kept m -> well_kept (_update_metrics m now op).
Proof.
  intros (Hp & Hd & Hs & Hx & Ht & Hc).
  destruct (update_metrics_fields m now op) as (E1 & E2 & E3 & E4 & E5).
  unfold well_kept, status_kept. rewrite E1, E2, E3, E4, E5.
  split; [done|]. split; [|split; [done|split; [|done]]].
  - intros op'. rewrite update_metrics_lookup, Hd.
    destruct (_pipelines m !! op) as [st|] eqn:Hst; [|done].
    destruct (_metrics m !! op) as [x|] eqn:Hxo; [|done].
    destruct (decide (op = op')) as [<-|]; [|done].
    rewrite Hxo. split; eauto.
  - intros op' x'. rewrite update_metrics_lookup.
    destruct (_pipelines m !! op) as [st|] eqn:Hst; [|by apply Hx].
    destruct (_metrics m !! op) as [x|] eqn:Hxo; [|by apply Hx].
    destruct (decide (op = op')) as [<-|]; [|by apply Hx].
    destruct (Hx _ _ Hxo) as (Hid & _).
    cbv zeta. intros [= <-].
    pose proof (Qmax_0_nonneg (now - started_at st)) as Hge.
    assert (0 <= int_of (Qmax 0 (now - started_at st) * 1000)%Q) as H1.
    { apply int_of_nonneg. apply Qmult_le_0_compat; [done|]. by unfold Qle. }
    assert (0 <= int_of ((1500000 / 8) * Qmax 0 (now - started_at st))%Q) as H2.
    { apply int_of_nonneg. apply Qmult_le_0_compat; [|done]. by unfold Qle. }
    unfold metrics_kept. destruct (Qeq_bool _ _); cbn; auto 10 with lia.
Qed.

Lemma init_kept : well_kept init.
Proof.
  unfold well_kept. split; [done|]. split; [|split; [done|split; [done|split; [done|]]]].
  - intros op. cbn. rewrite !lookup_empty. done.
  - intros t. cbn. set_solver.
Qed.

Lemma start_pipeline_kept m now op chan profile_name :
  well_kept m ->
  exists st m',
    start_pipeline m now op chan profile_name = Ok (st, m')
    /\ st = Status op chan "stub" now "running" "127.0.0.1" 5001
              ("/tmp/" +:+ op +:+ ".mpg") ("/tmp/" +:+ op +:+ ".log") None None 0 None
    /\ _pipelines m' = <[op := st]> (_pipelines m)
    /\ _metrics m' = <[op := Metrics op 0 0 0 None]> (_metrics m)
    /\ _metric_tasks m' = <[op := tasks_created m]> (_metric_tasks m)
    /\ tasks_cancelled m' = tasks_cancelled m
    /\ well_kept m'.
Proof.
  intros (Hp & Hd & Hs & Hx & Ht & Hc). unfold start_pipeline. rewrite Hp.
  assert (exists p, match profiles_get (_profiles init) profile_name with
                    | Some p => Some p
                    | None => match _profiles init with
                              | (_, p) :: _ => Some p
                              | [] => None
                              end
                    end = Some p /\ name p = "stub"%string
                    /\ profile_listen_port p = Some 5001) as (p & -> & Hn & Hport).
  { cbn. destruct (decide _); by exists stub_profile. }
  rewrite Hn, Hport. change (5001 =? 0) with false. cbv iota.
  eexists _, _. split; [reflexivity|]. split; [done|].
  cbn [_pipelines _metrics _metric_tasks tasks_cancelled].
  split; [done|]. split; [done|]. split; [done|]. split; [done|].
  unfold well_kept, status_kept.
  cbn [_profiles _pipelines _metrics _metric_tasks tasks_cancelled tasks_created].
  split; [done|]. split; [|split; [|split; [|split]]].
  - intros op'. destruct (decide (op = op')) as [<-|Hne].
    + rewrite !lookup_insert_eq. split; eauto.
    + rewrite !lookup_insert_ne by done. apply Hd.
  - intros op' st'. destruct (decide (op = op')) as [<-|Hne].
    + rewrite !lookup_insert_eq. intros [= <-]. cbn. eauto 10.
    + rewrite !lookup_insert_ne by done. apply Hs.
  - intros op' x. destruct (decide (op = op')) as [<-|Hne].
    + rewrite !lookup_insert_eq. intros [= <-]. unfold metrics_kept. cbn. split_and!; [done|lia|lia|auto].
    + rewrite !lookup_insert_ne by done. apply Hx.
  - intros op' t. destruct (decide (op = op')) as [<-|Hne].
    + rewrite !lookup_insert_eq. intros [= <-]. split; [lia|]. split.
      * intros Hin. apply Hc in Hin. lia.
      * intros op'. destruct (decide (op = op')) as [<-|Hne]; [done|].
        rewrite lookup_insert_ne by done. intros H. apply Ht in H as [? _]. lia.
    + rewrite !lookup_insert_ne by done. intros H.
      destruct (Ht _ _ H) as (Hlt & Hnc & Hinj).
      split; [lia|]. split; [done|].
      intros op''. destruct (decide (op = op'')) as [<-|Hne'].
      * rewrite lookup_insert_eq. intros [= E]. lia.
      * rewrite lookup_insert_ne by done. apply Hinj.
  - intros t Hin. apply Hc in Hin. lia.
Qed.

(** [stop_pipeline] on a known operation, in two steps: the bookkeeping,
    then the metrics update. *)
Lemma stop_pipeline_known m now op st :
  _pipelines m !! op = Some st ->
  let st' := Status (op_id st) (channel st) (profile st) (started_at st) "stopped"
               (listen_host st) (listen_port st) (outfile st) (log_file st) (pgid st)
               (Some now) (restart_count st) (last_error st) in
  let m1 := Manager (_profiles m) (<[op := st']> (_pipelines m)) (_metrics m)
              (delete op (_metric_tasks m)) (tasks_created m)
              (match _metric_tasks m !! op with
               | Some t => {[t]} ∪ tasks_cancelled m
               | None => tasks_cancelled m
               end) in
  stop_pipeline m now op = Ok (true, _update_metrics m1 now op).
Proof.
  intros Hst. cbv zeta. unfold stop_pipeline. rewrite Hst. do 2 f_equal.
  unfold _update_metrics. cbn [_pipelines _metrics].
  rewrite lookup_insert_eq. by destruct (_metrics m !! op).
Qed.

Lemma stop_pipeline_kept m now op :
  well_kept m -> well_kept (perform m (StopPipeline now op)).
Proof.
  intros Hk. cbn [perform].
  destruct (_pipelines m !! op) as [st|] eqn:Hst;
    [|by unfold stop_pipeline; rewrite Hst].
  rewrite (stop_pipeline_known _ _ _ _ Hst). cbv zeta.
  apply update_metrics_kept.
  destruct Hk as (Hp & Hd & Hs & Hx & Ht & Hc).
  unfold well_kept, status_kept.
  cbn [_profiles _pipelines _metrics _metric_tasks tasks_cancelled tasks_created].
  destruct (Hs _ _ Hst) as (S1 & S2 & S3 & S4 & S5 & _).
  split; [done|]. split; [|split; [|split; [done|split]]].
  - intros op'. rewrite <- Hd. destruct (decide (op = op')) as [<-|Hne].
    + rewrite lookup_insert_eq, Hst. split; eauto.
    + by rewrite lookup_insert_ne.
  - intros op' st'. destruct (decide (op = op')) as [<-|Hne].
    + rewrite lookup_insert_eq, lookup_delete_eq. intros [= <-]. cbn. eauto 10.
    + rewrite lookup_insert_ne, lookup_delete_ne by done. apply Hs.
  - intros op' t. destruct (decide (op = op')) as [<-|Hne].
    + by rewrite lookup_delete_eq.
    + rewrite lookup_delete_ne by done. intros H.
      destruct (Ht _ _ H) as (Hlt & Hnc & Hinj).
      split; [done|]. split.
      * destruct (_metric_tasks m !! op) as [t0|] eqn:Ht0; [|done].
        intros [->%elem_of_singleton | Hin]%elem_of_union; [|done].
        apply Hne. by apply Hinj.
      * intros op''. destruct (decide (op = op'')) as [<-|Hne'].
        -- by rewrite lookup_delete_eq.
        -- rewrite lookup_delete_ne by done. apply Hinj.
  - intros t. destruct (_metric_tasks m !! op) as [t0|] eqn:Ht0; [|apply Hc].
    intros [->%elem_of_singleton | Hin]%elem_of_union; [|by apply Hc].
    by destruct (Ht _ _ Ht0).
Qed.

Lemma remove_pipeline_kept m op :
  well_kept m -> well_kept (remove_pipeline m op).
Proof.
  intros (Hp & Hd & Hs & Hx & Ht & Hc).
  unfold well_kept, status_kept, remove_pipeline.
  cbn [_profiles _pipelines _metrics _metric_tasks tasks_cancelled tasks_created].
  split; [done|]. split; [|split; [|split; [|split]]].
  - intros op'. destruct (decide (op = op')) as [<-|Hne].
    + rewrite !lookup_delete_eq. split; intros [? ?]; done.
    + rewrite !lookup_delete_ne by done. apply Hd.
  - intros op' st'. destruct (decide (op = op')) as [<-|Hne].
    + by rewrite lookup_delete_eq.
    + rewrite !lookup_delete_ne by done. apply Hs.
  - intros op' x. destruct (decide (op = op')) as [<-|Hne].
    + by rewrite lookup_delete_eq.
    + rewrite !lookup_delete_ne by done. apply Hx.
  - intros op' t. destruct (decide (op = op')) as [<-|Hne].
    + by rewrite lookup_delete_eq.
    + rewrite lookup_delete_ne by done. intros H.
      destruct (Ht _ _ H) as (Hlt & Hnc & Hinj).
      split; [done|]. split.
      * destruct (_metric_tasks m !! op) as [t0|] eqn:Ht0; [|done].
        intros [->%elem_of_singleton | Hin]%elem_of_union; [|done].
        apply Hne. by apply Hinj.
      * intros op''. destruct (decide (op = op'')) as [<-|Hne'].
        -- by rewrite lookup_delete_eq.
        -- rewrite lookup_delete_ne by done. apply Hinj.
  - intros t. destruct (_metric_tasks m !! op) as [t0|] eqn:Ht0; [|apply Hc].
    intros [->%elem_of_singleton | Hin]%elem_of_union; [|by apply Hc].
    by destruct (Ht _ _ Ht0).
Qed.

Lemma perform_kept m c : well_kept m -> well_kept (perform m c).
Proof.
  intros Hk. destruct c as [now op chan pn|now op|op|now op|now op].
  - cbn [perform].
    destruct (start_pipeline_kept m now op chan pn Hk) as (st & m' & -> & _ & _ & _ & _ & _ & ?).
    done.
  - by apply stop_pipeline_kept.
  - by apply remove_pipeline_kept.
  - cbn [perform]. unfold get_metrics.
    destruct (_pipelines m !! op); [|done].
    destruct (_metrics m !! op); [|done]. by apply update_metrics_kept.
  - cbn [perform]. unfold _simulate_metrics.
    repeat case_match; cbn [fst]; by apply update_metrics_kept.
Qed.

Lemma supervisor_tables_consistent_aux (cs : list call) :
  well_kept (foldl perform init cs).
Proof.
  assert (forall m, well_kept m -> well_kept (foldl perform m cs)) as H.
  { induction cs as [|c cs IH]; intros m Hm; [done|].
    cbn [foldl]. by apply IH, perform_kept. }
  apply H, init_kept.
Qed.

(** X16.  Whatever calls are made on a stub supervisor, in whatever order
    and at whatever clock readings, its tables stay consistent: an
    operation has a status exactly when it has metrics; every status is
    stored under its own id with profile "stub" on 127.0.0.1:5001 and is
    either running with a metrics task or stopped with an end time and
    without one; metrics are never negative, with a bitrate of 0 or 1500;
    a registered task was never cancelled and belongs to one operation. *)
Theorem supervisor_tables_consistent (cs : list call) :
  well_kept (foldl perform init cs).
Proof. apply supervisor_tables_consistent_aux. Qed.

Lemma Qmax_0_pos (x : Q) : (0 < x)%Q -> Qmax 0 x = x /\ Qeq_bool x 0 = false.
Proof.
  intros H. split.
  - unfold Qmax, GenericMinMax.gmax.
    destruct (0 ?= x)%Q eqn:E; try done; exfalso.
    + apply Qeq_alt in E. rewrite <- E in H. by apply Qlt_irrefl in H.
    + apply Qgt_alt in E. eapply Qlt_irrefl, Qlt_trans; eauto.
  - destruct (Qeq_bool x 0) eqn:E; [|done].
    apply Qeq_bool_iff in E. rewrite E in H. by apply Qlt_irrefl in H.
Qed.

Lemma Qmax_0_nonpos (x : Q) :
  (x <= 0)%Q -> Qeq_bool (Qmax 0 x) 0 = true /\ int_of (Qmax 0 x * 1000)%Q = 0.
Proof.
  intros H.
  assert (Qmax 0 x == 0)%Q as E.
  { apply Qle_antisym; [|apply Q.le_max_l]. apply Q.max_lub; [apply Qle_refl|done]. }
  split; [by apply Qeq_bool_iff|].
  unfold Qeq in E. cbn in E. unfold int_of. cbn [Qnum Qmult].
  assert (Qnum (Qmax 0 x) = 0) as -> by lia. reflexivity.
Qed.

Lemma get_metrics_known m now op st x :
  _pipelines m !! op = Some st -> _metrics m !! op = Some x ->
  get_metrics m now op
  = Ok (Some (let elapsed := Qmax 0 (now - started_at st)%Q in
              if Qeq_bool elapsed 0 then
                Metrics (metrics_op_id x) 0 (int_of (elapsed * 1000)%Q) 0 (Some now)
              else
                Metrics (metrics_op_id x) (int_of ((1500000 / 8) * elapsed)%Q)
                  (int_of (elapsed * 1000)%Q) 1500 (Some now)),
        _update_metrics m now op).
Proof.
  intros Hst Hx. unfold get_metrics. rewrite Hst, Hx.
  rewrite update_metrics_lookup, Hst, Hx. by rewrite decide_True.
Qed.

Lemma elapsed_metrics (t0 t1 : Q) (op : string) :
  let elapsed := Qmax 0 (t1 - t0)%Q in
  let x := if Qeq_bool elapsed 0 then
             Metrics op 0 (int_of (elapsed * 1000)%Q) 0 (Some t1)
           else
             Metrics op (int_of ((1500000 / 8) * elapsed)%Q)
               (int_of (elapsed * 1000)%Q) 1500 (Some t1) in
  ((t1 <= t0)%Q -> x = Metrics op 0 0 0 (Some t1))
  /\ ((t0 < t1)%Q ->
      x = Metrics op (int_of (1500000 / 8 * (t1 - t0))%Q)
            (int_of ((t1 - t0) * 1000)%Q) 1500 (Some t1)).
Proof.
  cbv zeta. split.
  - intros Hle.
    destruct (Qmax_0_nonpos (t1 - t0)) as [-> ->]; [|done].
    apply (Qplus_le_l _ _ t0). ring_simplify. done.
  - intros Hlt.
    destruct (Qmax_0_pos (t1 - t0)) as [-> ->]; [|done].
    apply (Qplus_lt_l _ _ t0). ring_simplify. done.
Qed.

Lemma int_of_floor (x : Q) : (0 <= x)%Q -> int_of x = Qfloor x.
Proof.
  intros H. unfold int_of, Qfloor. destruct x as [n d]. cbn [Qnum Qden].
  apply Z.quot_div_nonneg; [|lia]. unfold Qle in H. cbn in H. lia.
Qed.

Lemma int_of_mono (x y : Q) : (0 <= x)%Q -> (x <= y)%Q -> int_of x <= int_of y.
Proof.
  intros Hx Hxy. rewrite !int_of_floor; [|by eapply Qle_trans|done].
  by apply Qfloor_resp_le.
Qed.

(** What [get_metrics] stores and returns for an operation started at [t0],
    by the clock alone: zeros up to the start time; afterwards 1500
    kbit/s and counters that are not negative and do not go down when the
    clock goes on. *)
Lemma elapsed_metrics_mono (t0 t1 t2 : Q) (op : string) :
  let x (t : Q) :=
    let elapsed := Qmax 0 (t - t0)%Q in
    if Qeq_bool elapsed 0 then
      Metrics op 0 (int_of (elapsed * 1000)%Q) 0 (Some t)
    else
      Metrics op (int_of ((1500000 / 8) * elapsed)%Q)
        (int_of (elapsed * 1000)%Q) 1500 (Some t) in
  metrics_op_id (x t1) = op /\ updated_at (x t1) = Some t1
  /\ 0 <= out_time_ms (x t1) /\ 0 <= bytes_total (x t1)
  /\ ((t0 < t1)%Q -> bitrate_kbps (x t1) = 1500)
  /\ ((t1 <= t2)%Q ->
      out_time_ms (x t1) <= out_time_ms (x t2)
      /\ bytes_total (x t1) <= bytes_total (x t2)
      /\ bitrate_kbps (x t1) <= bitrate_kbps (x t2)).
Proof.
  cbv zeta.
  assert (forall t, (0 <= Qmax 0 (t - t0))%Q) as Hpos by (intros t; apply Q.le_max_l).
  assert (forall t, (0 <= Qmax 0 (t - t0) * 1000)%Q) as Hms.
  { intros t. apply Qmult_le_0_compat; [apply Hpos|done]. }
  assert (forall t, (0 <= 1500000 / 8 * Qmax 0 (t - t0))%Q) as Hby.
  { intros t. apply Qmult_le_0_compat; [done|apply Hpos]. }
  assert (forall t, (t0 < t)%Q -> Qeq_bool (Qmax 0 (t - t0)) 0 = false) as Hlater.
  { intros t Ht. destruct (Qmax_0_pos (t - t0)) as [E E']; [|by rewrite E].
    apply (Qplus_lt_l _ _ t0). ring_simplify. done. }
  split; [by destruct (Qeq_bool _ _)|]. split; [by destruct (Qeq_bool _ _)|].
  split; [destruct (Qeq_bool _ _); cbn; by apply int_of_nonneg|].
  split; [destruct (Qeq_bool _ _); cbn; [done|by apply int_of_nonneg]|].
  split; [intros Ht; by rewrite Hlater|].
  intros H12.
  assert (Qmax 0 (t1 - t0) <= Qmax 0 (t2 - t0))%Q as Hmono.
  { apply Q.max_le_compat_l. apply Qplus_le_l. done. }
  split; [|split].
  - assert (int_of (Qmax 0 (t1 - t0) * 1000) <= int_of (Qmax 0 (t2 - t0) * 1000)) as H.
    { apply int_of_mono; [apply Hms|]. apply Qmult_le_compat_r; done. }
    by do 2 destruct (Qeq_bool _ _).
  - destruct (Qeq_bool (Qmax 0 (t1 - t0)) 0) eqn:E1;
      destruct (Qeq_bool (Qmax 0 (t2 - t0)) 0) eqn:E2; cbn [bytes_total].
    + done.
    + by apply int_of_nonneg.
    + exfalso. apply Qeq_bool_iff in E2.
      assert (Qmax 0 (t1 - t0) == 0)%Q as E.
      { apply Qle_antisym; [|apply Hpos].
      apply (Qle_trans _ _ _ Hmono), Qle_lteq. by right. }
      apply Qeq_bool_iff in E. congruence.
    + apply int_of_mono; [apply Hby|].
      rewrite !(Qmult_comm (1500000 / 8)). apply Qmult_le_compat_r; done.
  - destruct (Qeq_bool (Qmax 0 (t1 - t0)) 0) eqn:E1;
      destruct (Qeq_bool (Qmax 0 (t2 - t0)) 0) eqn:E2; cbn [bitrate_kbps]; try done.
    exfalso. apply Qeq_bool_iff in E2.
    assert (Qmax 0 (t1 - t0) == 0)%Q as E.
    { apply Qle_antisym; [|apply Hpos].
      apply (Qle_trans _ _ _ Hmono), Qle_lteq. by right. }
    apply Qeq_bool_iff in E. congruence.
Qed.

(** X17.  Right after [start_pipeline], [get_status] returns the status
    that the start returned, and [get_metrics] derives everything from the
    clock: it stamps the metrics with the time of the call; they are all
    zero up to the start time; afterwards the bitrate is 1500 kbit/s, the
    counters are not negative, and no counter goes down in a later call
    at a later time. *)
Theorem metrics_follow_the_clock m t0 t1 op chan profile_name st m' :
  start_pipeline m t0 op chan profile_name = Ok (st, m') ->
  get_status m' op = Ok (Some st)
  /\ exists x m'',
       get_metrics m' t1 op = Ok (Some x, m'')
       /\ _pipelines m'' = _pipelines m'
       /\ metrics_op_id x = op
       /\ updated_at x = Some t1
       /\ ((t1 <= t0)%Q -> x = Metrics op 0 0 0 (Some t1))
       /\ ((t0 < t1)%Q ->
           bitrate_kbps x = 1500 /\ 0 <= out_time_ms x /\ 0 <= bytes_total x)
       /\ (forall t2, (t1 <= t2)%Q ->
             exists y m3,
               get_metrics m'' t2 op = Ok (Some y, m3)
               /\ updated_at y = Some t2
               /\ out_time_ms x <= out_time_ms y
               /\ bytes_total x <= bytes_total y
               /\ bitrate_kbps x <= bitrate_kbps y).
Proof.
  intros H. unfold start_pipeline in H.
  match type of H with
  | match ?found with _ => _ end = _ => destruct found as [p|]; [|done]
  end.
  injection H as <- <-.
  match goal with
  | |- context [get_status ?m0 _] => set (m' := m0)
  end.
  assert (exists st, _pipelines m' !! op = Some st /\ started_at st = t0) as (st & Hst & Ht0)
    by (eexists; split; [apply lookup_insert_eq|done]).
  assert (_metrics m' !! op = Some (Metrics op 0 0 0 None)) as Hx
    by apply lookup_insert_eq.
  split; [unfold get_status; f_equal; apply lookup_insert_eq|].
  eexists _, _. split; [by apply (get_metrics_known _ _ _ _ _ Hst Hx)|].
  destruct (update_metrics_fields m' t1 op) as (_ & E2 & _).
  split; [exact E2|].
  rewrite Ht0. cbn [metrics_op_id].
  pose proof (elapsed_metrics t0 t1 op) as [Hzero _].
  split; [apply (elapsed_metrics_mono t0 t1 t1 op)|].
  split; [apply (elapsed_metrics_mono t0 t1 t1 op)|].
  split; [exact Hzero|].
  split; [intros Ht; split; [by apply (elapsed_metrics_mono t0 t1 t1 op)|];
          split; apply (elapsed_metrics_mono t0 t1 t1 op)|].
  intros t2 H12.
  assert (_pipelines (_update_metrics m' t1 op) !! op = Some st) as Hst'
    by (by rewrite E2).
  assert (exists x', _metrics (_update_metrics m' t1 op) !! op = Some x'
                     /\ metrics_op_id x' = op) as (x' & Hx' & Hid).
  { rewrite update_metrics_lookup, Hst, Hx, decide_True by done.
    eexists. split; [done|]. cbv zeta.
    match goal with |- context [Qeq_bool ?a ?b] => destruct (Qeq_bool a b) end;
      reflexivity. }
  eexists _, _. split; [by apply (get_metrics_known _ _ _ _ _ Hst' Hx')|].
  rewrite Ht0, Hid.
  split; [apply (elapsed_metrics_mono t0 t2 t2 op)|].
  by apply (elapsed_metrics_mono t0 t1 t2 op).
Qed.

Lemma metrics_follow_the_clock_witness :
  exists st m',
    start_pipeline init 10 "op1" "amigadev" "stub" = Ok (st, m')
    /\ get_status m' "op1" = Ok (Some st)
    /\ exists x m'',
         get_metrics m' 12 "op1" = Ok (Some x, m'')
         /\ updated_at x = Some 12%Q
         /\ ((10 < 12)%Q ->
             bitrate_kbps x = 1500 /\ 0 <= out_time_ms x /\ 0 <= bytes_total x).
Proof.
  eexists _, _. split; [reflexivity|].
  pose proof (metrics_follow_the_clock init 10 12 "op1" "amigadev" "stub" _ _ eq_refl)
    as (H1 & x & m'' & H2 & _ & _ & H3 & _ & H4 & _).
  split; [exact H1|]. exists x, m''. split; [exact H2|]. split; [exact H3|exact H4].
Defined.

(** X18.  [stop_pipeline] on a known operation, running or already
    stopped, returns true, marks the status "stopped" with the present
    time as end time, and cancels and forgets the metrics task; other
    operations keep their status.  The metrics are not frozen by it: a
    later [get_metrics] returns what it would have returned at that time
    had the operation not been stopped, stamped with the time of the call,
    with 1500 kbit/s once the start time is past. *)
Theorem stop_marks_but_metrics_go_on m now op st x :
  _pipelines m !! op = Some st ->
  _metrics m !! op = Some x ->
  exists m',
    stop_pipeline m now op = Ok (true, m')
    /\ (exists st', _pipelines m' !! op = Some st'
          /\ state st' = "stopped"%string /\ ended_at st' = Some now
          /\ started_at st' = started_at st /\ channel st' = channel st)
    /\ _metric_tasks m' !! op = None
    /\ (forall t, _metric_tasks m !! op = Some t -> t ∈ tasks_cancelled m')
    /\ (forall op', op' <> op -> _pipelines m' !! op' = _pipelines m !! op')
    /\ (forall later,
          exists y m'' m0,
            get_metrics m' later op = Ok (Some y, m'')
            /\ get_metrics m later op = Ok (Some y, m0)
            /\ updated_at y = Some later
            /\ ((started_at st < later)%Q -> bitrate_kbps y = 1500)).
Proof.
  intros Hst Hx. eexists. split; [by apply stop_pipeline_known|]. cbv zeta.
  match goal with
  | |- context [_update_metrics ?m0 now op] => set (m1 := m0)
  end.
  destruct (update_metrics_fields m1 now op) as (_ & E2 & E3 & _ & E5).
  rewrite E2, E3, E5. cbn [_pipelines _metric_tasks tasks_cancelled m1].
  split; [eexists; split; [apply lookup_insert_eq|done]|].
  split; [apply lookup_delete_eq|].
  split; [intros t ->; set_solver|].
  split; [intros op' Hne; by apply lookup_insert_ne|].
  intros later.
  assert (exists st', _pipelines (_update_metrics m1 now op) !! op = Some st'
                      /\ started_at st' = started_at st) as (st' & Hst' & Hs0).
  { rewrite E2. eexists. split; [apply lookup_insert_eq|done]. }
  assert (exists x', _metrics (_update_metrics m1 now op) !! op = Some x'
                     /\ metrics_op_id x' = metrics_op_id x) as (x' & Hx' & Hid).
  { rewrite update_metrics_lookup. cbn [_pipelines _metrics m1].
    rewrite lookup_insert_eq, Hx, decide_True by done.
    eexists. split; [done|]. cbv zeta.
    match goal with |- context [Qeq_bool ?a ?b] => destruct (Qeq_bool a b) end;
      reflexivity. }
  eexists _, _, _. split; [by apply (get_metrics_known _ _ _ _ _ Hst' Hx')|].
  rewrite Hs0, Hid.
  split; [by apply (get_metrics_known _ _ _ _ _ Hst Hx)|].
  split; [apply (elapsed_metrics_mono (started_at st) later later (metrics_op_id x))|].
  apply (elapsed_metrics_mono (started_at st) later later (metrics_op_id x)).
Qed.

Lemma stop_marks_but_metrics_go_on_witness :
  exists m st x,
    start_pipeline init 10 "op1" "amigadev" "stub" = Ok (st, m)
    /\ _pipelines m !! "op1"%string = Some st
    /\ _metrics m !! "op1"%string = Some x
    /\ exists m',
         stop_pipeline m 12 "op1" = Ok (true, m')
         /\ _metric_tasks m' !! "op1"%string = None
         /\ exists y m'' m0,
              get_metrics m' 20 "op1" = Ok (Some y, m'')
              /\ get_metrics m 20 "op1" = Ok (Some y, m0)
              /\ updated_at y = Some 20%Q.
Proof.
  eexists _, _, _. split; [reflexivity|].
  match goal with
  | |- ?A /\ ?B /\ _ => assert A as Hst by (by vm_compute); assert B as Hx by (by vm_compute)
  end.
  split; [exact Hst|]. split; [exact Hx|].
  destruct (stop_marks_but_metrics_go_on _ 12 _ _ _ Hst Hx)
    as (m' & H1 & _ & H3 & _ & _ & H6).
  exists m'. split; [exact H1|]. split; [exact H3|].
  destruct (H6 20%Q) as (y & m'' & m0 & G1 & G2 & G3 & _).
  exists y, m'', m0. split; [exact G1|]. split; [exact G2|exact G3].
Defined.

(** X19.  [remove_pipeline] forgets an operation: afterwards it has no
    status and no metrics, stopping it returns false, and its metrics
    task, if one was registered, is cancelled; other operations keep
    status, metrics and task; removing again changes nothing. *)
Theorem remove_forgets_the_operation m now op :
  get_status (remove_pipeline m op) op = Ok None
  /\ get_metrics (remove_pipeline m op) now op = Ok (None, remove_pipeline m op)
  /\ stop_pipeline (remove_pipeline m op) now op = Ok (false, remove_pipeline m op)
  /\ (forall t, _metric_tasks m !! op = Some t -> t ∈ tasks_cancelled (remove_pipeline m op))
  /\ (forall op', op' <> op ->
        _pipelines (remove_pipeline m op) !! op' = _pipelines m !! op'
        /\ _metrics (remove_pipeline m op) !! op' = _metrics m !! op'
        /\ _metric_tasks (remove_pipeline m op) !! op' = _metric_tasks m !! op')
  /\ remove_pipeline (remove_pipeline m op) op = remove_pipeline m op.
Proof.
  unfold get_status, get_metrics, stop_pipeline.
  cbn [remove_pipeline _pipelines _metrics _metric_tasks tasks_cancelled].
  rewrite !lookup_delete_eq.
  split; [done|]. split; [done|]. split; [done|].
  split; [intros t ->; set_solver|]. split.
  - intros op' Hne. by rewrite !lookup_delete_ne.
  - unfold remove_pipeline.
    cbn [_profiles _pipelines _metrics _metric_tasks tasks_cancelled tasks_created].
    rewrite lookup_delete_eq. by rewrite !delete_delete_eq.
Qed.

Lemma unregistered_task_kept m c t :
  (forall op, _metric_tasks m !! op <> Some t) ->
  (t < tasks_created m)%nat -> t ∉ tasks_cancelled m ->
  (forall op, _metric_tasks (perform m c) !! op <> Some t)
  /\ (t < tasks_created (perform m c))%nat /\ t ∉ tasks_cancelled (perform m c).
Proof.
  intros Hu Hlt Hnc.
  assert (forall op, match _metric_tasks m !! op with
                     | Some t0 => {[t0]} ∪ tasks_cancelled m
                     | None => tasks_cancelled m
                     end ≡ tasks_cancelled m ∪ match _metric_tasks m !! op with
                                               | Some t0 => {[t0]}
                                               | None => ∅
                                               end) as Hcan
    by (intros op; destruct (_metric_tasks m !! op); set_solver).
  assert (forall op, t ∉ match _metric_tasks m !! op with
                         | Some t0 => {[t0]} ∪ tasks_cancelled m
                         | None => tasks_cancelled m
                         end) as Hnc'.
  { intros op. specialize (Hu op). destruct (_metric_tasks m !! op); [|done].
    set_solver. }
  assert (forall op op', delete op (_metric_tasks m) !! op' <> Some t) as Hdel.
  { intros op op'. destruct (decide (op = op')) as [<-|Hne].
    - by rewrite lookup_delete_eq.
    - rewrite lookup_delete_ne by done. apply Hu. }
  destruct c as [now op chan pn|now op|op|now op|now op]; cbn [perform].
  - unfold start_pipeline.
    match goal with
    | |- context [match ?found with Some _ => _ | None => Err _ end] =>
        destruct found as [p|]; [|done]
    end.
    cbn [_metric_tasks tasks_created tasks_cancelled].
    split; [|split; [lia|done]].
    intros op'. destruct (decide (op = op')) as [<-|Hne].
    + rewrite lookup_insert_eq. intros [= E]. lia.
    + rewrite lookup_insert_ne by done. apply Hu.
  - destruct (_pipelines m !! op) as [st|] eqn:Hst;
      [|by unfold stop_pipeline; rewrite Hst].
    rewrite (stop_pipeline_known _ _ _ _ Hst). cbv zeta.
    match goal with
    | |- context [_update_metrics ?m0 now op] =>
        destruct (update_metrics_fields m0 now op) as (_ & _ & -> & -> & ->)
    end.
    cbn [_metric_tasks tasks_created tasks_cancelled]. done.
  - unfold remove_pipeline. cbn [_metric_tasks tasks_created tasks_cancelled]. done.
  - unfold get_metrics.
    destruct (_pipelines m !! op); [|done]. destruct (_metrics m !! op); [|done].
    by destruct (update_metrics_fields m now op) as (_ & _ & -> & -> & ->).
  - unfold _simulate_metrics.
    destruct (update_metrics_fields m now op) as (_ & _ & E3 & E4 & E5).
    repeat case_match; cbn [fst]; by rewrite E3, E4, E5.
Qed.

(** X20.  Starting an operation id that is already running replaces the
    registered metrics task without cancelling it: the old task is then
    neither registered nor cancelled, and no later call cancels it. *)
Theorem restart_orphans_metrics_task cs cs' now op chan profile_name t :
  _metric_tasks (foldl perform init cs) !! op = Some t ->
  (forall op',
     _metric_tasks
       (foldl perform
          (perform (foldl perform init cs) (StartPipeline now op chan profile_name)) cs')
     !! op' <> Some t)
  /\ t ∉ tasks_cancelled
           (foldl perform
              (perform (foldl perform init cs) (StartPipeline now op chan profile_name)) cs').
Proof.
  intros Ht.
  pose proof (supervisor_tables_consistent_aux cs) as Hk.
  set (m := foldl perform init cs) in *.
  assert (forall m0,
    (forall op, _metric_tasks m0 !! op <> Some t) ->
    (t < tasks_created m0)%nat -> t ∉ tasks_cancelled m0 ->
    (forall op', _metric_tasks (foldl perform m0 cs') !! op' <> Some t)
    /\ t ∉ tasks_cancelled (foldl perform m0 cs')) as Hrun.
  { clear. induction cs' as [|c cs' IH]; intros m0 H1 H2 H3; [done|].
    cbn [foldl]. destruct (unregistered_task_kept m0 c t H1 H2 H3) as (? & ? & ?).
    by apply IH. }
  destruct Hk as (_ & _ & _ & _ & Htk & _).
  destruct (Htk _ _ Ht) as (Hlt & Hnc & Hinj).
  destruct (start_pipeline_kept m now op chan profile_name)
    as (st & m1 & Hs & _ & _ & _ & Htasks & Hcan & _);
    [apply supervisor_tables_consistent_aux|].
  cbn [perform]. rewrite Hs. apply Hrun.
  - intros op'. rewrite Htasks. destruct (decide (op = op')) as [<-|Hne].
    + rewrite lookup_insert_eq. intros [= E]. lia.
    + rewrite lookup_insert_ne by done. intros H. apply Hne. symmetry. by apply Hinj.
  - unfold start_pipeline in Hs.
    match type of Hs with
    | match ?found with _ => _ end = _ => destruct found as [p|]; [|done]
    end.
    injection Hs as _ <-. cbn. lia.
  - by rewrite Hcan.
Qed.

Lemma restart_orphans_metrics_task_witness :
  _metric_tasks (foldl perform init [StartPipeline 10 "op1" "amigadev" "stub"])
    !! "op1"%string = Some 0%nat
  /\ 0%nat ∉ tasks_cancelled
       (foldl perform
          (perform (foldl perform init [StartPipeline 10 "op1" "amigadev" "stub"])
             (StartPipeline 20 "op1" "amigadev" "stub"))
          [StopPipeline 30 "op1"; RemovePipeline "op1"]).
Proof.
  assert (_metric_tasks (foldl perform init [StartPipeline 10 "op1" "amigadev" "stub"])
            !! "op1"%string = Some 0%nat) as H by (by vm_compute).
  split; [exact H|].
  exact (proj2 (restart_orphans_metrics_task
                  [StartPipeline 10 "op1" "amigadev" "stub"]
                  [StopPipeline 30 "op1"; RemovePipeline "op1"]
                  20 "op1" "amigadev" "stub" 0%nat H)).
Defined.

End SupervisorMore.

(** * More on the HLS repackager *)

Section RepackerMore.
Import HlsRepacker.
Local Open Scope Z_scope.

Lemma wait_loop_true deadline probes : forall last_size stable,
  wait_loop deadline last_size stable probes = Some true ->
  exists size,
    0 < size
    /\ (3 <= (if decide (size = last_size) then S stable else 0)
             + length (seen_at_size deadline size probes))%nat.
Proof.
  induction probes as [|p probes IH]; intros last_size stable H; [done|].
  cbn [wait_loop] in H. unfold seen_at_size. cbn [List.filter].
  fold (seen_at_size deadline).
  destruct (Qle_bool deadline (probed_at p)); [done|]. cbn [negb andb].
  destruct (st_size p) as [size|].
  - revert H. destruct (Z.ltb_spec 0 size) as [Hpos|Hneg].
    + destruct (Z.eqb_spec size last_size) as [->|Hne].
      * destruct (Nat.leb_spec 2 (S stable)) as [Hge|Hlt]; intros H.
        -- exists last_size. split; [done|].
           rewrite decide_True, bool_decide_eq_true_2 by done. cbn [length]. lia.
        -- destruct (IH _ _ H) as (s & Hs & Hc). exists s. split; [done|].
           fold (seen_at_size deadline s probes).
           destruct (decide (s = last_size)) as [->|Hne].
           ++ rewrite bool_decide_eq_true_2 by done. cbn [length]. lia.
           ++ rewrite bool_decide_eq_false_2 by congruence. lia.
      * intros H. destruct (IH _ _ H) as (s & Hs & Hc). exists s. split; [done|].
        fold (seen_at_size deadline s probes).
        destruct (decide (s = size)) as [->|Hne'].
        -- rewrite bool_decide_eq_true_2 by done. cbn [length]. lia.
        -- rewrite bool_decide_eq_false_2 by congruence.
           destruct (decide (s = last_size)); lia.
    + intros H. destruct (IH _ _ H) as (s & Hs & Hc). exists s. split; [done|].
      fold (seen_at_size deadline s probes).
      rewrite bool_decide_eq_false_2 by (intros [= ->]; lia). done.
  - destruct (IH _ _ H) as (s & Hs & Hc). exists s. split; [done|].
    fold (seen_at_size deadline s probes). by rewrite bool_decide_eq_false_2.
Qed.

(** X21.  [wait_for_segment] reports a segment as ready only after it has
    found the file at one and the same positive size in at least three
    probes before the deadline. *)
Theorem wait_for_segment_needs_three_probes now timeout probes :
  wait_for_segment now timeout probes = Some true ->
  exists size,
    0 < size /\ (3 <= length (seen_at_size (now + timeout) size probes))%nat.
Proof.
  intros H. destruct (wait_loop_true _ _ _ _ H) as (s & Hs & Hc).
  exists s. split; [done|]. rewrite decide_False in Hc by lia. done.
Qed.

Lemma wait_for_segment_needs_three_probes_witness :
  wait_for_segment 0 15 settling = Some true
  /\ exists size,
       0 < size /\ (3 <= length (seen_at_size (0 + 15) size settling))%nat.
Proof.
  assert (wait_for_segment 0 15 settling = Some true) as H by reflexivity.
  split; [exact H|]. exact (wait_for_segment_needs_three_probes 0 15 settling H).
Defined.

Lemma lstrip_head s a r : lstrip s = String a r -> is_space a = false.
Proof.
  induction s as [|b s IH]; [done|]. cbn [lstrip].
  destruct (is_space b) eqn:E; [done|]. by intros [= <- <-].
Qed.

Lemma lstrip_stripped a r : is_space a = false -> lstrip (String a r) = String a r.
Proof. intros H. cbn [lstrip]. by rewrite H. Qed.

Lemma rstrip_head a s : is_space a = false -> exists r, rstrip (String a s) = String a r.
Proof. intros H. cbn [rstrip]. rewrite H. destruct (rstrip s); eauto. Qed.

Lemma rstrip_idem s : rstrip (rstrip s) = rstrip s.
Proof.
  induction s as [|a s IH]; [done|]. cbn [rstrip].
  destruct (rstrip s) as [|b r] eqn:E.
  - destruct (is_space a) eqn:Ha; [done|]. cbn [rstrip]. by rewrite Ha.
  - cbn [rstrip] in IH |- *. by rewrite IH.
Qed.

Lemma strip_idem s : strip (strip s) = strip s.
Proof.
  unfold strip. destruct (lstrip s) as [|a r] eqn:E; [done|].
  pose proof (lstrip_head _ _ _ E) as Ha.
  destruct (rstrip_head a r Ha) as [r' Hr].
  rewrite Hr, (lstrip_stripped _ _ Ha), <- Hr. apply rstrip_idem.
Qed.

Lemma List_filter_sublist {A} (f : A -> bool) (l : list A) : List.filter f l `sublist_of` l.
Proof.
  induction l as [|x l IH]; [done|]. cbn [List.filter].
  destruct (f x); by constructor.
Qed.

(** X22.  Every entry that [parse_manifest] returns is a line of the
    manifest with the surrounding white space removed; it is not empty,
    does not start with [#] and has no white space left around it.  The
    entries keep the order of the lines, and a manifest that does not
    exist has none. *)
Theorem parse_manifest_entries text u :
  u ∈ parse_manifest text ->
  u <> EmptyString /\ is_comment u = false /\ strip u = u
  /\ exists lines line,
       text = Some lines /\ line ∈ lines /\ u = strip line
       /\ parse_manifest text `sublist_of` strip <$> lines.
Proof.
  destruct text as [lines|]; cbn [parse_manifest]; [|by intros ?%elem_of_nil].
  intros Hu. pose proof Hu as Hu'.
  apply list_elem_of_In, filter_In in Hu' as [Hin Hc].
  apply list_elem_of_In, list_elem_of_fmap in Hin as (line & -> & Hline).
  apply andb_true_iff in Hc as [Hne Hc].
  apply negb_true_iff, bool_decide_eq_false in Hne. apply negb_true_iff in Hc.
  split; [done|]. split; [done|]. split; [apply strip_idem|].
  exists lines, line. split; [done|]. split; [done|]. split; [done|].
  apply List_filter_sublist.
Qed.

Lemma parse_manifest_entries_witness :
  "a.ts"%string
  ∈ parse_manifest (Some ["#EXTM3U"; "  "; " a.ts  "; String "160" (String "133" "# b.ts");
                          String "133" EmptyString; String "160" " c.ts"; "#EXTINF:4.0,"]%string)
  /\ strip "a.ts" = "a.ts"%string
  /\ parse_manifest (Some ["#EXTM3U"; "  "; " a.ts  "; String "160" (String "133" "# b.ts");
                           String "133" EmptyString; String "160" " c.ts"; "#EXTINF:4.0,"]%string)
     = ["a.ts"; "c.ts"]%string
  /\ parse_manifest None = [].
Proof.
  assert ("a.ts"%string
          ∈ parse_manifest (Some ["#EXTM3U"; "  "; " a.ts  ";
                                  String "160" (String "133" "# b.ts");
                                  String "133" EmptyString; String "160" " c.ts";
                                  "#EXTINF:4.0,"]%string)) as H
    by (vm_compute; apply list_elem_of_here).
  split; [exact H|]. split; [|split; reflexivity].
  exact (proj1 (proj2 (proj2 (parse_manifest_entries _ _ H)))).
Defined.

Section Runs.
Variable fmt_3f : Q -> string.
Variable args : arguments.

Lemma deliver_effs w u st effs :
  deliver fmt_3f args w (st, effs) u
  = (fst (deliver fmt_3f args w (st, []) u),
     effs ++ snd (deliver fmt_3f args w (st, []) u)).
Proof.
  unfold deliver. destruct (decide (u ∈ processed st)); cbn [fst snd].
  { rewrite app_nil_r. reflexivity. }
  destruct (negb (stable (w u))); cbn [fst snd app]; rewrite ?app_nil_r; reflexivity.
Qed.

(** A property of the locals and of everything done so far that each
    statement of the loop keeps is kept by the loop. *)
Section Kept.
Variable I : state -> list effect -> Prop.
Hypothesis I_deliver : forall w st effs u,
  I st effs ->
  I (fst (deliver fmt_3f args w (st, []) u))
    (effs ++ snd (deliver fmt_3f args w (st, []) u)).
Hypothesis I_gap : forall st effs now after,
  I st effs ->
  I (fst (gap_fill fmt_3f args st now after))
    (effs ++ snd (gap_fill fmt_3f args st now after)).
Hypothesis I_sleep : forall st effs q, I st effs -> I st (effs ++ [Sleep q]).

Lemma deliver_all_kept w segments : forall st effs0 effs,
  I st (effs0 ++ effs) ->
  I (fst (foldl (deliver fmt_3f args w) (st, effs) segments))
    (effs0 ++ snd (foldl (deliver fmt_3f args w) (st, effs) segments)).
Proof.
  induction segments as [|u segments IH]; intros st effs0 effs H; [done|].
  cbn [foldl]. rewrite deliver_effs. apply IH. rewrite app_assoc. by apply I_deliver.
Qed.

Lemma poll_kept st effs w :
  I st effs ->
  I (fst (poll fmt_3f args st w)) (effs ++ snd (poll fmt_3f args st w)).
Proof.
  intros H. unfold poll.
  destruct (parse_manifest (manifest w)) as [|u segments]; [by apply I_sleep|].
  pose proof (deliver_all_kept (segment w) (u :: segments) st effs []) as H1.
  rewrite app_nil_r in H1. specialize (H1 H).
  destruct (foldl _ _ _) as [st1 effs1]. cbn [fst snd] in H1.
  pose proof (I_gap _ _ (gap_clock w) (dup_clock w) H1) as H2.
  destruct (gap_fill _ _ _ _ _) as [st2 effs2]. cbn [fst snd] in *.
  rewrite !app_assoc. apply I_sleep. exact H2.
Qed.

Lemma repack_kept ws : forall st effs,
  I st effs ->
  I (fst (repack fmt_3f args st ws)) (effs ++ snd (repack fmt_3f args st ws)).
Proof.
  induction ws as [|w ws IH]; intros st effs H; [by rewrite app_nil_r|].
  cbn [repack]. pose proof (poll_kept st effs w H) as H1.
  destruct (poll _ _ _ _) as [st1 effs1]. cbn [fst snd] in H1.
  specialize (IH _ _ H1).
  destruct (repack _ _ _ _) as [st2 effs2]. cbn [fst snd] in *.
  by rewrite app_assoc.
Qed.

End Kept.

Lemma copy_destinations_app effs effs' :
  copy_destinations (effs ++ effs') = copy_destinations effs ++ copy_destinations effs'.
Proof. apply omap_app. Qed.

Lemma copy_sources_app effs effs' :
  copy_sources (effs ++ effs') = copy_sources effs ++ copy_sources effs'.
Proof. apply omap_app. Qed.

Lemma delivered_app effs effs' :
  delivered args (effs ++ effs') = delivered args effs ++ delivered args effs'.
Proof. apply omap_app. Qed.

(** The window after one more entry under the next sequential name. *)
Lemma window_names_append (d : list SegmentEntry) (s : nat) x :
  uri x = segment_name s ->
  length d = Nat.min s (keep_segments args) ->
  uri <$> d = segment_name <$> seq (s - length d) (length d) ->
  let d' := deque_append (keep_segments args) d x in
  length d' = Nat.min (S s) (keep_segments args)
  /\ uri <$> d' = segment_name <$> seq (S s - length d') (length d').
Proof.
  intros Hx Hl Hd d'.
  assert (length d' = Nat.min (S s) (keep_segments args)) as Hl'
    by (subst d'; rewrite deque_append_length; lia).
  split; [done|]. rewrite Hl'. subst d'. unfold deque_append in *.
  rewrite fmap_drop, fmap_app, Hd. cbn [fmap list_fmap]. rewrite Hx.
  replace [segment_name s] with (segment_name <$> [(s - length d + length d)%nat])
    by (cbn; do 2 f_equal; lia).
  rewrite <- fmap_app, <- seq_S, <- fmap_drop, drop_seq.
  rewrite length_app. cbn [length]. f_equal. f_equal; lia.
Qed.

Lemma numbered_kept now ws :
  numbered args (fst (repack fmt_3f args (initial now) ws))
                (snd (repack fmt_3f args (initial now) ws)).
Proof.
  apply (repack_kept (numbered args)) with (effs := []); [| | |done].
  - intros w st effs u (Hl & Hw & Hc). unfold deliver.
    destruct (decide (u ∈ processed st)); cbn [fst snd]; [by rewrite app_nil_r|].
    destruct (negb (stable (w u))); cbn [fst snd]; [by rewrite app_nil_r|].
    unfold numbered. cbn [recent_segments sequence].
    destruct (window_names_append (recent_segments st) (sequence st)
                (Entry (segment_name (sequence st)) (segment_duration args) false)
                eq_refl Hl Hw) as [Hl' Hw'].
    split; [done|]. split; [done|].
    rewrite copy_destinations_app, Hc, seq_S, fmap_app. done.
  - intros st effs now' after (Hl & Hw & Hc). unfold gap_fill.
    destruct (gap_due args st now'); cbn [fst snd]; [|by rewrite app_nil_r].
    destruct (last_output_path st); cbn [fst snd]; [|by rewrite app_nil_r].
    unfold numbered. cbn [recent_segments sequence].
    destruct (window_names_append (recent_segments st) (sequence st)
                (Entry (segment_name (sequence st)) (segment_duration args) true)
                eq_refl Hl Hw) as [Hl' Hw'].
    split; [done|]. split; [done|].
    rewrite copy_destinations_app, Hc, seq_S, fmap_app. done.
  - intros st effs q (Hl & Hw & Hc). split; [done|]. split; [done|].
    rewrite copy_destinations_app, Hc. cbn. by rewrite app_nil_r.
Qed.

Lemma last_delivered_kept now ws :
  last_delivered args (fst (repack fmt_3f args (initial now) ws))
                      (snd (repack fmt_3f args (initial now) ws)).
Proof.
  apply (repack_kept (last_delivered args)) with (effs := []); [| | |done].
  - intros w st effs u H. unfold deliver.
    destruct (decide (u ∈ processed st)); cbn [fst snd]; [by rewrite app_nil_r|].
    destruct (negb (stable (w u))); cbn [fst snd]; [by rewrite app_nil_r|].
    unfold last_delivered. cbn [last_output_path].
    exists effs, u, [WriteText (outgoing_manifest args)
                     (build_manifest fmt_3f
                        (deque_append (keep_segments args) (recent_segments st)
                           (Entry (segment_name (sequence st)) (segment_duration args)
                              false)))].
    split; [done|]. by repeat constructor.
  - intros st effs now' after H. unfold gap_fill.
    destruct (gap_due args st now'); cbn [fst snd]; [|by rewrite app_nil_r].
    unfold last_delivered in *.
    destruct (last_output_path st) as [last|] eqn:E; cbn [fst snd last_output_path];
      [|by rewrite app_nil_r, ?E].
    rewrite ?E. destruct H as (effs1 & u & effs2 & -> & H).
    eexists effs1, u, (effs2 ++ _). split; [by rewrite <- app_assoc|].
    apply Forall_app. split; [done|]. by repeat constructor.
  - intros st effs q H. unfold last_delivered in *.
    destruct (last_output_path st) as [last|]; [|done].
    destruct H as (effs1 & u & effs2 & -> & H).
    exists effs1, u, (effs2 ++ [Sleep q]). split; [by rewrite <- app_assoc|].
    apply Forall_app. split; [done|]. by repeat constructor.
Qed.

End Runs.

(** The gap filler, in a turn that reaches it.  After a run of the loop,
    take a turn in which the upstream manifest lists at least one URI and
    none of them brings a new segment, with a positive gap timeout that
    has elapsed since the last segment was produced, and a window of at
    least one entry.  With [last] the last output path: [last] is where
    the run copied an upstream segment to, and no upstream segment was
    copied after that, so it is the last segment delivered; the turn
    copies [last] under the next sequential name, appends an entry with
    the discontinuity flag for it, rewrites the manifest with the
    discontinuity tag before that entry, and the window holds the most
    recent entries, at most [keep_segments] of them and exactly
    [keep_segments] once that many segments have been produced. *)
Theorem gap_is_filled fmt_3f args now ws st effs w last :
  repack fmt_3f args (initial now) ws = (st, effs) ->
  parse_manifest (manifest w) <> [] ->
  (forall u, u ∈ parse_manifest (manifest w) ->
     u ∈ processed st \/ stable (segment w u) = false) ->
  (0 < gap_timeout args)%Q ->
  (gap_timeout args <= gap_clock w - last_source_time st)%Q ->
  (0 < keep_segments args)%nat ->
  last_output_path st = Some last ->
  let name := segment_name (sequence st) in
  let entry := {| uri := name; duration := segment_duration args;
                  discontinuity := true |} in
  exists st' older,
    poll fmt_3f args st w
    = (st', [Copy last (Div (output_dir args) name);
             WriteText (outgoing_manifest args)
                       (build_manifest fmt_3f (recent_segments st'));
             Sleep (poll_interval args)])
    /\ (exists effs1 u effs2,
          effs = effs1 ++ Copy (Div (source_parent args) u) last :: effs2
          /\ only_duplicates last effs2)
    /\ (exists k, (k < sequence st)%nat /\ last = Div (output_dir args) (segment_name k))
    /\ sequence st' = S (sequence st)
    /\ last_output_path st' = Some last
    /\ recent_segments st' = older ++ [entry]
    /\ recent_segments st' `suffix_of` recent_segments st ++ [entry]
    /\ manifest_lines fmt_3f (recent_segments st')
       = manifest_lines fmt_3f older
         ++ ["#EXT-X-DISCONTINUITY"%string;
             ("#EXTINF:" +:+ fmt_3f (segment_duration args) +:+ ",")%string; name]
    /\ (length (recent_segments st') <= keep_segments args)%nat
    /\ ((keep_segments args <= S (sequence st))%nat ->
        length (recent_segments st') = keep_segments args).
Proof.
  intros Hrun Hm Hnew Hg Hgap Hk Hlast name entry.
  assert (reachable fmt_3f args st) as Hr by (by exists now, ws, effs).
  pose proof (last_delivered_kept fmt_3f args now ws) as Hld.
  rewrite Hrun in Hld. unfold last_delivered in Hld. cbn [fst snd] in Hld.
  rewrite Hlast in Hld.
  destruct (reachable_window _ _ _ Hr) as [Hlen Hseq].
  destruct (Hseq _ Hlast) as (k & Hlt & Hlastk).
  assert (recent_segments st <> []) as Hne.
  { intros E. rewrite E in Hlen. cbn in Hlen. lia. }
  unfold poll.
  destruct (parse_manifest (manifest w)) as [|u segments] eqn:Hp; [done|].
  destruct (deliver_nothing_new fmt_3f args (segment w) (u :: segments) st [] Hnew)
    as [seen ->].
  unfold gap_fill. rewrite gap_due_true; cbn [recent_segments last_output_path
    last_source_time sequence]; [|done|by rewrite Hlast|done|done].
  rewrite Hlast. fold name. fold entry.
  match goal with |- exists st' older, (?s, _) = _ /\ _ => exists s end.
  exists (drop (S (length (recent_segments st)) - keep_segments args) (recent_segments st)).
  cbn [recent_segments sequence last_output_path app].
  split; [done|]. split; [done|]. split; [by exists k|]. split; [done|]. split; [done|].
  split; [by apply deque_append_snoc|].
  split; [apply deque_append_suffix|].
  split; [by rewrite deque_append_snoc, manifest_lines_snoc by done|].
  rewrite deque_append_length, Hlen. split; lia.
Qed.

Lemma gap_is_filled_witness :
  exists st' older,
    poll fmt_thousandths example_args delivered_five gap_poll
    = (st', [Copy (Div (Root "outgoing") "segment_00004.ts")
                  (Div (Root "outgoing") "segment_00005.ts");
             WriteText (Div (Root "outgoing") "index.m3u8")
                       (build_manifest fmt_thousandths (recent_segments st'));
             Sleep (1 # 2)])
    /\ (exists effs1 u effs2,
          snd (repack fmt_thousandths example_args (initial 0) [first_poll])
          = effs1 ++ Copy (Div (Root "incoming") u) (Div (Root "outgoing") "segment_00004.ts")
                     :: effs2
          /\ only_duplicates (Div (Root "outgoing") "segment_00004.ts") effs2)
    /\ (exists k, (k < 5)%nat
          /\ Div (Root "outgoing") "segment_00004.ts"
             = Div (Root "outgoing") (segment_name k))
    /\ sequence st' = 6%nat
    /\ last_output_path st' = Some (Div (Root "outgoing") "segment_00004.ts")
    /\ recent_segments st' = older ++ [Entry "segment_00005.ts" 4 true]
    /\ recent_segments st' `suffix_of`
         recent_segments delivered_five ++ [Entry "segment_00005.ts" 4 true]
    /\ manifest_lines fmt_thousandths (recent_segments st')
       = manifest_lines fmt_thousandths older
         ++ ["#EXT-X-DISCONTINUITY"; "#EXTINF:4.000,"; "segment_00005.ts"]%string
    /\ (length (recent_segments st') <= 3)%nat
    /\ ((3 <= 6)%nat -> length (recent_segments st') = 3%nat).
Proof.
  assert (forall u, u ∈ parse_manifest (manifest gap_poll) ->
            u ∈ processed delivered_five \/ stable (segment gap_poll u) = false) as Hnew.
  { intros u Hu. left.
    change (parse_manifest (manifest gap_poll))
      with ["a.ts"; "b.ts"; "c.ts"; "d.ts"; "e.ts"]%string in Hu.
    repeat (apply elem_of_cons in Hu as [-> | Hu]);
      [..| by apply elem_of_nil in Hu];
      apply (bool_decide_unpack _); vm_compute; exact I. }
  exact (gap_is_filled fmt_thousandths example_args 0 [first_poll] delivered_five
           (snd (repack fmt_thousandths example_args (initial 0) [first_poll])) gap_poll
           (Div (Root "outgoing") "segment_00004.ts")
           (surjective_pairing _)
           ltac:(vm_compute; discriminate) Hnew eq_refl
           ltac:(vm_compute; discriminate) ltac:(vm_compute; lia) eq_refl).
Defined.

(** X23.  The output segments are numbered without gap or reuse: a run
    copies into [segment_00000.ts], [segment_00001.ts], ... in this order,
    one copy per name, and the window lists the newest of them, as many
    as were produced up to [keep_segments], in the order of their
    numbers. *)
Theorem output_numbered_consecutively fmt_3f args now ws st effs :
  repack fmt_3f args (initial now) ws = (st, effs) ->
  copy_destinations effs = output_path args <$> seq 0 (sequence st)
  /\ length (recent_segments st) = Nat.min (sequence st) (keep_segments args)
  /\ uri <$> recent_segments st
     = segment_name <$> seq (sequence st - length (recent_segments st))
                            (length (recent_segments st)).
Proof.
  intros H. pose proof (numbered_kept fmt_3f args now ws) as (H1 & H2 & H3).
  rewrite H in *. cbn [fst snd] in *. done.
Qed.

Lemma output_numbered_consecutively_witness :
  exists st effs,
    repack fmt_thousandths example_args (initial 0) [first_poll; gap_poll] = (st, effs)
    /\ copy_destinations effs = output_path example_args <$> seq 0 6
    /\ uri <$> recent_segments st
       = ["segment_00003.ts"; "segment_00004.ts"; "segment_00005.ts"]%string.
Proof.
  eexists _, _. split; [vm_compute; reflexivity|].
  pose proof (output_numbered_consecutively fmt_thousandths example_args 0
                [first_poll; gap_poll] _ _ ltac:(vm_compute; reflexivity)) as (H1 & _ & H3).
  split; [exact H1|exact H3].
Defined.

Lemma rstrip_app_kept x y :
  rstrip y = y -> y <> EmptyString -> rstrip (x +:+ y) = x +:+ y.
Proof.
  intros Hy Hne. induction x as [|a x IH]; [done|].
  change (rstrip (String a (x +:+ y)) = String a (x +:+ y)).
  cbn [rstrip]. rewrite IH.
  destruct (x +:+ y) eqn:E; [|done].
  destruct x; [done|discriminate E].
Qed.

Lemma strip_segment_name k : strip (segment_name k) = segment_name k.
Proof.
  unfold strip, segment_name.
  change (lstrip ("segment_" +:+ fmt_05d k +:+ SEGMENT_SUFFIX))
    with ("segment_" +:+ fmt_05d k +:+ SEGMENT_SUFFIX).
  apply rstrip_app_kept; [|by destruct (fmt_05d k)].
  by apply rstrip_app_kept.
Qed.

Lemma strip_comment s : is_comment (strip (String "#" s)) = true.
Proof.
  unfold strip. rewrite lstrip_stripped by done.
  by destruct (rstrip_head "#" s eq_refl) as [r ->].
Qed.

Lemma parse_own_lines fmt_3f (segments : list SegmentEntry) :
  Forall (fun seg => exists k, uri seg = segment_name k) segments ->
  parse_manifest (Some (manifest_lines fmt_3f segments)) = uri <$> segments.
Proof.
  intros H. unfold parse_manifest, manifest_lines.
  rewrite fmap_app, List.filter_app. cbn [app].
  match goal with |- ?l ++ _ = _ => assert (l = []) as -> by (by vm_compute) end.
  cbn [app]. induction H as [|seg segments [k Hk] _ IH]; [done|].
  rewrite bind_cons, !fmap_app, !List.filter_app, IH.
  assert (List.filter (fun l => negb (bool_decide (l = EmptyString)) && negb (is_comment l))
            (strip <$> (if discontinuity seg then ["#EXT-X-DISCONTINUITY"%string] else []))
          = []) as -> by (destruct (discontinuity seg); by vm_compute).
  cbn [app fmap list_fmap List.filter].
  change (("#EXTINF:" +:+ fmt_3f (duration seg) +:+ ",")%string)
    with (String "#" ("EXTINF:" +:+ fmt_3f (duration seg) +:+ ",")%string).
  rewrite strip_comment, Hk, strip_segment_name. rewrite andb_false_r.
  rewrite bool_decide_eq_false_2 by done. done.
Qed.

(** X24.  The manifest that the repackager writes reads back as its
    window: [parse_manifest] on the lines of [build_manifest] returns the
    names of the segments in the window, in order; tags, durations and
    discontinuity marks are skipped as comments. *)
Theorem own_manifest_reads_back fmt_3f args now ws st effs :
  repack fmt_3f args (initial now) ws = (st, effs) ->
  parse_manifest (Some (manifest_lines fmt_3f (recent_segments st)))
  = uri <$> recent_segments st
  /\ uri <$> recent_segments st
     = segment_name <$> seq (sequence st - length (recent_segments st))
                            (length (recent_segments st)).
Proof.
  intros H. pose proof (numbered_kept fmt_3f args now ws) as (_ & H2 & _).
  rewrite H in *. cbn [fst snd] in *. split; [|done].
  apply parse_own_lines. apply Forall_forall. intros seg Hin.
  assert (uri seg ∈ uri <$> recent_segments st) as Hu by (by apply list_elem_of_fmap_2).
  rewrite H2 in Hu. apply list_elem_of_fmap in Hu as (k & -> & _). eauto.
Qed.

Lemma own_manifest_reads_back_witness :
  exists st effs,
    repack fmt_thousandths example_args (initial 0) [first_poll; gap_poll] = (st, effs)
    /\ manifest_lines fmt_thousandths (recent_segments st)
       = ["#EXTM3U"; "#EXT-X-VERSION:3"; "#EXT-X-TARGETDURATION:6";
          "#EXT-X-MEDIA-SEQUENCE:0";
          "#EXTINF:4.000,"; "segment_00003.ts"; "#EXTINF:4.000,"; "segment_00004.ts";
          "#EXT-X-DISCONTINUITY"; "#EXTINF:4.000,"; "segment_00005.ts"]%string
    /\ parse_manifest (Some (manifest_lines fmt_thousandths (recent_segments st)))
       = uri <$> recent_segments st.
Proof.
  eexists _, _. split; [vm_compute; reflexivity|]. split; [vm_compute; reflexivity|].
  exact (proj1 (own_manifest_reads_back fmt_thousandths example_args 0
                  [first_poll; gap_poll] _ _ ltac:(vm_compute; reflexivity))).
Defined.

Lemma gap_due_disabled args st now :
  (gap_timeout args <= 0)%Q -> gap_due args st now = false.
Proof.
  intros H. unfold gap_due. by rewrite (proj2 (Qle_bool_iff _ _) H).
Qed.

(** X25.  A gap timeout of zero or less switches the gap filler off: the
    run copies nothing but upstream segments, and no entry of the window
    carries the discontinuity flag. *)
Theorem gap_filler_disabled fmt_3f args now ws st effs :
  (gap_timeout args <= 0)%Q ->
  repack fmt_3f args (initial now) ws = (st, effs) ->
  Forall (fun seg => discontinuity seg = false) (recent_segments st)
  /\ Forall (fun src => exists u, src = Div (source_parent args) u) (copy_sources effs).
Proof.
  intros Hg H.
  pose (I := fun (st : state) (effs : list effect) =>
       Forall (fun seg => discontinuity seg = false) (recent_segments st)
       /\ Forall (fun src => exists u, src = Div (source_parent args) u) (copy_sources effs)).
  enough (I (fst (repack fmt_3f args (initial now) ws))
            ([] ++ snd (repack fmt_3f args (initial now) ws))) as Hk
    by (by rewrite H in Hk).
  apply (repack_kept fmt_3f args I); unfold I; [| | |done].
  - intros w st0 effs0 u [H1 H2]. unfold deliver.
    destruct (decide (u ∈ processed st0)); cbn [fst snd]; [by rewrite app_nil_r|].
    destruct (negb (stable (w u))); cbn [fst snd]; [by rewrite app_nil_r|].
    cbn [recent_segments]. split.
    + unfold deque_append. apply Forall_drop, Forall_app. split; [done|].
      by repeat constructor.
    + rewrite copy_sources_app. apply Forall_app. split; [done|].
      repeat constructor. eauto.
  - intros st0 effs0 now' after [H1 H2]. unfold gap_fill.
    rewrite gap_due_disabled by done. cbn [fst snd]. by rewrite app_nil_r.
  - intros st0 effs0 q [H1 H2]. split; [done|].
    rewrite copy_sources_app. apply Forall_app. split; [done|]. constructor.
Qed.

Lemma gap_filler_disabled_witness :
  (gap_timeout no_gap_args <= 0)%Q
  /\ exists st effs,
       repack fmt_thousandths no_gap_args (initial 0) [first_poll; gap_poll] = (st, effs)
       /\ sequence st = 5%nat
       /\ Forall (fun seg => discontinuity seg = false) (recent_segments st).
Proof.
  assert (gap_timeout no_gap_args <= 0)%Q as Hg by (vm_compute; discriminate).
  split; [exact Hg|].
  eexists _, _. split; [vm_compute; reflexivity|]. split; [reflexivity|].
  exact (proj1 (gap_filler_disabled fmt_thousandths no_gap_args 0 [first_poll; gap_poll]
                  _ _ Hg ltac:(vm_compute; reflexivity))).
Defined.

(** X26.  No upstream segment is copied twice: with the output directory
    apart from the source directory, the URIs copied from upstream in a
    run are pairwise different, and each of them is marked processed. *)
Theorem upstream_copied_once fmt_3f args now ws st effs :
  source_parent args <> output_dir args ->
  repack fmt_3f args (initial now) ws = (st, effs) ->
  NoDup (delivered args effs)
  /\ forall u, u ∈ delivered args effs -> u ∈ processed st.
Proof.
  intros Hd H.
  pose (I := fun (st : state) (effs : list effect) =>
       window_inv args st
       /\ NoDup (delivered args effs)
       /\ forall u, u ∈ delivered args effs -> u ∈ processed st).
  enough (I (fst (repack fmt_3f args (initial now) ws))
            ([] ++ snd (repack fmt_3f args (initial now) ws))) as Hk
    by (rewrite H in Hk; apply Hk).
  apply (repack_kept fmt_3f args I); unfold I.
  - intros w st0 effs0 u (Hw & Hn & Hp).
    split; [exact (deliver_inv fmt_3f args w (st0, []) u Hw)|].
    unfold deliver.
    destruct (decide (u ∈ processed st0)) as [Hin|Hnin]; cbn [fst snd];
      [by rewrite app_nil_r|].
    destruct (negb (stable (w u))); cbn [fst snd processed].
    + rewrite app_nil_r. split; [done|]. intros u' Hu'. set_solver.
    + rewrite delivered_app. unfold delivered at 2 4. cbn [omap list_omap app].
      rewrite decide_True by done. split.
      * apply NoDup_app. split; [done|]. split; [|apply NoDup_singleton].
        intros u' Hu' ->%list_elem_of_singleton. by apply Hnin, Hp.
      * intros u' [Hu'|Hu']%elem_of_app; [set_solver|].
        apply list_elem_of_singleton in Hu' as ->. set_solver.
  - intros st0 effs0 now' after (Hw & Hn & Hp).
    split; [exact (gap_fill_inv fmt_3f args st0 now' after Hw)|].
    unfold gap_fill. destruct (gap_due args st0 now'); cbn [fst snd];
      [|by rewrite app_nil_r].
    destruct (last_output_path st0) as [last|] eqn:Hl; cbn [fst snd processed];
      [|by rewrite app_nil_r].
    destruct Hw as [_ Hw]. destruct (Hw _ Hl) as (k & _ & ->).
    rewrite delivered_app. unfold delivered at 2 4. cbn [omap list_omap app].
    rewrite decide_False by done. by rewrite app_nil_r.
  - intros st0 effs0 q (Hw & Hn & Hp). split; [done|].
    rewrite delivered_app. cbn. by rewrite app_nil_r.
  - split; [|split; [constructor|by intros u ?%elem_of_nil]].
    split; [done|]. intros p [=].
Qed.

Lemma upstream_copied_once_witness :
  source_parent example_args <> output_dir example_args
  /\ exists st effs,
       repack fmt_thousandths example_args (initial 0) [first_poll; gap_poll] = (st, effs)
       /\ delivered example_args effs = ["a.ts"; "b.ts"; "c.ts"; "d.ts"; "e.ts"]%string
       /\ NoDup (delivered example_args effs).
Proof.
  assert (source_parent example_args <> output_dir example_args) as Hd by discriminate.
  split; [exact Hd|].
  eexists _, _. split; [vm_compute; reflexivity|]. split; [vm_compute; reflexivity|].
  exact (proj1 (upstream_copied_once fmt_thousandths example_args 0 [first_poll; gap_poll]
                  _ _ Hd ltac:(vm_compute; reflexivity))).
Defined.

End RepackerMore.

(** * More on the placeholder/live switch *)

Section SwitchMore.
Import FifoSwitch.
Local Open Scope Z_scope.
Variable switch_grace : Q.
Variable original_flags : Z.

Lemma prologue_facts :
  Forall sound (prologue original_flags)
  /\ Forall (fun e => is_live_data e = false) (prologue original_flags)
  /\ chunks_read (prologue original_flags) = []
  /\ chunks_written (prologue original_flags) = []
  /\ OpenFifo true ∈ prologue original_flags.
Proof.
  split; [repeat constructor; done|]. split; [repeat constructor|].
  split; [done|]. split; [done|]. unfold prologue. set_solver.
Qed.

(** The ways a run of [main] that has opened the FIFO can go, with
    [body] what it does up to its last statement before the [except:] and
    [finally:] clauses: it is still running; it returns after the live
    side has exited; a write fails; the live side or the placeholder
    exits during the first loop; or the grace pause raises, right after
    the first live chunk was read. *)
Lemma main_endings s :
  fifo_open s = Some true ->
  exists body,
    Forall sound body
    /\ OpenFifo true ∈ body
    /\ ((main switch_grace original_flags s = (body, Running)
         /\ chunks_written body = chunks_read body)
        \/ (main switch_grace original_flags s = (body ++ cleanup s, Returned)
            /\ chunks_written body = chunks_read body)
        \/ (exists c,
              main switch_grace original_flags s
              = (body ++ [WriteFifo c false;
                          Log "[fifo-switch] FIFO reader closed, stopping"] ++ cleanup s,
                 Returned)
              /\ chunks_read body = chunks_written body ++ [c])
        \/ (exists e,
              (e = RuntimeError "live process exited before producing data"
               \/ e = RuntimeError "placeholder process exited unexpectedly")
              /\ main switch_grace original_flags s = (body ++ cleanup s, Uncaught e)
              /\ chunks_written body = chunks_read body
              /\ Forall (fun ev => is_live_data ev = false) body)
        \/ (exists e b chunk before t,
              body = before ++ [ReadLive (Z.lor original_flags O_NONBLOCK) (Some (b :: chunk))]
              /\ Forall (fun ev => is_live_data ev = false) before
              /\ chunks_written before = chunks_read before
              /\ chunks_written body = chunks_written before
              /\ Qeq_bool switch_grace 0 = false
              /\ t ∈ pre s
              /\ time_sleep switch_grace (sleep_raised t) = Some e
              /\ main switch_grace original_flags s = (body ++ cleanup s, Uncaught e))).
Proof.
  intros Ho.
  destruct prologue_facts as (Ps & Pd & Pr & Pw & Po).
  destruct (pre_loop_run switch_grace original_flags (pre s) (start_clock s))
    as (quiet_turns & before & Hrel & Hrun).
  destruct (relay_turns_facts original_flags _ _ Hrel) as (Hq & _ & Hbs & Hbc).
  assert (Forall (fun e => is_live_data e = false) (concat before)) as Hbd.
  { eapply Forall_impl; [exact Hq|]. by intros ? [? _]. }
  destruct Hrun as [[Hturns Hpre] | (t & later & tail & r & Hturns & Hpre & Hlast)].
  { pose proof (main_opened switch_grace original_flags s _ _ Ho Hpre) as H.
    cbn beta iota in H. exists (prologue original_flags ++ concat before).
    split; [by rewrite Forall_app|]. split; [set_solver|]. left. split; [done|].
    by rewrite chunks_read_app, chunks_written_app, Pr, Pw, Hbc. }
  assert (t ∈ pre s) as Ht by (rewrite Hturns; set_solver).
  pose proof (main_opened switch_grace original_flags s _ _ Ho Hpre) as Hmain.
  destruct Hlast as [Hstop | (Hexit & b & chunk & Hread & -> & ->)].
  { destruct (stopping_turn_facts original_flags _ _ _ Hstop) as (Hd & Hc & Hr).
    destruct r; try done.
    - destruct Hr as (bd & c & -> & Hbd').
      exists (prologue original_flags ++ concat before ++ bd).
      split; [by rewrite !Forall_app|]. split; [set_solver|]. right. right. left. exists c.
      split; [rewrite Hmain; by rewrite <- !app_assoc|].
      rewrite chunks_read_app, chunks_written_app in Hc. cbn in Hc.
      rewrite app_nil_r in Hc.
      rewrite !chunks_read_app, !chunks_written_app, Pr, Pw, Hbc, <- Hc.
      cbn [app]. by rewrite <- !app_assoc.
    - destruct Hr as (He & Hts). exists (prologue original_flags ++ concat before ++ tail).
      split; [by rewrite !Forall_app|]. split; [set_solver|].
      right. right. right. left. exists e.
      split; [done|]. split; [rewrite Hmain; by rewrite <- !app_assoc|].
      split; [by rewrite !chunks_read_app, !chunks_written_app, Pr, Pw, Hbc, Hc|].
      by rewrite !Forall_app. }
  pose (reading := [Poll Live None;
                    ReadLive (Z.lor original_flags O_NONBLOCK) (Some (b :: chunk))]).
  destruct (terminate_no_chunks Placeholder (handover t)) as [Tr Tw].
  pose proof (terminate_sound Placeholder (handover t)) as Tsound.
  destruct (switch_over_cases switch_grace original_flags (b :: chunk) t)
    as [(term & Hso & ->) | (Hne & e & Hso & Hsl)]; rewrite Hso in *; cbn [fst snd] in *.
  2:{ exists (prologue original_flags ++ concat before ++ reading).
      split; [rewrite !Forall_app; by repeat constructor|]. split; [set_solver|].
      right. right. right. right.
      exists e, b, chunk, (prologue original_flags ++ concat before ++ [Poll Live None]), t.
      split; [by rewrite <- !app_assoc|].
      split; [rewrite !Forall_app; by repeat constructor|].
      split; [by rewrite !chunks_read_app, !chunks_written_app, Pr, Pw, Hbc|].
      split; [by rewrite !chunks_written_app|].
      split; [done|]. split; [done|]. split; [done|].
      rewrite Hmain. by rewrite <- !app_assoc. }
  set (pause := if Qeq_bool switch_grace 0 then [] else [Sleep switch_grace]) in *.
  assert (Forall sound pause /\ chunks_read pause = [] /\ chunks_written pause = [])
    as (Hps & Hpr & Hpw).
  { unfold pause. destruct (Qeq_bool switch_grace 0); repeat constructor; done. }
  set (over := pause
               ++ [Log "[fifo-switch] live data detected, switching over";
                   SetFlags original_flags]
               ++ _terminate Placeholder (handover t) ++ [CloseStdout Placeholder]).
  assert (Forall sound over /\ chunks_read over = [] /\ chunks_written over = [])
    as (Hos & Hor & How).
  { unfold over. rewrite !Forall_app, !chunks_read_app, !chunks_written_app, Hpr, Hpw, Tr, Tw.
    repeat split; try done; repeat constructor; done. }
  assert (forall tl,
    concat before
    ++ reading ++ pause
    ++ [Log "[fifo-switch] live data detected, switching over"; SetFlags original_flags]
    ++ _terminate Placeholder (handover t)
    ++ [CloseStdout Placeholder; WriteFifo (b :: chunk) (write_ok t)] ++ tl
    = (concat before ++ reading ++ over) ++ WriteFifo (b :: chunk) (write_ok t) :: tl) as Hshape.
  { intros tl. unfold over. by rewrite <- !app_assoc. }
  set (head := prologue original_flags ++ concat before ++ reading ++ over).
  assert (Forall sound head
          /\ chunks_read head = chunks_written head ++ [b :: chunk]
          /\ OpenFifo true ∈ head) as (Hhs & Hhc & Hho).
  { unfold head. rewrite !Forall_app, !chunks_read_app, !chunks_written_app.
    rewrite Pr, Pw, Hor, How, Hbc. split; [|split; [by rewrite !app_nil_r|set_solver]].
    repeat split; try done; repeat constructor; done. }
  destruct (write_ok t).
  2:{ exists head. split; [done|]. split; [done|]. right. right. left.
      exists (b :: chunk). split; [|done].
      rewrite Hmain. unfold head, over. by rewrite <- !app_assoc. }
  destruct Hmain as (evs2 & H1 & H2 & [[Hs2 [H|H]] | (body & c & -> & Hs2 & H)]).
  - exists (head ++ WriteFifo (b :: chunk) true :: evs2).
    split; [rewrite Forall_app; split; [done|]; by apply Forall_cons_2|].
    split; [set_solver|]. left.
    split; [rewrite H; unfold head, over; by rewrite <- !app_assoc|].
    change (WriteFifo (b :: chunk) true :: evs2) with ([WriteFifo (b :: chunk) true] ++ evs2).
    rewrite !chunks_read_app, !chunks_written_app, Hhc, H2. cbn. by rewrite <- !app_assoc.
  - exists (head ++ WriteFifo (b :: chunk) true :: evs2).
    split; [rewrite Forall_app; split; [done|]; by apply Forall_cons_2|].
    split; [set_solver|]. right. left.
    split; [rewrite H; unfold head, over; by rewrite <- !app_assoc|].
    change (WriteFifo (b :: chunk) true :: evs2) with ([WriteFifo (b :: chunk) true] ++ evs2).
    rewrite !chunks_read_app, !chunks_written_app, Hhc, H2. cbn. by rewrite <- !app_assoc.
  - exists (head ++ WriteFifo (b :: chunk) true :: body).
    split; [rewrite Forall_app; split; [done|]; by apply Forall_cons_2|].
    split; [set_solver|]. right. right. left. exists c.
    split; [rewrite H; unfold head, over; by rewrite <- !app_assoc|].
    change (WriteFifo (b :: chunk) true :: body) with ([WriteFifo (b :: chunk) true] ++ body).
    rewrite chunks_read_app, chunks_written_app in H2. cbn in H2. rewrite app_nil_r in H2.
    rewrite !chunks_read_app, !chunks_written_app, Hhc, <- H2. cbn. by rewrite <- !app_assoc.
Qed.

End SwitchMore.

Section SwitchEndings.
Import FifoSwitch.
Local Open Scope Z_scope.

(** X27.  The switch forwards what it reads, in order.  The chunks a run
    tries to write to the FIFO are the non-empty chunks it has read,
    placeholder and live, in the order read; or all of them but the
    last, in a run that ends with the exception of a grace pause that
    raised, as [time.sleep] does for a negative [--switch-grace]: the live
    chunk read just before is never written.  When the grace is not
    negative and no pause raises, every chunk read is forwarded. *)
Theorem fifo_gets_what_was_read switch_grace original_flags s :
  (chunks_written (fst (main switch_grace original_flags s))
   = chunks_read (fst (main switch_grace original_flags s))
   \/ exists e c,
        snd (main switch_grace original_flags s) = Uncaught e
        /\ Qeq_bool switch_grace 0 = false
        /\ chunks_read (fst (main switch_grace original_flags s))
           = chunks_written (fst (main switch_grace original_flags s)) ++ [c])
  /\ ((0 <= switch_grace)%Q ->
      (forall t, t ∈ pre s -> sleep_raised t = None) ->
      chunks_written (fst (main switch_grace original_flags s))
      = chunks_read (fst (main switch_grace original_flags s))).
Proof.
  destruct (startup_facts original_flags) as (_ & _ & Sr & Sw).
  destruct (cleanup_facts s) as (_ & _ & Cr & Cw).
  destruct (decide (fifo_open s = Some true)) as [Ho|Ho].
  2:{ assert (chunks_written (fst (main switch_grace original_flags s))
              = chunks_read (fst (main switch_grace original_flags s))) as H.
      { destruct (main_not_opened switch_grace original_flags s Ho) as [H|H];
          rewrite H; cbn [fst];
          by rewrite ?chunks_read_app, ?chunks_written_app, ?Sr, ?Sw, ?Cr, ?Cw. }
      split; [by left|done]. }
  destruct (main_endings switch_grace original_flags s Ho)
    as (body & _ & _ & [[H Hc] | [[H Hc] | [(c & H & Hc) | [(e & _ & H & Hc & _) |
         (e & b & chunk & before & t & -> & _ & Hc & Hw & Hne & Ht & Hsl & H)]]]]);
    rewrite H; cbn [fst snd];
    try (split; [left|intros _ _];
         rewrite ?chunks_read_app, ?chunks_written_app, ?Cr, ?Cw, ?Hc, ?app_nil_r;
         cbn; by rewrite ?app_nil_r).
  rewrite !chunks_read_app, !chunks_written_app, Cr, Cw, Hc.
  change (chunks_written [ReadLive (Z.lor original_flags O_NONBLOCK) (Some (b :: chunk))])
    with (@nil (list Z)).
  change (chunks_read [ReadLive (Z.lor original_flags O_NONBLOCK) (Some (b :: chunk))])
    with [b :: chunk].
  rewrite !app_nil_r. split.
  - right. exists e, (b :: chunk). done.
  - intros Hgrace Hsleep. exfalso. unfold time_sleep in Hsl.
    rewrite (Hsleep _ Ht), (proj2 (Qle_bool_iff _ _) Hgrace) in Hsl. done.
Qed.

(** X28.  However [main] ends once [os.open] has returned or raised, by
    returning or with an exception, the last thing it does is the
    [finally:] clause: the placeholder and then the live chain are
    terminated, each as the world answers at that moment (SIGTERM to a
    process still running, SIGKILL only after a wait that timed out), and
    the FIFO is closed if it was opened, and only then: when [os.open]
    raised there is no descriptor to close. *)
Theorem main_always_cleans_up switch_grace original_flags s :
  snd (main switch_grace original_flags s) <> Running ->
  exists body termP termL closing,
    fst (main switch_grace original_flags s) = body ++ termP ++ termL ++ closing
    /\ terminated Placeholder (final_placeholder s) termP
    /\ terminated Live (final_live s) termL
    /\ graceful_then_forced Placeholder termP
    /\ graceful_then_forced Live termL
    /\ (CloseFifo ∉ body)
    /\ ((OpenFifo true ∈ body /\ closing = [CloseFifo])
        \/ ((OpenFifo true ∉ body) /\ OpenFifo false ∈ body /\ closing = [])).
Proof.
  intros Hend.
  assert (forall body,
    CloseFifo ∉ body ->
    (OpenFifo true ∈ body /\ fifo_open s = Some true)
    \/ ((OpenFifo true ∉ body) /\ OpenFifo false ∈ body /\ fifo_open s = Some false) ->
    fst (main switch_grace original_flags s) = body ++ cleanup s ->
    exists body termP termL closing,
      fst (main switch_grace original_flags s) = body ++ termP ++ termL ++ closing
      /\ terminated Placeholder (final_placeholder s) termP
      /\ terminated Live (final_live s) termL
      /\ graceful_then_forced Placeholder termP
      /\ graceful_then_forced Live termL
      /\ (CloseFifo ∉ body)
      /\ ((OpenFifo true ∈ body /\ closing = [CloseFifo])
          \/ ((OpenFifo true ∉ body) /\ OpenFifo false ∈ body /\ closing = []))) as Hgo.
  { intros body Hb Hopen E.
    exists body, (_terminate Placeholder (final_placeholder s)),
      (_terminate Live (final_live s)),
      (if bool_decide (fifo_open s = Some true) then [CloseFifo] else []).
    split; [exact E|]. split; [apply terminate_terminated|].
    split; [apply terminate_terminated|]. split; [apply terminate_graceful|].
    split; [apply terminate_graceful|]. split; [done|].
    destruct Hopen as [[H1 H2] | (H1 & H2 & H3)]; rewrite ?H2, ?H3; [left|right]; done. }
  destruct (decide (fifo_open s = Some true)) as [Ho|Ho].
  2:{ destruct (main_not_opened switch_grace original_flags s Ho) as [H|H];
        rewrite H in Hend; [done|].
      apply (Hgo (startup original_flags ++ [OpenFifo false])).
      - unfold startup. set_solver.
      - right. unfold startup. split; [set_solver|]. split; [set_solver|].
        unfold main in H. by destruct (fifo_open s) as [[|]|].
      - rewrite H. cbn [fst]. by rewrite <- !app_assoc. }
  destruct (main_endings switch_grace original_flags s Ho)
    as (body & Hs & Hopen & [[H _] | [[H _] | [(c & H & _) | [(e & _ & H & _) |
         (e & b & chunk & before & t & _ & _ & _ & _ & _ & _ & _ & H)]]]]);
    rewrite H in Hend; cbn [snd] in Hend; try done.
  - apply (Hgo body); [by apply sound_not_closed|by left|by rewrite H].
  - apply (Hgo (body ++ [WriteFifo c false;
                         Log "[fifo-switch] FIFO reader closed, stopping"])).
    + apply sound_not_closed in Hs. set_solver.
    + left. split; [set_solver|done].
    + rewrite H. cbn [fst]. by rewrite <- !app_assoc.
  - apply (Hgo body); [by apply sound_not_closed|by left|by rewrite H].
  - apply (Hgo body); [by apply sound_not_closed|by left|by rewrite H].
Qed.

Lemma main_always_cleans_up_witness :
  exists body termP termL closing,
    fst (main 1 0 example_script) = body ++ termP ++ termL ++ closing
    /\ terminated Placeholder (final_placeholder example_script) termP
    /\ terminated Live (final_live example_script) termL
    /\ graceful_then_forced Placeholder termP
    /\ graceful_then_forced Live termL
    /\ (CloseFifo ∉ body)
    /\ ((OpenFifo true ∈ body /\ closing = [CloseFifo])
        \/ ((OpenFifo true ∉ body) /\ OpenFifo false ∈ body /\ closing = [])).
Proof. apply (main_always_cleans_up 1 0 example_script). vm_compute. discriminate. Defined.



(** X30.  A write to the FIFO that fails because the reader is gone ends
    the run in an orderly way: nothing is read or written after it, the
    event is logged, the clean-up runs, and [main] returns without an
    exception.  At most one write fails in a run. *)
Theorem broken_pipe_is_caught switch_grace original_flags s :
  (exists e, e ∈ fst (main switch_grace original_flags s) /\ is_failed_write e = true) ->
  snd (main switch_grace original_flags s) = Returned
  /\ exists body c,
       fst (main switch_grace original_flags s)
       = body ++ [WriteFifo c false; Log "[fifo-switch] FIFO reader closed, stopping"]
         ++ cleanup s
       /\ Forall (fun ev => is_failed_write ev = false) body.
Proof.
  intros (e & Hin & Hf).
  destruct (startup_facts original_flags) as (_ & Ss & _).
  destruct (cleanup_facts s) as (_ & Cf & _).
  assert (forall evs, Forall (fun ev => is_failed_write ev = false) evs -> e ∉ evs) as Hno.
  { intros evs H He. rewrite Forall_forall in H. apply H in He. congruence. }
  assert (forall evs, Forall sound evs -> e ∉ evs) as Hno'.
  { intros evs H He. exact (eq_true_false_abs _ Hf (sound_not_failed _ _ H He)). }
  destruct (decide (fifo_open s = Some true)) as [Ho|Ho].
  2:{ exfalso. destruct (main_not_opened switch_grace original_flags s Ho) as [H|H];
        rewrite H in Hin; cbn [fst] in Hin.
      - by apply Hno' in Hin.
      - rewrite !elem_of_app in Hin. destruct Hin as [Hin|[Hin|Hin]].
        + by apply Hno' in Hin.
        + apply list_elem_of_singleton in Hin. by subst e.
        + by apply Hno in Hin. }
  destruct (main_endings switch_grace original_flags s Ho)
    as (body & Hs & _ & [[H _] | [[H _] | [(c & H & _) | [(e' & _ & H & _) |
         (e' & b & chunk & before & t & _ & _ & _ & _ & _ & _ & _ & H)]]]]);
    rewrite H in Hin |- *; cbn [fst snd] in *.
  - by apply Hno' in Hin.
  - exfalso. apply elem_of_app in Hin as [Hin|Hin]; [by apply Hno' in Hin|by apply Hno in Hin].
  - split; [done|]. exists body, c. split; [done|].
    eapply Forall_impl; [exact Hs|]. by intros ? [? _].
  - exfalso. apply elem_of_app in Hin as [Hin|Hin]; [by apply Hno' in Hin|by apply Hno in Hin].
  - exfalso. apply elem_of_app in Hin as [Hin|Hin]; [by apply Hno' in Hin|by apply Hno in Hin].
Qed.

Lemma broken_pipe_is_caught_witness :
  (exists e, e ∈ fst (main 0 0 reader_gone_script) /\ is_failed_write e = true)
  /\ snd (main 0 0 reader_gone_script) = Returned
  /\ chunks_read (fst (main 0 0 reader_gone_script)) = [[0x47; 1]; [0x47; 2]].
Proof.
  assert (exists e, e ∈ fst (main 0 0 reader_gone_script) /\ is_failed_write e = true) as H.
  { exists (WriteFifo [0x47; 2] false). split; [|reflexivity].
    vm_compute. repeat (first [apply list_elem_of_here | apply list_elem_of_further]). }
  split; [exact H|]. split; [|vm_compute; reflexivity].
  exact (proj1 (broken_pipe_is_caught 0 0 reader_gone_script H)).
Defined.

End SwitchEndings.
